(** * super-simple-social: the scheduling backend of [server.js]

    A shallow embedding of the cadence planner ([nextScheduleTimes]), the
    weighted selector ([pickWeighted]), the draft composer
    ([generatePostsForBrand]) and the post lifecycle handlers of
    [src/server.js], with the properties of the specification stated and
    settled against them.

    Conventions of the embedding.
    - A JavaScript [Date] is its time value: an integer number of
      milliseconds since the epoch ([Z]).  The range limit of time values
      (8.64e15 ms either side of the epoch, beyond which a [Date] is
      invalid) is not modelled; the closed forms of the scan of
      [nextScheduleTimes] are stated for dates that do not leave the range
      ([withinDateRange]).
    - The [Date] methods of the source work in local time.  The local time
      zone is a parameter ([JsDate.TimeZone]): the offset of local time at
      each instant, so that daylight-saving transitions are within the
      model.  An integer [tza] stands for the zone that keeps the offset
      [tza] (milliseconds) at every instant.
    - JavaScript numbers that the code uses as integers are [Z]; weights and
      random draws are rationals ([Q]).
    - A JavaScript string value is the list of its UTF-16 code units.  A
      text column gives back the string stored in it; the database keeps
      text in UTF-8, so this is the behaviour on well-formed UTF-16 strings
      ([wellFormed]), and a statement that gives the code units of a stored
      text is made of those.
    - The values whose type the code tests or relies on at run time (the
      cadence of a request, the weekday column, the text of a post update,
      the reply of the generator and its items) are kept as JavaScript
      values; the other request fields are taken well-typed, an optional
      field being an [option].
    - A table is the list of its rows in insertion order.  Of the errors of
      the SQLite driver only the primary-key conflict of an INSERT is
      modelled.
    - [Math.random()], [uid()], the clock, the ContentGenerator and the
      Publisher are parameters. *)

From Stdlib Require Import String Ascii.
From Stdlib Require Import ZArith List Bool Lia QArith Qround Lqa.
From Stdlib Require Qcanon.
From Stdlib Require Import Sorted Permutation.
Import ListNotations.

Local Open Scope string_scope.
Local Open Scope list_scope.
Local Open Scope Z_scope.

(** ** Time values (ECMAScript, sections "Day Number and Time within Day",
       "Week Day", "Hours, Minutes, Second, and Milliseconds") *)

Module JsDate.

Definition msPerSecond : Z := 1000.
Definition msPerMinute : Z := 60000.
Definition msPerHour : Z := 3600000.
Definition msPerDay : Z := 86400000.

(** The largest time value; a [Date] beyond it, either side of the epoch,
    is invalid. *)
Definition maxTime : Z := 8640000000000000.

Definition Day (t : Z) : Z := t / msPerDay.
Definition TimeWithinDay (t : Z) : Z := t mod msPerDay.
Definition WeekDay (t : Z) : Z := (Day t + 4) mod 7.
Definition HourFromTime (t : Z) : Z := (t / msPerHour) mod 24.
Definition MinFromTime (t : Z) : Z := (t / msPerMinute) mod 60.
Definition SecFromTime (t : Z) : Z := (t / msPerSecond) mod 60.
Definition msFromTime (t : Z) : Z := t mod msPerSecond.

Definition MakeTime (hour min sec ms : Z) : Z :=
hour * msPerHour + min * msPerMinute + sec * msPerSecond + ms.
Definition MakeDate (day time : Z) : Z := day * msPerDay + time.

(** Day of the month (1..31) of a day number, proleptic Gregorian calendar,
  day 0 being 1970-01-01. *)
Definition DateFromDay (day : Z) : Z :=
let z := day + 719468 in
let era := z / 146097 in
let doe := z - era * 146097 in
let yoe := (doe - doe / 1460 + doe / 36524 - doe / 146096) / 365 in
let doy := doe - (365 * yoe + yoe / 4 - yoe / 100) in
let mp := (5 * doy + 2) / 153 in
doy - (153 * mp + 2) / 5 + 1.

Definition DateFromTime (t : Z) : Z := DateFromDay (Day t).

(** The local time zone, as the two readings of [LocalTZA(t, isUTC)]: the
    offset of local time from UTC, in milliseconds, in force at the instant
    [t] ([isUTC] true), and the offset by which the local time value [t] is
    read ([isUTC] false; a local time that a transition skips or repeats is
    read by the offset the implementation chooses for it). *)
Record TimeZone := mkZone {
  offsetAt : Z -> Z;
  offsetOfLocal : Z -> Z
}.

(** The zone that keeps the offset [tza] at every instant. *)
Definition fixed (tza : Z) : TimeZone := mkZone (fun _ => tza) (fun _ => tza).

Section LocalTime.

Variable zone : TimeZone.

Definition LocalTime (t : Z) : Z := t + offsetAt zone t.
Definition UTC (t : Z) : Z := t - offsetOfLocal zone t.

Definition getDay (d : Z) : Z := WeekDay (LocalTime d).
Definition getDate (d : Z) : Z := DateFromTime (LocalTime d).
Definition getHours (d : Z) : Z := HourFromTime (LocalTime d).
Definition getMinutes (d : Z) : Z := MinFromTime (LocalTime d).
Definition getSeconds (d : Z) : Z := SecFromTime (LocalTime d).
Definition getMilliseconds (d : Z) : Z := msFromTime (LocalTime d).

(** [d.setDate(dt)]: [MakeDate(MakeDay(Year(t), Month(t), dt),
    TimeWithinDay(t))] on the local time [t].  [MakeDay(y, m, dt)] is the
    day number of the first day of month [m] of year [y], plus [dt - 1];
    for the year and month of [t] itself that first day is
    [Day(t) - (DateFromTime(t) - 1)]. *)
Definition setDate (d dt : Z) : Z :=
  let t := LocalTime d in
  let firstOfMonth := Day t - (DateFromTime t - 1) in
  UTC (MakeDate (firstOfMonth + dt - 1) (TimeWithinDay t)).

(** [d.setHours(hour, min, sec, ms)]. *)
Definition setHours (d hour min sec ms : Z) : Z :=
  let t := LocalTime d in
  UTC (MakeDate (Day t) (MakeTime hour min sec ms)).

End LocalTime.

End JsDate.

(** An offset stands for the zone that keeps it. *)
Coercion JsDate.fixed : Z >-> JsDate.TimeZone.

(** ** JavaScript values *)

(** A string value: its UTF-16 code units. *)
Definition jstring := list N.

(** The code units of an ASCII literal of the source. *)
Definition str (s : string) : jstring :=
  map N_of_ascii (list_ascii_of_string s).

Fixpoint jstring_eqb (a b : jstring) : bool :=
  match a, b with
  | [], [] => true
  | x :: a', y :: b' => N.eqb x y && jstring_eqb a' b'
  | _, _ => false
  end.

(** A value as [JSON.parse] or a property read can produce it.  An object
    keeps its properties in an association list, read first match first. *)
#[warnings="-register-all"]
Inductive JsValue :=
| JUndefined
| JNull
| JBool (b : bool)
| JNum (q : Q)
| JStr (s : jstring)
| JArr (elems : list JsValue)
| JObj (props : list (string * JsValue)).

Fixpoint assoc (k : string) (props : list (string * JsValue)) : JsValue :=
  match props with
  | [] => JUndefined
  | (k', v) :: rest => if String.eqb k k' then v else assoc k rest
  end.

(** The result of an expression that can throw. *)
Inductive outcome (A : Type) :=
| Return (a : A)
| Throw (e : string).
Arguments Return {A} a.
Arguments Throw {A} e.

(** [v.k]: a property read throws on [null] and [undefined]; a primitive or
    an array has none of the properties the source reads by name. *)
Definition getProp (v : JsValue) (k : string) : outcome JsValue :=
  match v with
  | JUndefined | JNull => Throw "TypeError"
  | JObj props => Return (assoc k props)
  | _ => Return JUndefined
  end.

(** [v?.k]. *)
Definition getPropOpt (v : JsValue) (k : string) : JsValue :=
  match getProp v k with Return x => x | Throw _ => JUndefined end.

(** ToBoolean. *)
Definition truthy (v : JsValue) : bool :=
  match v with
  | JUndefined | JNull => false
  | JBool b => b
  | JNum q => negb (Qeq_bool q 0)
  | JStr s => negb (jstring_eqb s [])
  | JArr _ | JObj _ => true
  end.

Definition isArray (v : JsValue) : bool :=
  match v with JArr _ => true | _ => false end.

(** [Number.isInteger(v)], with the integer when it is one. *)
Definition asInteger (v : JsValue) : option Z :=
  match v with
  | JNum q => let r := Qred q in
              if Pos.eqb (Qden r) 1 then Some (Qnum r) else None
  | _ => None
  end.

(** ** CadencePlanner: [nextScheduleTimes] (server.js, lines 75-88) *)

Record Cadence := mkCadence {
  weekdays : JsValue;
  hour : option Z;               (* [None]: null or undefined *)
  minute : option Z
}.

(** [a ?? b] on an optional integer. *)
Definition nullish (a : option Z) (b : Z) : Z :=
  match a with Some v => v | None => b end.

(** An array element equal to the number [weekday] (SameValueZero). *)
Definition isNumber (weekday : Z) (v : JsValue) : bool :=
  match v with JNum q => Qeq_bool q (inject_Z weekday) | _ => false end.

(** [(cadence.weekdays||[]).includes(weekday)], for [weekday] in 1..7.  On an
    array it is membership; on a string it searches for the digit of
    [weekday]; any other truthy value has no [includes] method. *)
Definition includes (w : JsValue) (weekday : Z) : outcome bool :=
  if truthy w then
    match w with
    | JArr elems => Return (existsb (isNumber weekday) elems)
    | JStr s => Return (existsb (N.eqb (Z.to_N (48 + weekday))) s)
    | _ => Throw "TypeError"
    end
  else Return false.

Section NextScheduleTimes.

Import JsDate.

Variable zone : TimeZone.
Variable cadence : Cadence.
Variable count : Z.
Variable now : Z.             (* [new Date()] *)

(** Monday = 1 .. Sunday = 7, as computed on line 81. *)
Definition isoWeekday (d : Z) : Z := ((getDay zone d + 6) mod 7) + 1.

(** The body of the [for] loop for one value of [i]. *)
Definition scanDay (i : Z) (times : list Z) : outcome (list Z) :=
  let d := setDate zone now (getDate zone now + i) in
  let weekday := ((getDay zone d + 6) mod 7) + 1 in
  match includes (weekdays cadence) weekday with
  | Throw e => Throw e
  | Return true =>
      let d' := setHours zone d (nullish (hour cadence) 10)
                         (nullish (minute cadence) 0) 0 0 in
      Return (if d' >? now then times ++ [d'] else times)
  | Return false => Return times
  end.

(** [for(let i=0; i<30 && times.length<count; i++)]; [fuel] bounds the
    number of iterations still to run. *)
Fixpoint scan (fuel : nat) (i : Z) (times : list Z) : outcome (list Z) :=
  match fuel with
  | O => Return times
  | S fuel' =>
      if (i <? 30) && (Z.of_nat (length times) <? count)
      then match scanDay i times with
           | Return times' => scan fuel' (i + 1) times'
           | Throw e => Throw e
           end
      else Return times
  end.

Definition nextScheduleTimes : outcome (list Z) := scan 30 0 [].

End NextScheduleTimes.

(** ** WeightedSelector: [pickWeighted] (server.js, lines 90-95) *)

Record WeightedItem := mkItem {
  key : jstring;
  label : jstring;
  weight : option Q              (* [None]: the property is missing *)
}.

(** [(it.weight||0)]. *)
Definition weightOr0 (it : WeightedItem) : Q :=
  match weight it with
  | Some w => if Qeq_bool w 0 then 0%Q else w
  | None => 0%Q
  end.

(** [for(const it of items){ n -= (it.weight||0); if(n<=0) return it }];
    [None] when the loop ends without returning. *)
Fixpoint walk (items : list WeightedItem) (n : Q) : option WeightedItem :=
  match items with
  | [] => None
  | it :: rest =>
      let n' := (n - weightOr0 it)%Q in
      if Qle_bool n' 0 then Some it else walk rest n'
  end.

(** [pickWeighted(items)], given the value [random] that [Math.random()]
    returns.  The result is [None] where the source returns [undefined]
    ([items[0]] of an empty array). *)
Definition pickWeighted (items : list WeightedItem) (random : Q)
  : option WeightedItem :=
  let sum := fold_left (fun a b => (a + weightOr0 b)%Q) items 0%Q in
  let total := if Qeq_bool sum 0 then 1%Q else sum in
  let n := (random * total)%Q in
  match walk items n with
  | Some it => Some it
  | None => hd_error items
  end.

(** ** The store (the SQLite tables [brands] and [posts]) *)

(** Typed view of the settings blob: a field is [None] when the blob does
    not define it. *)
Record HashtagPolicy := mkHashtags {
  h_min : Z; h_max : Z; h_house : option (list jstring)
}.
Record CtaStyle := mkCta { cta_type : jstring; cta_pool : option (list jstring) }.

Record Settings := mkSettings {
  s_tagline : option jstring;
  s_tone : option (list jstring);
  s_pov : option jstring;
  s_spelling : option jstring;
  s_emoji : option jstring;
  s_hashtags : option HashtagPolicy;
  s_ctaStyle : option CtaStyle;
  s_bans : option (list jstring);
  s_emdash : option bool;
  s_pillars : option (list WeightedItem);
  s_formats : option (list WeightedItem)
}.

Module Brand.
(** A row of [brands], its JSON columns parsed as [rowToBrand] does.  The
    weekday column holds whatever JSON value was stored. *)
Record row := mk {
  id : jstring;
  name : jstring;
  voice : jstring;
  pillars : list jstring;
  cadence_weekdays : JsValue;
  cadence_hour : Z;
  cadence_minute : Z;
  platforms : list jstring;
  settings : Settings
}.
End Brand.

Record PostMeta := mkMeta {
  pillarKey : JsValue; pillarLabel : JsValue; formatKey : JsValue
}.

Module Post.
(** A row of [posts]; a timestamp column holds the instant its ISO string
    denotes, [None] for SQL NULL. *)
Record row := mk {
  id : jstring;
  brand : jstring;
  text : jstring;
  status : jstring;
  platformTargets : list jstring;
  createdAt : Z;
  scheduledAt : option Z;
  publishedAt : option Z;
  postMeta : PostMeta
}.

Definition withStatus (p : row) (s : jstring) : row :=
  mk (id p) (brand p) (text p) s (platformTargets p) (createdAt p)
     (scheduledAt p) (publishedAt p) (postMeta p).

Definition withPublished (p : row) (s : jstring) (at_ : Z) : row :=
  mk (id p) (brand p) (text p) s (platformTargets p) (createdAt p)
     (scheduledAt p) (Some at_) (postMeta p).
End Post.

Record Store := mkStore {
  brands : list Brand.row;
  posts : list Post.row
}.

(** ** Handlers as state-and-exception computations over the store *)

Definition M (A : Type) : Type := Store -> outcome A * Store.

Definition ret {A} (a : A) : M A := fun st => (Return a, st).
Definition throw {A} (e : string) : M A := fun st => (Throw e, st).
Definition lift {A} (o : outcome A) : M A := fun st => (o, st).
Definition bind {A B} (m : M A) (f : A -> M B) : M B :=
  fun st => match m st with
            | (Return a, st') => f a st'
            | (Throw e, st') => (Throw e, st')
            end.
(** [try { m } catch(err) { h err }]. *)
Definition tryCatch {A} (m : M A) (h : string -> M A) : M A :=
  fun st => match m st with
            | (Return a, st') => (Return a, st')
            | (Throw e, st') => h e st'
            end.

Notation "x <- m ;; k" := (bind m (fun x => k))
  (at level 61, m at next level, right associativity).
Notation "m ;;; k" := (bind m (fun _ => k))
  (at level 61, right associativity).

(** Rows are found and updated by their key, the [id] column. *)
Section KeyedTable.

Variable A : Type.
Variable key : A -> jstring.

Definition hasKey (i : jstring) (a : A) : bool := jstring_eqb (key a) i.

(** [UPDATE ... WHERE id=i], [f] being the assignment of the columns. *)
Definition updateWhere (i : jstring) (f : A -> A) (l : list A) : list A :=
  map (fun a => if hasKey i a then f a else a) l.

End KeyedTable.

Arguments hasKey {A} key i a.
Arguments updateWhere {A} key i f l.

(** [SELECT * FROM brands WHERE id=?] *)
Definition findBrand (i : jstring) (st : Store) : option Brand.row :=
  find (hasKey Brand.id i) (brands st).
Definition getBrand (i : jstring) : M (option Brand.row) :=
  fun st => (Return (findBrand i st), st).

(** [SELECT * FROM posts WHERE id=?] *)
Definition findPost (i : jstring) (st : Store) : option Post.row :=
  find (hasKey Post.id i) (posts st).
Definition getPost (i : jstring) : M (option Post.row) :=
  fun st => (Return (findPost i st), st).

(** [INSERT INTO brands ...]; [id] is the primary key. *)
Definition insertBrand (b : Brand.row) : M unit :=
  fun st =>
    if existsb (hasKey Brand.id (Brand.id b)) (brands st)
    then (Throw "SqliteError", st)
    else (Return tt, mkStore (brands st ++ [b]) (posts st)).

(** [UPDATE brands SET ... WHERE id=?] *)
Definition updateBrand (i : jstring) (f : Brand.row -> Brand.row) : M unit :=
  fun st =>
    (Return tt, mkStore (updateWhere Brand.id i f (brands st)) (posts st)).

(** [INSERT INTO posts ...]; [id] is the primary key. *)
Definition insertPost (p : Post.row) : M unit :=
  fun st =>
    if existsb (hasKey Post.id (Post.id p)) (posts st)
    then (Throw "SqliteError", st)
    else (Return tt, mkStore (brands st) (posts st ++ [p])).

(** [UPDATE posts SET ... WHERE id=?] *)
Definition updatePost (i : jstring) (f : Post.row -> Post.row) : M unit :=
  fun st =>
    (Return tt, mkStore (brands st) (updateWhere Post.id i f (posts st))).

(** What a handler sends back. *)
Inductive Response :=
| Json (code : Z)                  (* a JSON body with this status code *)
| JsonError (code : Z) (error : string).

(** ** Brand registration and partial update (server.js, lines 214-251) *)

Record BrandBody := mkBrandBody {
  bb_id : option jstring;
  bb_name : option jstring;
  bb_voice : option jstring;
  bb_pillars : option (list jstring);
  bb_cadence : JsValue;            (* as received *)
  bb_platforms : option (list jstring);
  bb_settings : option Settings
}.

Definition emptySettings : Settings :=
  mkSettings None None None None None None None None None None None.

(** [!x] on an optional string: missing or empty. *)
Definition missing (o : option jstring) : bool :=
  match o with Some (_ :: _) => false | _ => true end.

Definition orElse {A} (o : option A) (d : A) : A :=
  match o with Some a => a | None => d end.

(** [app.post('/brands')] *)
Definition createBrand (body : BrandBody) : M Response :=
  if missing (bb_id body) || missing (bb_name body)
  then ret (JsonError 400 "id and name required")
  else
    let id := orElse (bb_id body) [] in
    exists_ <- getBrand id ;;
    match exists_ with
    | Some _ => ret (JsonError 400 "brand id exists")
    | None =>
        let cadence := bb_cadence body in
        let p := orElse (bb_pillars body) [] in
        let w := if truthy (getPropOpt cadence "weekdays")
                    && isArray (getPropOpt cadence "weekdays")
                 then getPropOpt cadence "weekdays"
                 else JArr [JNum 2; JNum 5] in
        let h := orElse (asInteger (getPropOpt cadence "hour")) 10 in
        let m := orElse (asInteger (getPropOpt cadence "minute")) 0 in
        let pl := orElse (bb_platforms body) [str "linkedin"] in
        let st := orElse (bb_settings body) emptySettings in
        insertBrand (Brand.mk id (orElse (bb_name body) [])
                              (orElse (bb_voice body) []) p w h m pl st) ;;;
        ret (Json 200)
    end.

(** [a ?? b] on values: [b] when [a] is [null] or [undefined]. *)
Definition coalesce (a b : JsValue) : JsValue :=
  match a with JUndefined | JNull => b | _ => a end.

(** The [cadence] object [rowToBrand] builds from a row. *)
Definition cadenceObject (b : Brand.row) : JsValue :=
  JObj [("weekdays", Brand.cadence_weekdays b);
        ("hour", JNum (inject_Z (Brand.cadence_hour b)));
        ("minute", JNum (inject_Z (Brand.cadence_minute b)))].

(** [app.patch('/brands/:id')]; the body has no [id] or [name] to apply. *)
Definition patchBrand (i : jstring) (body : BrandBody) : M Response :=
  b <- getBrand i ;;
  match b with
  | None => ret (JsonError 404 "brand not found")
  | Some current =>
      let voice := orElse (bb_voice body) (Brand.voice current) in
      let pillars := orElse (bb_pillars body) (Brand.pillars current) in
      let c := coalesce (bb_cadence body) (cadenceObject current) in
      let cadence_weekdays :=
        coalesce (getPropOpt c "weekdays") (Brand.cadence_weekdays current) in
      let cadence_hour :=
        orElse (asInteger (getPropOpt c "hour")) (Brand.cadence_hour current) in
      let cadence_minute :=
        orElse (asInteger (getPropOpt c "minute")) (Brand.cadence_minute current) in
      let platforms := orElse (bb_platforms body) (Brand.platforms current) in
      let settings := orElse (bb_settings body) (Brand.settings current) in
      updateBrand (Brand.id current)
        (fun r => Brand.mk (Brand.id r) (Brand.name r) voice pillars
                           cadence_weekdays cadence_hour cadence_minute
                           platforms settings) ;;;
      ret (Json 200)
  end.

(** ** DraftComposer: [generatePostsForBrand] (server.js, lines 97-190) *)

(** [s || d] on an optional string: the empty string is falsy. *)
Definition orStr (o : option jstring) (d : jstring) : jstring :=
  match o with Some (c :: r) => c :: r | _ => d end.

Definition defaultTone : list jstring :=
  [str "thoughtful"; str "bold"; str "non-jargony"; str "practical";
   str "values-led"].
Definition defaultCta : CtaStyle :=
  mkCta (str "soft")
        (Some [str "What" ++ [8217%N] ++ str "s your take?";
               str "How are you approaching this in your organisation?";
               str "Contact us if you want to discuss."]).
Definition defaultBans : list jstring :=
  [str "10x"; str "hustle"; str "game-changing"; str "synergy";
   str "paradigm"; str "transformative"; str "cutting-edge"].
Definition defaultFormats : list WeightedItem :=
  [mkItem (str "thought_insight") (str "Thought-provoking insight") (Some 30%Q);
   mkItem (str "news_linked") (str "News-referenced insight") (Some 30%Q);
   mkItem (str "mini_story") (str "Mini story + lesson") (Some 20%Q);
   mkItem (str "myth_truth") (str "Myth vs truth") (Some 5%Q);
   mkItem (str "opinion") (str "Opinion/stance") (Some 5%Q);
   mkItem (str "question") (str "Question to spark comments") (Some 5%Q);
   mkItem (str "announcement") (str "Announcement") (Some 5%Q)].

(** [p.toLowerCase().replace(/[^a-z0-9]+/g,'_')].  Lower-casing is modelled
    on the ASCII letters; other code units are left as they are and so fall
    outside [a-z0-9]. *)
Definition toLower (c : N) : N :=
  if (65 <=? c)%N && (c <=? 90)%N then (c + 32)%N else c.
Definition alnum (c : N) : bool :=
  ((97 <=? c)%N && (c <=? 122)%N) || ((48 <=? c)%N && (c <=? 57)%N).
Fixpoint underscoreRuns (s : jstring) (inRun : bool) : jstring :=
  match s with
  | [] => []
  | c :: r =>
      if alnum c then c :: underscoreRuns r false
      else if inRun then underscoreRuns r true
           else 95%N :: underscoreRuns r true
  end.
Definition pillarKeyOf (p : jstring) : jstring :=
  underscoreRuns (map toLower p) false.

(** [Math.round(x)]: the integer nearest to [x], halves upwards. *)
Definition round (x : Q) : Z := Qfloor (x + (1 # 2)).

Definition pillarsOfBrand (b : Brand.row) : list WeightedItem :=
  let n := Z.of_nat (length (Brand.pillars b)) in
  map (fun p => mkItem (pillarKeyOf p) p
                       (Some (inject_Z (round (100 / inject_Z (Z.max 1 n))))))
      (Brand.pillars b).

(** The brief sent to the generator, as the values the template of lines
    129-155 interpolates. *)
Record Prompt := mkPrompt {
  p_brand : jstring;
  p_tagline : jstring;
  p_pov : jstring;
  p_tone : list jstring;
  p_spelling : jstring;
  p_emoji : jstring;
  p_emdash : bool;                 (* the em-dash prohibition is present *)
  p_bans : list jstring;
  p_hashtags : option (Z * Z * list jstring);  (* [None]: no hashtags *)
  p_cta : jstring * list jstring;
  p_count : Z;
  p_order : list (jstring * jstring)   (* pillar label, format label *)
}.

(** The content of the generator's reply as [JSON.parse] sees it. *)
Inductive Content :=
| NotJSON
| Parsed (obj : JsValue).

Definition Selection : Type := option WeightedItem * option WeightedItem.

(** [x.label] of a selected item; a [TypeError] on [undefined]. *)
Definition labelOf (x : option WeightedItem) : outcome jstring :=
  match x with Some it => Return (label it) | None => Throw "TypeError" end.
Definition keyOf (x : option WeightedItem) : outcome jstring :=
  match x with Some it => Return (key it) | None => Throw "TypeError" end.

Fixpoint orderOf (sels : list Selection) : outcome (list (jstring * jstring)) :=
  match sels with
  | [] => Return []
  | (p, f) :: rest =>
      match labelOf p with
      | Throw e => Throw e
      | Return lp =>
          match labelOf f with
          | Throw e => Throw e
          | Return lf =>
              match orderOf rest with
              | Throw e => Throw e
              | Return o => Return ((lp, lf) :: o)
              end
          end
      end
  end.

(** [(it.text||'').replace(/\u2014/g,'-')]: every em dash (U+2014) becomes a
    hyphen (U+002D). *)
Definition emDash : N := 8212.
Definition hyphen : N := 45.
Definition replaceEmDash (s : jstring) : jstring :=
  map (fun c => if N.eqb c emDash then hyphen else c) s.

Definition draft : jstring := str "draft".
Definition approved : jstring := str "approved".
Definition published : jstring := str "published".
Definition failed : jstring := str "failed".

Record PublishResult := mkResult { ok : bool; url : jstring }.

Record PostPatch := mkPostPatch {
  pp_text : JsValue;               (* as received *)
  pp_status : option jstring;
  pp_scheduledAt : option Z;
  pp_platformTargets : option (list jstring);
  pp_postMeta : option PostMeta
}.

Section Server.

(** The surroundings of the process. *)
Variable zone : JsDate.TimeZone.           (* the local time zone *)
Variable random : nat -> Q.                (* successive [Math.random()] *)
Variable uid : nat -> jstring.             (* successive [uid()] *)
Variable clock : nat -> Z.                 (* successive [new Date()] *)
Variable chat : Prompt -> outcome Content. (* the ContentGenerator *)
Variable publisher : Post.row -> outcome PublishResult.  (* the Publisher *)

(** [Array.from({length:count}).map(()=>({pillar:..., format:...}))];
    [k] counts the draws already made. *)
Fixpoint selections (pillars formats : list WeightedItem) (n k : nat)
  : list Selection :=
  match n with
  | O => []
  | S n' =>
      (pickWeighted pillars (random k), pickWeighted formats (random (S k)))
        :: selections pillars formats n' (S (S k))
  end.

Definition buildPrompt (brand : Brand.row) (count : Z) (sels : list Selection)
  : outcome Prompt :=
  let s := Brand.settings brand in
  let hashtagPolicy := orElse (s_hashtags s) (mkHashtags 0 0 (Some [])) in
  let ctaStyle := orElse (s_ctaStyle s) defaultCta in
  match orderOf sels with
  | Throw e => Throw e
  | Return order =>
      Return (mkPrompt
        (Brand.name brand)
        (orStr (s_tagline s) [])
        (orStr (s_pov s) (str "we"))
        (orElse (s_tone s) defaultTone)
        (orStr (s_spelling s) (str "UK"))
        (orStr (s_emoji s) (str "very_sparing"))
        (match s_emdash s with Some false => true | _ => false end)
        (orElse (s_bans s) defaultBans)
        (if h_max hashtagPolicy =? 0 then None
         else Some (h_min hashtagPolicy, h_max hashtagPolicy,
                    orElse (h_house hashtagPolicy) []))
        (cta_type ctaStyle, orElse (cta_pool ctaStyle) [])
        count order)
  end.

(** Lines 163-169: the items of the reply, [[]] when parsing throws or the
    [posts] field is missing or falsy. *)
Definition itemsOf (res : Content) : JsValue :=
  match res with
  | NotJSON => JArr []
  | Parsed obj =>
      match getProp obj "posts" with
      | Return v => if truthy v then v else JArr []
      | Throw _ => JArr []
      end
  end.

(** [it.k || fallback]; the fallback is evaluated only when needed. *)
Definition propOr (it : JsValue) (k : string) (fallback : outcome JsValue)
  : outcome JsValue :=
  match getProp it k with
  | Throw e => Throw e
  | Return v => if truthy v then Return v else fallback
  end.

(** [selections[i]?.pillar.key] and its siblings. *)
Definition selected (sels : list Selection) (i : nat)
           (part : Selection -> option WeightedItem)
           (field : option WeightedItem -> outcome jstring) : outcome JsValue :=
  match nth_error sels i with
  | None => Return JUndefined
  | Some sel => match field (part sel) with
                | Return s => Return (JStr s)
                | Throw e => Throw e
                end
  end.

(** The text of a draft, line 178. *)
Definition draftText (it : JsValue) : outcome jstring :=
  match getProp it "text" with
  | Throw e => Throw e
  | Return v =>
      if truthy v then
        match v with
        | JStr s => Return (replaceEmDash s)
        | _ => Throw "TypeError"       (* no [replace] method *)
        end
      else Return (replaceEmDash [])
  end.

(** The callback of [items.map], lines 174-187, for item [it] at index [i]. *)
Definition createDraft (brand : Brand.row) (sels : list Selection)
           (times : list Z) (i : nat) (it : JsValue) : M Post.row :=
  text <- lift (draftText it) ;;
  pk <- lift (propOr it "pillarKey" (selected sels i fst keyOf)) ;;
  pl <- lift (propOr it "pillarLabel" (selected sels i fst labelOf)) ;;
  fk <- lift (propOr it "formatKey" (selected sels i snd keyOf)) ;;
  let p := Post.mk (uid i) (Brand.id brand) text draft
                   (Brand.platforms brand)   (* an array is truthy *)
                   (clock (S i)) (nth_error times i) None
                   (mkMeta pk pl fk) in
  insertPost p ;;;
  ret p.

Fixpoint createDrafts (brand : Brand.row) (sels : list Selection)
         (times : list Z) (i : nat) (items : list JsValue)
  : M (list Post.row) :=
  match items with
  | [] => ret []
  | it :: rest =>
      p <- createDraft brand sels times i it ;;
      ps <- createDrafts brand sels times (S i) rest ;;
      ret (p :: ps)
  end.

Definition cadenceOf (b : Brand.row) : Cadence :=
  mkCadence (Brand.cadence_weekdays b) (Some (Brand.cadence_hour b))
            (Some (Brand.cadence_minute b)).

(** Lines 98-155: the brand, the selections and the brief. *)
Definition prepare (brandId : jstring) (count : Z)
  : M (Brand.row * list Selection * Prompt) :=
  br <- getBrand brandId ;;
  match br with
  | None => throw "Brand not found"
  | Some brand =>
      let s := Brand.settings brand in
      let pillars := orElse (s_pillars s) (pillarsOfBrand brand) in
      let formats := orElse (s_formats s) defaultFormats in
      let sels := selections pillars formats (Z.to_nat count) 0 in
      prompt <- lift (buildPrompt brand count sels) ;;
      ret (brand, sels, prompt)
  end.

(** Lines 163-189.  A value of [items] that is not an array has no [map]
    method: whether line 171 or line 174 throws, the call ends in a
    [TypeError] before any insertion. *)
Definition compose (brand : Brand.row) (sels : list Selection)
           (res : Content) : M (list Post.row) :=
  match itemsOf res with
  | JArr items =>
      times <- lift (nextScheduleTimes zone (cadenceOf brand)
                       (Z.max 1 (Z.of_nat (length items))) (clock 0)) ;;
      createDrafts brand sels times 0 items
  | _ => throw "TypeError"
  end.

Definition generatePostsForBrand (brandId : jstring) (count : Z)
  : M (list Post.row) :=
  pre <- prepare brandId count ;;
  let '(brand, sels, prompt) := pre in
  res <- lift (chat prompt) ;;
  compose brand sels res.

(** [publishPost], lines 197-204. *)
Fixpoint publishLoop (post : Post.row) (targets : list jstring)
         (results : list PublishResult) : outcome (list PublishResult) :=
  match targets with
  | [] => Return results
  | platform :: rest =>
      if jstring_eqb platform (str "linkedin") then
        match publisher post with
        | Return r => publishLoop post rest (results ++ [r])
        | Throw e => Throw e
        end
      else publishLoop post rest results
  end.

Definition publishPost (post : Post.row) : outcome (list PublishResult) :=
  publishLoop post (Post.platformTargets post) [].

(** [app.patch('/posts/:id')], lines 282-294. *)
Definition patchPost (i : jstring) (body : PostPatch) : M Response :=
  q <- getPost i ;;
  match q with
  | None => ret (JsonError 404 "not found")
  | Some p =>
      text <- lift (match coalesce (pp_text body) (JStr (Post.text p)) with
                    | JStr s => Return (replaceEmDash s)
                    | _ => Throw "TypeError"   (* no [replace] method *)
                    end) ;;
      let status := orElse (pp_status body) (Post.status p) in
      let scheduledAt :=
        match pp_scheduledAt body with
        | Some t => Some t
        | None => Post.scheduledAt p
        end in
      let platformTargets :=
        orElse (pp_platformTargets body) (Post.platformTargets p) in
      let postMeta := orElse (pp_postMeta body) (Post.postMeta p) in
      updatePost (Post.id p)
        (fun r => Post.mk (Post.id r) (Post.brand r) text status
                          platformTargets (Post.createdAt r) scheduledAt
                          (Post.publishedAt r) postMeta) ;;;
      ret (Json 200)
  end.

(** [app.post('/posts/:id/approve')], lines 296-301. *)
Definition approvePost (i : jstring) : M Response :=
  q <- getPost i ;;
  match q with
  | None => ret (JsonError 404 "not found")
  | Some p =>
      updatePost (Post.id p) (fun r => Post.withStatus r approved) ;;;
      ret (Json 200)
  end.

(** The [try]/[catch] shared by the manual publish (lines 307-314) and the
    sweep (lines 323-331): publish the row read from the table, then mark
    it by id.  [at_] is the instant [iso()] reads. *)
Definition attemptPublish (p : Post.row) (at_ : Z)
  : M (outcome (list PublishResult)) :=
  tryCatch
    (results <- lift (publishPost p) ;;
     updatePost (Post.id p) (fun r => Post.withPublished r published at_) ;;;
     ret (Return results))
    (fun err =>
       updatePost (Post.id p) (fun r => Post.withStatus r failed) ;;;
       ret (Throw err)).

(** [app.post('/posts/:id/publish')], lines 303-315. *)
Definition publishNow (i : jstring) : M Response :=
  q <- getPost i ;;
  match q with
  | None => ret (JsonError 404 "not found")
  | Some p =>
      r <- attemptPublish p (clock 0) ;;
      match r with
      | Return _ => ret (Json 200)
      | Throw e => ret (JsonError 500 e)
      end
  end.

(** The due rows of the sweep's query, line 320. *)
Definition dueQuery (st : Store) : list Post.row :=
  filter (fun p => jstring_eqb (Post.status p) approved
                   && match Post.scheduledAt p with
                      | Some _ => true
                      | None => false
                      end)
         (posts st).

(** The loop of the sweep, lines 321-333, over the rows the query
    returned; [k] counts the rows already visited. *)
Fixpoint sweepLoop (now : Z) (due : list Post.row) (k : nat) : M unit :=
  match due with
  | [] => ret tt
  | p :: rest =>
      (match Post.scheduledAt p with
       | Some t => if t <=? now
                   then attemptPublish p (clock (S k)) ;;; ret tt
                   else ret tt
       | None => ret tt
       end) ;;;
      sweepLoop now rest (S k)
  end.

(** The callback of [cron.schedule], lines 318-334. *)
Definition sweep : M unit :=
  fun st => sweepLoop (clock 0) (dueQuery st) 0 st.

End Server.

(** [publishToLinkedIn] as the source has it, lines 192-195. *)
Definition publishToLinkedIn (post : Post.row) : outcome PublishResult :=
  Return (mkResult true (str "https://www.linkedin.com/feed/update/mock")).

(** ** Listing posts (server.js, lines 263-280) *)

(** [if(brand){ clauses.push('brand=?') ... }]: a filter that is missing or
    the empty string is not applied. *)
Definition passes (filter : option jstring) (column : jstring) : bool :=
  match filter with
  | Some (c :: f) => jstring_eqb column (c :: f)
  | _ => true
  end.

Definition selected_by (brand status : option jstring) (p : Post.row) : bool :=
  passes brand (Post.brand p) && passes status (Post.status p).

(** [ORDER BY createdAt DESC].  The column holds ISO strings, whose order
    is the order of the instants; the order among rows with the same
    [createdAt] is not fixed by the query, and this sort takes one. *)
Fixpoint insertNewestFirst (p : Post.row) (l : list Post.row) : list Post.row :=
  match l with
  | [] => [p]
  | q :: r =>
      if Post.createdAt q <? Post.createdAt p
      then p :: q :: r
      else q :: insertNewestFirst p r
  end.

Definition orderByCreatedAtDesc (l : list Post.row) : list Post.row :=
  fold_right insertNewestFirst [] l.

(** [app.get('/posts')]: the rows sent back. *)
Definition listPosts (brand status : option jstring) (st : Store)
  : list Post.row :=
  orderByCreatedAtDesc (filter (selected_by brand status) (posts st)).

(** ** Predicates of the specification *)

(** The weekday of [t], Monday = 1 .. Sunday = 7, is one of the numbers in
    [elems]. *)
Definition onWeekdayOf (zone : JsDate.TimeZone) (elems : list JsValue)
           (t : Z) : Prop :=
  exists q, In (JNum q) elems /\ (q == inject_Z (isoWeekday zone t))%Q.

(** What the specification asks of a returned timestamp. *)
Definition wellScheduled (zone : JsDate.TimeZone) (c : Cadence)
           (elems : list JsValue) (now t : Z) : Prop :=
  now < t
  /\ onWeekdayOf zone elems t
  /\ JsDate.getHours zone t = nullish (hour c) 10
  /\ JsDate.getMinutes zone t = nullish (minute c) 0
  /\ JsDate.getSeconds zone t = 0
  /\ JsDate.getMilliseconds zone t = 0.

(** A zone without transitions: the offset [tza] at every instant. *)
Definition keepsOffset (zone : JsDate.TimeZone) (tza : Z) : Prop :=
  forall t, JsDate.offsetAt zone t = tza /\ JsDate.offsetOfLocal zone t = tza.

(** The dates of a scan stay within the range of time values, so that none
    is invalid: [now] is within 4e15 ms of the epoch (some 126 000 years),
    the hour and the minute of the cadence are within 1e9 of zero, and the
    offsets of the zone are within a day. *)
Definition withinDateRange (zone : JsDate.TimeZone) (c : Cadence) (now : Z)
  : Prop :=
  Z.abs now <= 4000000000000000
  /\ Z.abs (nullish (hour c) 10) <= 1000000000
  /\ Z.abs (nullish (minute c) 0) <= 1000000000
  /\ forall t, Z.abs (JsDate.offsetAt zone t) <= JsDate.msPerDay
               /\ Z.abs (JsDate.offsetOfLocal zone t) <= JsDate.msPerDay.

(** The cadence invariant of the data model on a stored brand: the weekday
    value is an array of numbers in 1..7, the hour is in 0..23 and the
    minute in 0..59. *)
Definition isWeekdayNumber (v : JsValue) : bool :=
  existsb (fun d => isNumber d v) [1; 2; 3; 4; 5; 6; 7].

Definition cadenceInvariant (b : Brand.row) : bool :=
  match Brand.cadence_weekdays b with
  | JArr elems => forallb isWeekdayNumber elems
  | _ => false
  end
  && (0 <=? Brand.cadence_hour b) && (Brand.cadence_hour b <=? 23)
  && (0 <=? Brand.cadence_minute b) && (Brand.cadence_minute b <=? 59).

(** The text a generator item carries: its [text] property when that is a
    string, the empty string otherwise. *)
Definition itemText (it : JsValue) : jstring :=
  match getPropOpt it "text" with JStr s => s | _ => [] end.

(** [t] is [s] with every em dash turned into a hyphen: as long as [s],
    with a hyphen wherever [s] has an em dash and the code unit of [s]
    everywhere else. *)
Definition hyphenated (s t : jstring) : Prop :=
  length t = length s
  /\ forall k c, nth_error s k = Some c ->
                 nth_error t k = Some (if N.eqb c emDash then hyphen else c).

(** Well-formed UTF-16: every surrogate code unit is part of a pair, a high
    surrogate (D800..DBFF) followed by a low one (DC00..DFFF).  These are
    the strings that the text columns of the database, kept in UTF-8, give
    back as they were stored. *)
Definition isHighSurrogate (c : N) : bool := (55296 <=? c)%N && (c <=? 56319)%N.
Definition isLowSurrogate (c : N) : bool := (56320 <=? c)%N && (c <=? 57343)%N.
Fixpoint wellFormed (s : jstring) : bool :=
  match s with
  | [] => true
  | c :: r =>
      if isHighSurrogate c then
        match r with
        | d :: r' => isLowSurrogate d && wellFormed r'
        | [] => false
        end
      else negb (isLowSurrogate c) && wellFormed r
  end.

(** An item that the callback of lines 174-187 can read its text from: not
    [null] or [undefined], with a [text] that is a string or falsy. *)
Definition hasDraftText (it : JsValue) : bool :=
  match it with
  | JUndefined | JNull => false
  | _ => match getPropOpt it "text" with
         | JStr _ => true
         | v => negb (truthy v)
         end
  end.

(** A weekday value on which [includes] can be called: falsy (replaced by
    [[]]), an array or a string. *)
Definition canInclude (w : JsValue) : bool :=
  negb (truthy w)
  || match w with JArr _ | JStr _ => true | _ => false end.

(** The reply has no [posts] field to read. *)
Definition lacksPosts (obj : JsValue) : Prop :=
  getPropOpt obj "posts" = JUndefined.

(** The targets of a post for which [publishPost] calls the Publisher. *)
Definition linkedinTargets (p : Post.row) : list jstring :=
  filter (fun t => jstring_eqb t (str "linkedin")) (Post.platformTargets p).

(** The rows of the sweep's query whose time has come. *)
Definition dueNow (now : Z) (due : list Post.row) : list Post.row :=
  filter (fun p => match Post.scheduledAt p with
                   | Some t => t <=? now
                   | None => false
                   end) due.

(** The integers [i], [i+1], ..., [i+n-1]. *)
Fixpoint seqZ (i : Z) (n : nat) : list Z :=
  match n with
  | O => []
  | S n' => i :: seqZ (i + 1) n'
  end.

(** The date the loop of [nextScheduleTimes] builds for day [i]: [now] moved
    by [i] days, and the timestamp it would push for that day. *)
Definition scannedDate (zone : JsDate.TimeZone) (now i : Z) : Z :=
  JsDate.setDate zone now (JsDate.getDate zone now + i).
Definition scannedTime (zone : JsDate.TimeZone) (c : Cadence) (now i : Z) : Z :=
  JsDate.setHours zone (scannedDate zone now i)
                  (nullish (hour c) 10) (nullish (minute c) 0) 0 0.

(** Day [i] qualifies: its weekday is listed and its timestamp is after
    [now]. *)
Definition qualifies (zone : JsDate.TimeZone) (c : Cadence) (now i : Z)
  : bool :=
  match includes (weekdays c) (isoWeekday zone (scannedDate zone now i)) with
  | Return b => b && (scannedTime zone c now i >? now)
  | Throw _ => false
  end.

(** The timestamps of the qualifying days of the 30-day window, in order. *)
Definition candidates (zone : JsDate.TimeZone) (c : Cadence) (now : Z)
  : list Z :=
  map (scannedTime zone c now) (filter (qualifies zone c now) (seqZ 0 30)).

(** A weekday value on which [includes] throws: truthy, and neither an array
    nor a string. *)
Definition noIncludes (w : JsValue) : bool :=
  truthy w && negb (match w with JArr _ | JStr _ => true | _ => false end).

(** The sum of the weights as [(it.weight||0)] reads them. *)
Definition sumWeights (items : list WeightedItem) : Q :=
  fold_right (fun it s => (weightOr0 it + s)%Q) 0%Q items.

(** The pillar and format lists [generatePostsForBrand] draws from (lines
    113-122). *)
Definition effectivePillars (b : Brand.row) : list WeightedItem :=
  orElse (s_pillars (Brand.settings b)) (pillarsOfBrand b).
Definition effectiveFormats (b : Brand.row) : list WeightedItem :=
  orElse (s_formats (Brand.settings b)) defaultFormats.

(** A selection made of an item of each list. *)
Definition selectionFrom (pillars formats : list WeightedItem)
           (sel : Selection) : Prop :=
  exists p f, sel = (Some p, Some f) /\ In p pillars /\ In f formats.

(** The due-check of the sweep on one post: approved, with a scheduled time
    that is not after [now] (lines 320 and 322). *)
Definition isDue (now : Z) (p : Post.row) : bool :=
  jstring_eqb (Post.status p) approved
  && match Post.scheduledAt p with
     | Some t => t <=? now
     | None => false
     end.

(** Two rows that differ at most in [status] and [publishedAt]. *)
Definition sameContent (p p' : Post.row) : Prop :=
  Post.id p' = Post.id p
  /\ Post.brand p' = Post.brand p
  /\ Post.text p' = Post.text p
  /\ Post.platformTargets p' = Post.platformTargets p
  /\ Post.createdAt p' = Post.createdAt p
  /\ Post.scheduledAt p' = Post.scheduledAt p
  /\ Post.postMeta p' = Post.postMeta p.

(** One request handled, or one tick of the scheduler: the store before and
    after, for any request and any behaviour of the surroundings. *)
Inductive handled : Store -> Store -> Prop :=
| handled_createBrand (body : BrandBody) (st : Store) :
    handled st (snd (createBrand body st))
| handled_patchBrand (i : jstring) (body : BrandBody) (st : Store) :
    handled st (snd (patchBrand i body st))
| handled_generate (zone : JsDate.TimeZone) (random : nat -> Q)
                   (uid : nat -> jstring) (clock : nat -> Z)
                   (chat : Prompt -> outcome Content)
                   (brandId : jstring) (count : Z) (st : Store) :
    handled st
            (snd (generatePostsForBrand zone random uid clock chat brandId
                                        count st))
| handled_patchPost (i : jstring) (body : PostPatch) (st : Store) :
    handled st (snd (patchPost i body st))
| handled_approve (i : jstring) (st : Store) :
    handled st (snd (approvePost i st))
| handled_publish (clock : nat -> Z)
                  (publisher : Post.row -> outcome PublishResult)
                  (i : jstring) (st : Store) :
    handled st (snd (publishNow clock publisher i st))
| handled_sweep (clock : nat -> Z)
                (publisher : Post.row -> outcome PublishResult) (st : Store) :
    handled st (snd (sweep clock publisher st)).

(** The stores the server can be in, starting from empty tables. *)
Inductive reachable : Store -> Prop :=
| reachable_empty : reachable (mkStore [] [])
| reachable_step (st st' : Store) :
    reachable st -> handled st st' -> reachable st'.

(** Ids are unique in both tables, no stored text contains an em dash, and
    every post belongs to a stored brand. *)
Definition storeInvariant (st : Store) : Prop :=
  NoDup (map Brand.id (brands st))
  /\ NoDup (map Post.id (posts st))
  /\ Forall (fun p => ~ In emDash (Post.text p)
                      /\ In (Post.brand p) (map Brand.id (brands st)))
            (posts st).

(** A list of posts from the newest to the oldest. *)
Definition newestFirst (l : list Post.row) : Prop :=
  StronglySorted (fun p q => Post.createdAt q <= Post.createdAt p) l.

(** ** A small world to run the handlers in *)

Module Demo.

(** Monday 1 January 2024, 09:00 UTC. *)
Definition monday9 : Z := 1704099600000.

Definition acme : Brand.row :=
  Brand.mk (str "acme") (str "Acme") (str "plain") [str "Culture"]
           (JArr [JNum 2; JNum 5]) 10 0 [str "linkedin"] emptySettings.

Definition store : Store := mkStore [acme] [].

Definition random (k : nat) : Q := 1 # 2.
Definition uid (k : nat) : jstring := str "post" ++ [(48 + N.of_nat k)%N].
Definition clock (k : nat) : Z := monday9.

(** A generator that is unreachable, one that replies with text that is
    not JSON, one whose reply has no [posts], and one that replies with
    two items, the first with an em dash in its text. *)
Definition chatDown (p : Prompt) : outcome Content := Throw "network".
Definition chatProse (p : Prompt) : outcome Content := Return NotJSON.
Definition chatNoPosts (p : Prompt) : outcome Content :=
  Return (Parsed (JObj [("items", JArr [])])).
Definition chatTwo (p : Prompt) : outcome Content :=
  Return (Parsed (JObj [("posts",
    JArr [JObj [("text", JStr (str "Teams" ++ [emDash] ++ str "not tools"))];
          JObj [("text", JStr (str "Ask first"))]])])).

(** Publishers: one that reports failure without throwing, one that
    throws. *)
Definition publisherNotOk (p : Post.row) : outcome PublishResult :=
  Return (mkResult false []).
Definition publisherThrows (p : Post.row) : outcome PublishResult :=
  Throw "Error".

Definition post (status : jstring) (targets : list jstring) : Post.row :=
  Post.mk (str "p1") (str "acme") (str "Hello") status targets
          monday9 (Some monday9) None
          (mkMeta JUndefined JUndefined JUndefined).

Definition storeWith (p : Post.row) : Store := mkStore [acme] [p].

(** New York in 2024: UTC-5 until 10 March, 07:00 UTC, then UTC-4 until
    3 November, 06:00 UTC.  A local time that a transition skips or repeats
    is read by the offset before the transition. *)
Definition newYork : JsDate.TimeZone :=
  JsDate.mkZone
    (fun t => if (t <? 1710054000000) || (1730613600000 <=? t)
              then -18000000 else -14400000)
    (fun t => if (t <? 1710039600000) || (1730599200000 <=? t)
              then -18000000 else -14400000).

(** The registration of 'acme' and a partial update that sets its weekday
    value to the number 5. *)
Definition registerAcme : BrandBody :=
  mkBrandBody (Some (str "acme")) (Some (str "Acme")) None
              (Some [str "Culture"]) JUndefined None None.
Definition weekdaysFive : BrandBody :=
  mkBrandBody None None None None (JObj [("weekdays", JNum 5)]) None None.
Definition storeFive : Store :=
  snd (patchBrand (str "acme") weekdaysFive
         (snd (createBrand registerAcme (mkStore [] [])))).
Definition acmeFive : Brand.row :=
  Brand.mk (str "acme") (str "Acme") [] [str "Culture"] (JNum 5) 10 0
           [str "linkedin"] emptySettings.

End Demo.

(** The run of [generatePostsForBrand] in that world for the brand 'acme',
    two posts asked, the generator replying with two items. *)
Module DemoRun.

Definition sels : list Selection :=
  selections Demo.random (effectivePillars Demo.acme)
             (effectiveFormats Demo.acme) 2 0.

Definition prompt : Prompt :=
  match buildPrompt Demo.acme 2 sels with
  | Return p => p
  | Throw _ => mkPrompt [] [] [] [] [] [] false [] None ([], []) 0 []
  end.

Definition pre : Brand.row * list Selection * Prompt :=
  (Demo.acme, sels, prompt).

(** The same, for the brand whose weekday value is the number 5. *)
Definition preFive : Brand.row * list Selection * Prompt :=
  (Demo.acmeFive, sels, prompt).

Definition items : list JsValue :=
  [JObj [("text", JStr (str "Teams" ++ [emDash] ++ str "not tools"))];
   JObj [("text", JStr (str "Ask first"))]].

(** Tuesday 2 and Friday 5 January 2024, 10:00 UTC. *)
Definition times : list Z := [1704189600000; 1704448800000].

End DemoRun.

(** * Properties *)

(** ** CadencePlanner *)

(** In the zone that keeps an offset, the offset is read off. *)
Ltac fixed_offset :=
  cbn [JsDate.offsetAt JsDate.offsetOfLocal JsDate.fixed] in *.

Section CadencePlannerFacts.

Import JsDate.

Variable tza : Z.

(** The local time [setHours] leaves, for any hour and minute. *)
Lemma setHours_local (d h m : Z) :
  LocalTime tza (setHours tza d h m 0 0)
  = Day (LocalTime tza d) * msPerDay + h * msPerHour + m * msPerMinute.
Proof.
  unfold setHours, UTC, LocalTime, MakeDate, MakeTime, msPerSecond.
  fixed_offset. lia.
Qed.

(** An in-range time of day stays on the day it is set on. *)
Lemma setHours_same_day (d h m : Z) :
  0 <= h <= 23 -> 0 <= m <= 59 ->
  Day (LocalTime tza (setHours tza d h m 0 0)) = Day (LocalTime tza d).
Proof.
  intros Hh Hm. rewrite setHours_local.
  unfold Day, msPerDay, msPerHour, msPerMinute.
  symmetry. apply Z.div_unique with (r := h * 3600000 + m * 60000); lia.
Qed.

Lemma setHours_getDay (d h m : Z) :
  0 <= h <= 23 -> 0 <= m <= 59 ->
  getDay tza (setHours tza d h m 0 0) = getDay tza d.
Proof.
  intros Hh Hm. unfold getDay, WeekDay.
  now rewrite setHours_same_day.
Qed.

Lemma setHours_getHours (d h m : Z) :
  0 <= h <= 23 -> 0 <= m <= 59 ->
  getHours tza (setHours tza d h m 0 0) = h.
Proof.
  intros Hh Hm. unfold getHours, HourFromTime. rewrite setHours_local.
  unfold msPerDay, msPerHour, msPerMinute.
  replace ((Day (LocalTime tza d) * 86400000 + h * 3600000 + m * 60000)
             / 3600000)
    with (Day (LocalTime tza d) * 24 + h).
  - rewrite Z.add_comm, Z.mod_add by lia. apply Z.mod_small; lia.
  - apply Z.div_unique with (r := m * 60000); lia.
Qed.

Lemma setHours_getMinutes (d h m : Z) :
  0 <= m <= 59 ->
  getMinutes tza (setHours tza d h m 0 0) = m.
Proof.
  intros Hm. unfold getMinutes, MinFromTime. rewrite setHours_local.
  unfold msPerDay, msPerHour, msPerMinute.
  replace ((Day (LocalTime tza d) * 86400000 + h * 3600000 + m * 60000)
             / 60000)
    with ((Day (LocalTime tza d) * 24 + h) * 60 + m).
  - rewrite Z.add_comm, Z.mod_add by lia. apply Z.mod_small; lia.
  - apply Z.div_unique with (r := 0); lia.
Qed.

Lemma setHours_getSeconds (d h m : Z) :
  getSeconds tza (setHours tza d h m 0 0) = 0.
Proof.
  unfold getSeconds, SecFromTime. rewrite setHours_local.
  unfold msPerDay, msPerHour, msPerMinute, msPerSecond.
  replace ((Day (LocalTime tza d) * 86400000 + h * 3600000 + m * 60000)
             / 1000)
    with ((Day (LocalTime tza d) * 1440 + h * 60 + m) * 60).
  - apply Z.mod_mul; lia.
  - apply Z.div_unique with (r := 0); lia.
Qed.

Lemma setHours_getMilliseconds (d h m : Z) :
  getMilliseconds tza (setHours tza d h m 0 0) = 0.
Proof.
  unfold getMilliseconds, msFromTime. rewrite setHours_local.
  unfold msPerDay, msPerHour, msPerMinute, msPerSecond.
  replace (Day (LocalTime tza d) * 86400000 + h * 3600000 + m * 60000)
    with ((Day (LocalTime tza d) * 86400 + h * 3600 + m * 60) * 1000) by lia.
  apply Z.mod_mul; lia.
Qed.

(** [setDate(getDate()+i)] moves a date by [i] whole days. *)
Lemma setDate_getDate (now i : Z) :
  setDate tza now (getDate tza now + i) = now + i * msPerDay.
Proof.
  unfold setDate, getDate, UTC, MakeDate, TimeWithinDay, Day.
  pose proof (Z.div_mod (LocalTime tza now) msPerDay) as H.
  unfold LocalTime in *. fixed_offset. unfold msPerDay in *. lia.
Qed.

End CadencePlannerFacts.

Section NextScheduleTimesFacts.

Import JsDate.

Variable tza : Z.
Variable c : Cadence.
Variable count now : Z.
Variable elems : list JsValue.

Hypothesis weekdays_array : weekdays c = JArr elems.
Hypothesis hour_range : 0 <= nullish (hour c) 10 <= 23.
Hypothesis minute_range : 0 <= nullish (minute c) 0 <= 59.

Lemma includes_array (wd : Z) :
  includes (weekdays c) wd = Return (existsb (isNumber wd) elems).
Proof. rewrite weekdays_array. reflexivity. Qed.

Lemma isNumber_In (wd : Z) :
  existsb (isNumber wd) elems = true ->
  exists q, In (JNum q) elems /\ (q == inject_Z wd)%Q.
Proof.
  intros H. apply existsb_exists in H. destruct H as [v [Hin Hv]].
  destruct v; simpl in Hv; try discriminate.
  exists q. split; [exact Hin | now apply Qeq_bool_iff].
Qed.

Lemma scanDay_ok (i : Z) (times : list Z) :
  Forall (wellScheduled tza c elems now) times ->
  exists times',
    scanDay tza c now i times = Return times'
    /\ Forall (wellScheduled tza c elems now) times'
    /\ (length times' <= S (length times))%nat.
Proof.
  intros Hall. unfold scanDay. rewrite includes_array.
  set (d := setDate tza now (getDate tza now + i)).
  destruct (existsb _ elems) eqn:Hinc.
  - set (d' := setHours tza d (nullish (hour c) 10) (nullish (minute c) 0) 0 0).
    destruct (d' >? now) eqn:Hgt.
    + eexists. split; [reflexivity|]. split.
      * apply Forall_app. split; [exact Hall|].
        constructor; [|constructor].
        unfold wellScheduled, onWeekdayOf, isoWeekday. subst d'.
        rewrite setHours_getDay, setHours_getHours, setHours_getMinutes,
          setHours_getSeconds, setHours_getMilliseconds by assumption.
        repeat split; try reflexivity.
        -- apply Z.gtb_lt in Hgt. exact Hgt.
        -- apply isNumber_In. exact Hinc.
      * rewrite length_app. simpl. lia.
    + eexists. split; [reflexivity|]. split; [exact Hall | lia].
  - eexists. split; [reflexivity|]. split; [exact Hall | lia].
Qed.

Lemma scan_ok (fuel : nat) :
  forall (i : Z) (times : list Z),
    Forall (wellScheduled tza c elems now) times ->
    Z.of_nat (length times) <= Z.max 0 count ->
    exists ts,
      scan tza c count now fuel i times = Return ts
      /\ Forall (wellScheduled tza c elems now) ts
      /\ Z.of_nat (length ts) <= Z.max 0 count.
Proof.
  induction fuel as [|fuel IH]; intros i times Hall Hlen; simpl.
  - exists times. auto.
  - destruct ((i <? 30) && (Z.of_nat (length times) <? count)) eqn:Hguard.
    + apply andb_true_iff in Hguard. destruct Hguard as [_ Hlt].
      apply Z.ltb_lt in Hlt.
      destruct (scanDay_ok i times Hall) as [times' [Heq [Hall' Hlen']]].
      rewrite Heq. apply IH; [exact Hall' | lia].
    + exists times. auto.
Qed.

End NextScheduleTimesFacts.

(** In a zone that keeps one offset the [Date] methods, and with them the
    scan, are those of that offset. *)
Section KeepsOffset.

Import JsDate.

Variable zone : TimeZone.
Variable tza : Z.

Hypothesis keeps : keepsOffset zone tza.

Lemma LocalTime_keeps (t : Z) : LocalTime zone t = LocalTime tza t.
Proof. unfold LocalTime. fixed_offset. now rewrite (proj1 (keeps t)). Qed.

Lemma UTC_keeps (t : Z) : UTC zone t = UTC tza t.
Proof. unfold UTC. fixed_offset. now rewrite (proj2 (keeps t)). Qed.

Lemma getDay_keeps (d : Z) : getDay zone d = getDay tza d.
Proof. unfold getDay. now rewrite LocalTime_keeps. Qed.

Lemma getDate_keeps (d : Z) : getDate zone d = getDate tza d.
Proof. unfold getDate. now rewrite LocalTime_keeps. Qed.

Lemma getHours_keeps (d : Z) : getHours zone d = getHours tza d.
Proof. unfold getHours. now rewrite LocalTime_keeps. Qed.

Lemma getMinutes_keeps (d : Z) : getMinutes zone d = getMinutes tza d.
Proof. unfold getMinutes. now rewrite LocalTime_keeps. Qed.

Lemma getSeconds_keeps (d : Z) : getSeconds zone d = getSeconds tza d.
Proof. unfold getSeconds. now rewrite LocalTime_keeps. Qed.

Lemma getMilliseconds_keeps (d : Z) :
  getMilliseconds zone d = getMilliseconds tza d.
Proof. unfold getMilliseconds. now rewrite LocalTime_keeps. Qed.

Lemma setDate_keeps (d dt : Z) : setDate zone d dt = setDate tza d dt.
Proof. unfold setDate. now rewrite LocalTime_keeps, UTC_keeps. Qed.

Lemma setHours_keeps (d h m sec ms : Z) :
  setHours zone d h m sec ms = setHours tza d h m sec ms.
Proof. unfold setHours. now rewrite LocalTime_keeps, UTC_keeps. Qed.

Lemma isoWeekday_keeps (d : Z) : isoWeekday zone d = isoWeekday tza d.
Proof. unfold isoWeekday. now rewrite getDay_keeps. Qed.

Lemma scanDay_keeps (c : Cadence) (now i : Z) (times : list Z) :
  scanDay zone c now i times = scanDay tza c now i times.
Proof.
  unfold scanDay.
  now rewrite getDate_keeps, setDate_keeps, getDay_keeps, setHours_keeps.
Qed.

Lemma scan_keeps (c : Cadence) (count now : Z) (fuel : nat) :
  forall i times,
    scan zone c count now fuel i times = scan tza c count now fuel i times.
Proof.
  induction fuel as [|fuel IH]; intros i times; simpl; [reflexivity|].
  rewrite scanDay_keeps.
  destruct ((i <? 30) && _); [|reflexivity].
  destruct (scanDay tza c now i times); [apply IH | reflexivity].
Qed.

Lemma nextScheduleTimes_keeps (c : Cadence) (count now : Z) :
  nextScheduleTimes zone c count now = nextScheduleTimes tza c count now.
Proof. apply scan_keeps. Qed.

Lemma wellScheduled_keeps (c : Cadence) (elems : list JsValue) (now t : Z) :
  wellScheduled tza c elems now t -> wellScheduled zone c elems now t.
Proof.
  unfold wellScheduled, onWeekdayOf.
  now rewrite isoWeekday_keeps, getHours_keeps, getMinutes_keeps,
    getSeconds_keeps, getMilliseconds_keeps.
Qed.

End KeepsOffset.

Lemma keepsOffset_fixed (tza : Z) : keepsOffset tza tza.
Proof. intros t. split; reflexivity. Qed.

(** In any zone, on a weekday array, the scan returns, with timestamps
    after [now] only and no more of them than asked for. *)
Section ScanAnyZone.

Variable zone : JsDate.TimeZone.
Variable c : Cadence.
Variable count now : Z.
Variable elems : list JsValue.

Hypothesis weekdays_array : weekdays c = JArr elems.

Lemma scanDay_after_now (i : Z) (times : list Z) :
  Forall (fun t => now < t) times ->
  exists times',
    scanDay zone c now i times = Return times'
    /\ Forall (fun t => now < t) times'
    /\ (length times' <= S (length times))%nat.
Proof.
  intros Hall. unfold scanDay. rewrite weekdays_array. cbn [includes truthy].
  destruct (existsb _ elems).
  - match goal with |- context [?d >? now] => destruct (d >? now) eqn:Hgt end.
    + eexists. split; [reflexivity|]. split.
      * apply Forall_app. split; [exact Hall|].
        constructor; [|constructor]. now apply Z.gtb_lt in Hgt.
      * rewrite length_app. simpl. lia.
    + eexists. split; [reflexivity|]. split; [exact Hall | lia].
  - eexists. split; [reflexivity|]. split; [exact Hall | lia].
Qed.

Lemma scan_after_now (fuel : nat) :
  forall (i : Z) (times : list Z),
    Forall (fun t => now < t) times ->
    Z.of_nat (length times) <= Z.max 0 count ->
    exists ts,
      scan zone c count now fuel i times = Return ts
      /\ Forall (fun t => now < t) ts
      /\ Z.of_nat (length ts) <= Z.max 0 count.
Proof.
  induction fuel as [|fuel IH]; intros i times Hall Hlen; simpl.
  - exists times. auto.
  - destruct ((i <? 30) && (Z.of_nat (length times) <? count)) eqn:Hguard.
    + apply andb_true_iff in Hguard. destruct Hguard as [_ Hlt].
      apply Z.ltb_lt in Hlt.
      destruct (scanDay_after_now i times Hall) as [times' [Heq [Hall' Hlen']]].
      rewrite Heq. apply IH; [exact Hall' | lia].
    + exists times. auto.
Qed.

End ScanAnyZone.

(** The Monday = 1 .. Sunday = 7 convention on known dates: 1 January 1970
    was a Thursday, 1 January 2024 a Monday, 7 January 2024 a Sunday. *)
Example isoWeekday_epoch : isoWeekday 0 0 = 4.
Proof. reflexivity. Qed.
Example isoWeekday_monday : isoWeekday 0 (19723 * JsDate.msPerDay) = 1.
Proof. reflexivity. Qed.
Example isoWeekday_sunday : isoWeekday 0 (19729 * JsDate.msPerDay) = 7.
Proof. reflexivity. Qed.

(** The scenario of the specification: weekdays {2,5} at 10:00, asked on a
    Monday at 09:00 for two times, gives the Tuesday and the Friday of that
    week at 10:00 (here the week of 1 January 2024, UTC). *)
Example nextScheduleTimes_tue_fri :
  nextScheduleTimes 0 (mkCadence (JArr [JNum 2; JNum 5]) (Some 10) (Some 0)) 2
                    (19723 * JsDate.msPerDay + 9 * JsDate.msPerHour)
  = Return [19724 * JsDate.msPerDay + 10 * JsDate.msPerHour;
            19727 * JsDate.msPerDay + 10 * JsDate.msPerHour].
Proof. vm_compute. reflexivity. Qed.




(** Where the zone has a transition, the time of day can differ from the
    cadence's.  In New York, a cadence on Sundays at 02:30, asked on
    Saturday 9 March 2024 at noon: on Sunday 10 March the clocks go from
    02:00 to 03:00, and the timestamp returned is 07:30 UTC, which is 03:30
    local time. *)
Example nextScheduleTimes_spring_forward :
  nextScheduleTimes Demo.newYork
                    (mkCadence (JArr [JNum 7]) (Some 2) (Some 30)) 1
                    1710003600000
  = Return [1710055800000]
  /\ isoWeekday Demo.newYork 1710055800000 = 7
  /\ JsDate.getHours Demo.newYork 1710055800000 = 3
  /\ JsDate.getMinutes Demo.newYork 1710055800000 = 30.
Proof. vm_compute. repeat split; reflexivity. Qed.

(** A count below zero gives the empty sequence. *)
Lemma nextScheduleTimes_negative_count (tza : Z) (c : Cadence) (count now : Z) :
  count <= 0 -> nextScheduleTimes tza c count now = Return [].
Proof.
  intros H. unfold nextScheduleTimes. simpl.
  destruct (0 <? count) eqn:E; [apply Z.ltb_lt in E; lia | reflexivity].
Qed.

(** ** WeightedSelector *)

Section PickWeightedFacts.

Local Open Scope Q_scope.

Lemma weightOr0_nonneg_eq (it : WeightedItem) (w : Q) :
  weight it = Some w -> weightOr0 it == w.
Proof.
  intros H. unfold weightOr0. rewrite H.
  destruct (Qeq_bool w 0) eqn:E; [|reflexivity].
  apply Qeq_bool_iff in E. now rewrite E.
Qed.

(** The sum of line 91 over a list whose only non-zero weight is [a]'s. *)
Lemma total_single (zs1 zs2 : list WeightedItem) (a : WeightedItem) :
  Forall (fun it => weightOr0 it == 0) zs1 ->
  Forall (fun it => weightOr0 it == 0) zs2 ->
  forall acc,
    fold_left (fun x b => x + weightOr0 b) (zs1 ++ a :: zs2) acc
    == acc + weightOr0 a.
Proof.
  intros H1 H2. induction H1 as [|z zs1 Hz _ IH]; intros acc; simpl.
  - generalize (acc + weightOr0 a). clear acc.
    induction H2 as [|z zs2 Hz _ IH]; intros acc; simpl.
    + reflexivity.
    + transitivity (acc + weightOr0 z); [apply IH | lra].
  - transitivity (acc + weightOr0 z + weightOr0 a); [apply IH | lra].
Qed.

(** A positive remainder walks past zero weights and stops at [a]. *)
Lemma walk_single (zs1 zs2 : list WeightedItem) (a : WeightedItem) :
  Forall (fun it => weightOr0 it == 0) zs1 ->
  forall n, 0 < n -> n <= weightOr0 a ->
  walk (zs1 ++ a :: zs2) n = Some a.
Proof.
  intros H1. induction H1 as [|z zs1 Hz _ IH]; intros n Hpos Hle; simpl.
  - destruct (Qle_bool (n - weightOr0 a) 0) eqn:E; [reflexivity|].
    assert (Qle_bool (n - weightOr0 a) 0 = true) as E'
        by (apply Qle_bool_iff; lra).
    congruence.
  - destruct (Qle_bool (n - weightOr0 z) 0) eqn:E.
    + apply Qle_bool_iff in E. lra.
    + apply IH; lra.
Qed.

(** When the positive-weight item comes first, draw 0 selects it too. *)
Lemma walk_head (rest : list WeightedItem) (a : WeightedItem) :
  forall n, n <= weightOr0 a -> walk (a :: rest) n = Some a.
Proof.
  intros n Hle. simpl.
  destruct (Qle_bool (n - weightOr0 a) 0) eqn:E; [reflexivity|].
  assert (Qle_bool (n - weightOr0 a) 0 = true) as E'
      by (apply Qle_bool_iff; lra).
  congruence.
Qed.

(** For a list whose only positive weight is [a]'s, every draw strictly
    between 0 and the total selects [a]. *)
Lemma pickWeighted_single_positive
      (zs1 zs2 : list WeightedItem) (a : WeightedItem) (random : Q) :
  Forall (fun it => weightOr0 it == 0) zs1 ->
  Forall (fun it => weightOr0 it == 0) zs2 ->
  0 < weightOr0 a ->
  0 < random -> random < 1 ->
  pickWeighted (zs1 ++ a :: zs2) random = Some a.
Proof.
  intros H1 H2 Ha Hr0 Hr1. unfold pickWeighted.
  pose proof (total_single zs1 zs2 a H1 H2 0) as Hsum.
  set (sum := fold_left _ _ _) in *.
  assert (sum == weightOr0 a) as Hs by (rewrite Hsum; lra).
  destruct (Qeq_bool sum 0) eqn:E.
  - apply Qeq_bool_iff in E. lra.
  - rewrite walk_single; auto.
    + apply Qmult_lt_0_compat; lra.
    + rewrite <- Hs. setoid_replace sum with (1 * sum) at 2 by ring.
      apply Qmult_le_compat_r; lra.
Qed.

(** The same for every draw in [0, 1) when [a] is the first item. *)
Lemma pickWeighted_single_positive_first
      (zs2 : list WeightedItem) (a : WeightedItem) (random : Q) :
  Forall (fun it => weightOr0 it == 0) zs2 ->
  0 < weightOr0 a ->
  0 <= random -> random < 1 ->
  pickWeighted (a :: zs2) random = Some a.
Proof.
  intros H2 Ha Hr0 Hr1. unfold pickWeighted.
  pose proof (total_single [] zs2 a (Forall_nil _) H2 0) as Hsum.
  simpl app in Hsum.
  set (sum := fold_left _ _ _) in *.
  assert (sum == weightOr0 a) as Hs by (rewrite Hsum; lra).
  destruct (Qeq_bool sum 0) eqn:E.
  - apply Qeq_bool_iff in E. lra.
  - rewrite walk_head; auto.
    rewrite <- Hs. setoid_replace sum with (1 * sum) at 2 by ring.
    apply Qmult_le_compat_r; lra.
Qed.

End PickWeightedFacts.

(** C4, at the input where it fails: with a zero-weight item ahead of the
    only positive-weight item and the draw [Math.random() = 0] (so the draw
    0 of [0, total)), [pickWeighted] returns the zero-weight item: the test
    [n<=0] of line 93 already holds before any weight is subtracted. *)
Theorem pickWeighted_zero_draw :
  pickWeighted [mkItem (str "b") (str "b") (Some 0%Q);
                mkItem (str "a") (str "a") (Some 100%Q)] 0%Q
  = Some (mkItem (str "b") (str "b") (Some 0%Q)).
Proof. vm_compute. reflexivity. Qed.

(** The scenario of the specification with the positive weight first. *)
Example pickWeighted_a_first :
  pickWeighted [mkItem (str "a") (str "a") (Some 100%Q);
                mkItem (str "b") (str "b") (Some 0%Q)] 0%Q
  = Some (mkItem (str "a") (str "a") (Some 100%Q)).
Proof. vm_compute. reflexivity. Qed.

(** ** Strings and keyed tables *)

Lemma jstring_eqb_eq (a b : jstring) : jstring_eqb a b = true <-> a = b.
Proof.
  revert b. induction a as [|x a IH]; intros [|y b]; simpl;
    try (split; [discriminate | discriminate]); try tauto.
  rewrite andb_true_iff, N.eqb_eq, IH. split.
  - intros [-> ->]. reflexivity.
  - intros H. injection H as -> ->. auto.
Qed.

Lemma jstring_eqb_refl (a : jstring) : jstring_eqb a a = true.
Proof. now apply jstring_eqb_eq. Qed.

Lemma jstring_eqb_neq (a b : jstring) : jstring_eqb a b = false <-> a <> b.
Proof.
  split.
  - intros H E. apply jstring_eqb_eq in E. congruence.
  - intros H. destruct (jstring_eqb a b) eqn:E; [|reflexivity].
    apply jstring_eqb_eq in E. contradiction.
Qed.

Section KeyedTableFacts.

Variable A : Type.
Variable key : A -> jstring.
Variable f : A -> A.
Hypothesis f_keeps_key : forall a, key (f a) = key a.

(** [UPDATE ... WHERE id=i] followed by [SELECT ... WHERE id=i]. *)
Lemma find_updateWhere_same (i : jstring) (l : list A) :
  find (hasKey key i) (updateWhere key i f l)
  = option_map f (find (hasKey key i) l).
Proof.
  induction l as [|a l IH]; simpl; [reflexivity|].
  unfold hasKey in *. destruct (jstring_eqb (key a) i) eqn:E; simpl.
  - rewrite f_keeps_key, E. reflexivity.
  - rewrite E. exact IH.
Qed.

(** Rows under another id are not touched. *)
Lemma find_updateWhere_other (i j : jstring) (l : list A) :
  i <> j ->
  find (hasKey key j) (updateWhere key i f l) = find (hasKey key j) l.
Proof.
  intros Hne. induction l as [|a l IH]; simpl; [reflexivity|].
  unfold hasKey in *. destruct (jstring_eqb (key a) i) eqn:E; simpl.
  - rewrite f_keeps_key. apply jstring_eqb_eq in E.
    assert (jstring_eqb (key a) j = false) as ->
        by (apply jstring_eqb_neq; congruence).
    exact IH.
  - destruct (jstring_eqb (key a) j); [reflexivity | exact IH].
Qed.

Lemma find_hasKey (i : jstring) (l : list A) (a : A) :
  find (hasKey key i) l = Some a -> key a = i.
Proof.
  intros H. apply find_some in H. destruct H as [_ H].
  now apply jstring_eqb_eq.
Qed.

Lemma existsb_hasKey_find (i : jstring) (l : list A) :
  find (hasKey key i) l = None -> existsb (hasKey key i) l = false.
Proof.
  induction l as [|a l IH]; simpl; [reflexivity|].
  destruct (hasKey key i a); [discriminate | exact IH].
Qed.

End KeyedTableFacts.

(** ** Running a handler step by step *)

Lemma bind_ret {A B} (a : A) (k : A -> M B) (st : Store) :
  (x <- ret a ;; k x) st = k a st.
Proof. reflexivity. Qed.

Lemma bind_throw {A B} (e : string) (k : A -> M B) (st : Store) :
  (x <- throw e ;; k x) st = (Throw e, st).
Proof. reflexivity. Qed.

Lemma bind_lift_Return {A B} (a : A) (k : A -> M B) (st : Store) :
  (x <- lift (Return a) ;; k x) st = k a st.
Proof. reflexivity. Qed.

Lemma bind_lift_Throw {A B} (e : string) (k : A -> M B) (st : Store) :
  (x <- lift (Throw e) ;; k x) st = (Throw e, st).
Proof. reflexivity. Qed.

Lemma bind_getBrand {B} (i : jstring) (k : option Brand.row -> M B) (st : Store) :
  (x <- getBrand i ;; k x) st = k (findBrand i st) st.
Proof. reflexivity. Qed.

Lemma bind_getPost {B} (i : jstring) (k : option Post.row -> M B) (st : Store) :
  (x <- getPost i ;; k x) st = k (findPost i st) st.
Proof. reflexivity. Qed.

Lemma bind_updatePost {B} (i : jstring) (f : Post.row -> Post.row)
      (k : unit -> M B) (st : Store) :
  (x <- updatePost i f ;; k x) st
  = k tt (mkStore (brands st) (updateWhere Post.id i f (posts st))).
Proof. reflexivity. Qed.

Lemma bind_updateBrand {B} (i : jstring) (f : Brand.row -> Brand.row)
      (k : unit -> M B) (st : Store) :
  (x <- updateBrand i f ;; k x) st
  = k tt (mkStore (updateWhere Brand.id i f (brands st)) (posts st)).
Proof. reflexivity. Qed.

(** ** Brand registration and update *)

Lemma asInteger_inject_Z (z : Z) : asInteger (JNum (inject_Z z)) = Some z.
Proof.
  unfold asInteger. rewrite Qcanon.Qred_identity; [reflexivity|].
  simpl. apply Z.gcd_1_r.
Qed.

Lemma cadenceObject_hour (b : Brand.row) :
  getPropOpt (cadenceObject b) "hour" = JNum (inject_Z (Brand.cadence_hour b)).
Proof. reflexivity. Qed.

Lemma cadenceObject_minute (b : Brand.row) :
  getPropOpt (cadenceObject b) "minute"
  = JNum (inject_Z (Brand.cadence_minute b)).
Proof. reflexivity. Qed.

Lemma cadenceObject_weekdays (b : Brand.row) :
  getPropOpt (cadenceObject b) "weekdays" = Brand.cadence_weekdays b.
Proof. reflexivity. Qed.

(** C5, as amended: a cadence field of the wrong type is replaced, a value
    of the right type is stored as given, whatever its range.  On creation
    the stored weekday value is the given one when it is an array and [2,5]
    otherwise, and the stored hour and minute are the given ones when they
    are integers and 10 and 0 otherwise.  On partial update the stored hour
    and minute are the given ones when they are integers and the previous
    ones otherwise, and the stored weekday value is the given one unless it
    is [null] or missing. *)
Theorem cadence_fields_checked_by_type :
  (forall (st : Store) (body : BrandBody),
      missing (bb_id body) = false ->
      missing (bb_name body) = false ->
      findBrand (orElse (bb_id body) []) st = None ->
      exists b,
        createBrand body st
        = (Return (Json 200), mkStore (brands st ++ [b]) (posts st))
        /\ (forall elems, getPropOpt (bb_cadence body) "weekdays" = JArr elems ->
              Brand.cadence_weekdays b = JArr elems)
        /\ (isArray (getPropOpt (bb_cadence body) "weekdays") = false ->
              Brand.cadence_weekdays b = JArr [JNum 2; JNum 5])
        /\ (forall h, asInteger (getPropOpt (bb_cadence body) "hour") = Some h ->
              Brand.cadence_hour b = h)
        /\ (asInteger (getPropOpt (bb_cadence body) "hour") = None ->
              Brand.cadence_hour b = 10)
        /\ (forall m, asInteger (getPropOpt (bb_cadence body) "minute") = Some m ->
              Brand.cadence_minute b = m)
        /\ (asInteger (getPropOpt (bb_cadence body) "minute") = None ->
              Brand.cadence_minute b = 0))
  /\
  (forall (st : Store) (i : jstring) (body : BrandBody) (current : Brand.row),
      findBrand i st = Some current ->
      exists st' b,
        patchBrand i body st = (Return (Json 200), st')
        /\ findBrand i st' = Some b
        /\ (forall h, asInteger (getPropOpt (bb_cadence body) "hour") = Some h ->
              Brand.cadence_hour b = h)
        /\ (asInteger (getPropOpt (bb_cadence body) "hour") = None ->
              Brand.cadence_hour b = Brand.cadence_hour current)
        /\ (forall m, asInteger (getPropOpt (bb_cadence body) "minute") = Some m ->
              Brand.cadence_minute b = m)
        /\ (asInteger (getPropOpt (bb_cadence body) "minute") = None ->
              Brand.cadence_minute b = Brand.cadence_minute current)
        /\ (forall w, getPropOpt (bb_cadence body) "weekdays" = w ->
              w <> JUndefined -> w <> JNull ->
              Brand.cadence_weekdays b = w)
        /\ (getPropOpt (bb_cadence body) "weekdays" = JUndefined
            \/ getPropOpt (bb_cadence body) "weekdays" = JNull ->
              Brand.cadence_weekdays b = Brand.cadence_weekdays current)).
Proof.
  split.
  - intros st body Hid Hname Hnew.
    unfold createBrand. rewrite Hid, Hname. cbn [orb].
    rewrite bind_getBrand, Hnew.
    unfold bind, insertBrand, ret. cbn [Brand.id].
    rewrite (existsb_hasKey_find _ Brand.id _ _ Hnew).
    eexists. split; [reflexivity|].
    cbn [Brand.cadence_weekdays Brand.cadence_hour Brand.cadence_minute].
    repeat split.
    + intros elems ->. reflexivity.
    + intros ->. rewrite andb_false_r. reflexivity.
    + intros h ->. reflexivity.
    + intros ->. reflexivity.
    + intros m ->. reflexivity.
    + intros ->. reflexivity.
  - intros st i body current Hcur.
    unfold patchBrand. rewrite bind_getBrand, Hcur, bind_updateBrand.
    pose proof (find_hasKey _ Brand.id _ _ _ Hcur) as Hid.
    do 2 eexists. split; [reflexivity|].
    split.
    + unfold findBrand. cbn [brands]. rewrite Hid.
      rewrite find_updateWhere_same by reflexivity.
      fold (findBrand i st). rewrite Hcur. reflexivity.
    + cbn [Brand.cadence_weekdays Brand.cadence_hour Brand.cadence_minute].
      set (c := coalesce (bb_cadence body) (cadenceObject current)).
      assert ((c = cadenceObject current
               /\ forall k, getPropOpt (bb_cadence body) k = JUndefined)
              \/ c = bb_cadence body) as Hc.
      { subst c. destruct (bb_cadence body); simpl; auto. }
      destruct Hc as [[Hc Hnone] | Hc]; rewrite Hc.
      * rewrite !Hnone, cadenceObject_hour, cadenceObject_minute,
          cadenceObject_weekdays, !asInteger_inject_Z.
        cbn [asInteger orElse].
        repeat split; try discriminate; try reflexivity.
        -- intros w <- Hw. contradiction.
        -- intros _. now destruct (Brand.cadence_weekdays current).
      * repeat split.
        -- intros h ->. reflexivity.
        -- intros ->. reflexivity.
        -- intros m ->. reflexivity.
        -- intros ->. reflexivity.
        -- intros w -> Hu Hn. destruct w; try reflexivity; contradiction.
        -- intros [-> | ->]; reflexivity.
Qed.

(** C5 as stated fails: a brand registered with weekdays [9], hour 25 and
    minute 99 is stored with exactly these values, outside the ranges of
    the invariant and not replaced by the defaults. *)
Lemma createBrand_stores_out_of_range :
  exists b,
    createBrand
      (mkBrandBody (Some (str "acme")) (Some (str "Acme")) None None
         (JObj [("weekdays", JArr [JNum 9]); ("hour", JNum 25);
                ("minute", JNum 99)])
         None None)
      (mkStore [] [])
    = (Return (Json 200), mkStore [b] [])
    /\ Brand.cadence_weekdays b = JArr [JNum 9]
    /\ Brand.cadence_hour b = 25
    /\ Brand.cadence_minute b = 99
    /\ cadenceInvariant b = false.
Proof. eexists. vm_compute. repeat split. Qed.

Lemma cadence_fields_checked_by_type_witness :
  exists b,
    createBrand
      (mkBrandBody (Some (str "acme")) (Some (str "Acme")) None None
         (JObj [("weekdays", JStr (str "daily")); ("hour", JNum (21 # 2))])
         None None)
      (mkStore [] [])
    = (Return (Json 200), mkStore ([] ++ [b]) [])
    /\ Brand.cadence_weekdays b = JArr [JNum 2; JNum 5]
    /\ Brand.cadence_hour b = 10
    /\ Brand.cadence_minute b = 0.
Proof.
  destruct (proj1 cadence_fields_checked_by_type (mkStore [] [])
              (mkBrandBody (Some (str "acme")) (Some (str "Acme")) None None
                 (JObj [("weekdays", JStr (str "daily"));
                        ("hour", JNum (21 # 2))])
                 None None))
    as [b [Hrun [_ [Hw [_ [Hh [_ Hm]]]]]]]; try reflexivity.
  exists b. split; [exact Hrun|].
  split; [apply Hw; reflexivity|].
  split; [apply Hh; reflexivity | apply Hm; reflexivity].
Defined.

(** ** DraftComposer *)

Lemma replaceEmDash_clean (s : jstring) : ~ In emDash (replaceEmDash s).
Proof.
  induction s as [|c s IH]; simpl; [tauto|].
  intros [H | H]; [|now apply IH].
  destruct (N.eqb c emDash) eqn:E.
  - discriminate H.
  - apply N.eqb_neq in E. congruence.
Qed.

(** Code units other than the em dash are kept, in place. *)
Lemma replaceEmDash_nth (s : jstring) (n : nat) (c : N) :
  nth_error s n = Some c ->
  nth_error (replaceEmDash s) n = Some (if N.eqb c emDash then hyphen else c).
Proof.
  intros H. unfold replaceEmDash. rewrite nth_error_map, H. reflexivity.
Qed.

Lemma draftText_spec (it : JsValue) (t : jstring) :
  draftText it = Return t -> t = replaceEmDash (itemText it).
Proof.
  unfold draftText, itemText, getPropOpt.
  destruct (getProp it "text") as [v|e]; [|discriminate].
  destruct (truthy v) eqn:Ht.
  - destruct v; try discriminate. now intros [= <-].
  - intros [= <-]. destruct v; try reflexivity.
    simpl in Ht. destruct s; [reflexivity | discriminate].
Qed.

(** The sanitized text is the text with its em dashes turned into
    hyphens. *)
Lemma replaceEmDash_hyphenated (s : jstring) : hyphenated s (replaceEmDash s).
Proof.
  split; [apply length_map | apply replaceEmDash_nth].
Qed.

(** An item with a text to read gives a draft text. *)
Lemma draftText_returns (it : JsValue) :
  hasDraftText it = true -> draftText it = Return (replaceEmDash (itemText it)).
Proof.
  unfold hasDraftText, draftText, itemText, getPropOpt.
  destruct it; try discriminate; simpl;
    try (intros _; reflexivity).
  destruct (assoc "text" props) as [| |b|q|s|l|o]; simpl; try discriminate;
    try (intros _; reflexivity).
  - destruct b; [discriminate | reflexivity].
  - destruct (Qeq_bool q 0); [reflexivity | discriminate].
  - intros _. destruct s; reflexivity.
Qed.

(** Selections that each hold a pillar and a format. *)
Lemma orderOf_Return (sels : list Selection) (order : list (jstring * jstring)) :
  orderOf sels = Return order ->
  Forall (fun sel => fst sel <> None /\ snd sel <> None) sels.
Proof.
  revert order. induction sels as [|[p f] sels IH]; intros order; simpl.
  - constructor.
  - destruct p as [p|]; [|discriminate]. destruct f as [f|]; [|discriminate].
    simpl. destruct (orderOf sels) as [o|e]; [|discriminate].
    intros _. constructor; [split; discriminate | now apply (IH o)].
Qed.

Lemma propOr_returns (it : JsValue) (k : string) (sels : list Selection)
      (i : nat) (part : Selection -> option WeightedItem)
      (field : option WeightedItem -> outcome jstring) :
  hasDraftText it = true ->
  (forall sel, In sel sels -> exists s, field (part sel) = Return s) ->
  exists v, propOr it k (selected sels i part field) = Return v.
Proof.
  intros Hit Hsels. unfold propOr.
  assert (exists v, getProp it k = Return v) as [v ->].
  { destruct it; try discriminate; simpl; eauto. }
  destruct (truthy v); [eauto|].
  unfold selected. destruct (nth_error sels i) as [sel|] eqn:Hn; [|eauto].
  apply nth_error_In in Hn. destruct (Hsels sel Hn) as [x ->]. eauto.
Qed.

Lemma findPost_snoc (i : jstring) (st : Store) (p : Post.row) :
  findPost i st = None ->
  Post.id p <> i ->
  findPost i (mkStore (brands st) (posts st ++ [p])) = None.
Proof.
  unfold findPost. cbn [posts]. intros Hf Hne.
  induction (posts st) as [|q l IH]; simpl in *.
  - unfold hasKey. apply jstring_eqb_neq in Hne. now rewrite Hne.
  - destruct (hasKey Post.id i q); [discriminate | now apply IH].
Qed.

Section ComposerFacts.

Variable zone : JsDate.TimeZone.
Variable random : nat -> Q.
Variable uid : nat -> jstring.
Variable clock : nat -> Z.
Variable chat : Prompt -> outcome Content.

(** The preparation reads the store and leaves it as it is. *)
Lemma prepare_store (brandId : jstring) (count : Z) (st st' : Store) r :
  prepare random brandId count st = (r, st') -> st' = st.
Proof.
  unfold prepare. rewrite bind_getBrand.
  destruct (findBrand brandId st) as [brand|].
  - destruct (buildPrompt brand count _) as [p|e].
    + rewrite bind_lift_Return. now intros [= _ <-].
    + rewrite bind_lift_Throw. now intros [= _ <-].
  - now intros [= _ <-].
Qed.

(** One item: either the callback throws before the insertion, or one row
    with the sanitized text of the item is appended. *)
Lemma createDraft_cases (brand : Brand.row) (sels : list Selection)
      (times : list Z) (i : nat) (it : JsValue) (st : Store) :
  (exists e, createDraft uid clock brand sels times i it st = (Throw e, st))
  \/ (exists p,
        createDraft uid clock brand sels times i it st
        = (Return p, mkStore (brands st) (posts st ++ [p]))
        /\ Post.text p = replaceEmDash (itemText it)
        /\ Post.status p = draft).
Proof.
  unfold createDraft.
  destruct (draftText it) as [t|e] eqn:Ht;
    [rewrite bind_lift_Return | rewrite bind_lift_Throw; eauto].
  destruct (propOr it "pillarKey" _) as [pk|e];
    [rewrite bind_lift_Return | rewrite bind_lift_Throw; eauto].
  destruct (propOr it "pillarLabel" _) as [pl|e];
    [rewrite bind_lift_Return | rewrite bind_lift_Throw; eauto].
  destruct (propOr it "formatKey" _) as [fk|e];
    [rewrite bind_lift_Return | rewrite bind_lift_Throw; eauto].
  unfold bind, insertPost, ret. cbn [Post.id].
  destruct (existsb _ (posts st)).
  - left. eauto.
  - right. eexists. split; [reflexivity|]. cbn [Post.text Post.status].
    split; [now apply draftText_spec | reflexivity].
Qed.

Lemma createDrafts_spec (brand : Brand.row) (sels : list Selection)
      (times : list Z) (items : list JsValue) :
  forall (i : nat) (st st' : Store) r,
    createDrafts uid clock brand sels times i items st = (r, st') ->
    exists new,
      st' = mkStore (brands st) (posts st ++ new)
      /\ Forall2 (fun p it => Post.text p = replaceEmDash (itemText it)
                              /\ Post.status p = draft)
                 new (firstn (length new) items)
      /\ (forall created, r = Return created ->
            created = new /\ length new = length items).
Proof.
  induction items as [|it items IH]; intros i st st' r; simpl.
  - intros [= <- <-]. exists []. rewrite app_nil_r. destruct st.
    split; [reflexivity|]. split; [constructor|].
    intros created [= <-]. auto.
  - unfold bind at 1.
    destruct (createDraft_cases brand sels times i it st)
      as [[e He] | [p [Hp [Htext Hstatus]]]].
    + rewrite He. intros [= <- <-]. exists []. rewrite app_nil_r.
      destruct st. split; [reflexivity|]. split; [constructor|].
      discriminate.
    + rewrite Hp. unfold bind at 1.
      destruct (createDrafts uid clock brand sels times (S i) items _)
        as [r1 st1] eqn:Hrest.
      apply IH in Hrest. destruct Hrest as [new [-> [Hall Hret]]].
      cbn [brands posts] in *. rewrite <- app_assoc. simpl app.
      intros Hr. exists (p :: new).
      split; [destruct r1; now inversion Hr|].
      split; [constructor; auto|].
      intros created ->. destruct r1 as [ps|e]; [|discriminate Hr].
      unfold ret in Hr. injection Hr as Hc _.
      destruct (Hret ps eq_refl) as [-> Hlen]. simpl. split; congruence.
Qed.

(** An item with a text to read, selections that are complete and a fresh
    id: the callback returns and its row is appended. *)
Lemma createDraft_returns (brand : Brand.row) (sels : list Selection)
      (times : list Z) (i : nat) (it : JsValue) (st : Store) :
  hasDraftText it = true ->
  Forall (fun sel => fst sel <> None /\ snd sel <> None) sels ->
  findPost (uid i) st = None ->
  exists p,
    createDraft uid clock brand sels times i it st
    = (Return p, mkStore (brands st) (posts st ++ [p]))
    /\ Post.id p = uid i.
Proof.
  clear zone random chat.
  intros Hit Hsels Hfresh. unfold createDraft.
  rewrite (draftText_returns it Hit), bind_lift_Return.
  rewrite Forall_forall in Hsels.
  assert (forall part field,
             (forall x, x <> None -> exists s, field x = Return s) ->
             (part = fst \/ part = snd) ->
             forall k, exists v,
               propOr it k (selected sels i part field) = Return v) as Hmeta.
  { intros part field Hfield Hpart k. apply propOr_returns; [exact Hit|].
    intros sel Hin. apply Hfield.
    destruct (Hsels sel Hin) as [H1 H2]. destruct Hpart as [-> | ->]; auto. }
  assert (forall x : option WeightedItem,
             x <> None -> exists s, keyOf x = Return s) as Hkey.
  { intros [x|] Hx; [simpl; eauto | contradiction]. }
  assert (forall x : option WeightedItem,
             x <> None -> exists s, labelOf x = Return s) as Hlabel.
  { intros [x|] Hx; [simpl; eauto | contradiction]. }
  destruct (Hmeta fst keyOf Hkey (or_introl eq_refl) "pillarKey") as [pk ->].
  rewrite bind_lift_Return.
  destruct (Hmeta fst labelOf Hlabel (or_introl eq_refl) "pillarLabel")
    as [pl ->].
  rewrite bind_lift_Return.
  destruct (Hmeta snd keyOf Hkey (or_intror eq_refl) "formatKey") as [fk ->].
  rewrite bind_lift_Return.
  unfold bind, insertPost, ret. cbn [Post.id].
  destruct (existsb _ (posts st)) eqn:Hex.
  - apply existsb_exists in Hex. destruct Hex as [q [Hin Hq]].
    unfold findPost in Hfresh.
    pose proof (find_none _ _ Hfresh q Hin) as Hn. congruence.
  - eexists. split; reflexivity.
Qed.

Lemma createDrafts_returns (brand : Brand.row) (sels : list Selection)
      (times : list Z) (items : list JsValue) :
  Forall (fun it => hasDraftText it = true) items ->
  Forall (fun sel => fst sel <> None /\ snd sel <> None) sels ->
  forall (i : nat) (st : Store),
    (forall k, (k < length items)%nat -> findPost (uid (i + k)) st = None) ->
    (forall j k, (j < k < length items)%nat -> uid (i + j) <> uid (i + k)) ->
    exists new,
      createDrafts uid clock brand sels times i items st
      = (Return new, mkStore (brands st) (posts st ++ new))
      /\ length new = length items.
Proof.
  clear zone random chat.
  intros Hitems Hsels.
  induction Hitems as [|it items Hit _ IH]; intros i st Hfresh Hdistinct.
  - exists []. simpl. rewrite app_nil_r. destruct st. split; reflexivity.
  - cbn [createDrafts]. unfold bind at 1.
    destruct (createDraft_returns brand sels times i it st Hit Hsels)
      as [p [-> Hid]].
    { rewrite <- (Nat.add_0_r i). apply Hfresh. simpl. lia. }
    destruct (IH (S i) (mkStore (brands st) (posts st ++ [p])))
      as [new [Hrun Hlen]].
    + intros k Hk. apply findPost_snoc.
      * replace (S i + k)%nat with (i + S k)%nat by lia.
        apply Hfresh. simpl. lia.
      * rewrite Hid. rewrite <- (Nat.add_0_r i) at 1.
        replace (S i + k)%nat with (i + S k)%nat by lia.
        apply Hdistinct. simpl. lia.
    + intros j k Hjk.
      replace (S i + j)%nat with (i + S j)%nat by lia.
      replace (S i + k)%nat with (i + S k)%nat by lia.
      apply Hdistinct. simpl. lia.
    + unfold bind at 1. rewrite Hrun. cbn [brands posts ret].
      exists (p :: new). rewrite <- app_assoc. simpl.
      split; [reflexivity | now rewrite Hlen].
Qed.

(** When the preparation returns, every selection holds a pillar and a
    format. *)
Lemma prepare_selections (brandId : jstring) (count : Z) (st : Store)
      (pre : Brand.row * list Selection * Prompt) :
  fst (prepare random brandId count st) = Return pre ->
  Forall (fun sel => fst sel <> None /\ snd sel <> None) (snd (fst pre)).
Proof.
  clear zone uid clock chat.
  unfold prepare. rewrite bind_getBrand.
  destruct (findBrand brandId st) as [brand|]; [|discriminate].
  unfold buildPrompt.
  destruct (orderOf _) as [order|e] eqn:Ho.
  - rewrite bind_lift_Return. cbn [fst ret]. intros [= <-]. cbn [fst snd].
    exact (orderOf_Return _ _ Ho).
  - rewrite bind_lift_Throw. discriminate.
Qed.

(** On a weekday value that has an [includes] method the planner returns. *)
Lemma scan_returns (c : Cadence) (count now : Z) (fuel : nat) :
  canInclude (weekdays c) = true ->
  forall i times, exists ts, scan zone c count now fuel i times = Return ts.
Proof.
  intros Hcan.
  induction fuel as [|fuel IH]; intros i times; simpl; [eauto|].
  destruct ((i <? 30) && _); [|eauto].
  assert (exists times', scanDay zone c now i times = Return times') as [t' ->].
  { unfold scanDay.
    set (wd := (_ + 1)).
    assert (exists b, includes (weekdays c) wd = Return b) as [b ->].
    { unfold includes, canInclude in *.
      destruct (truthy (weekdays c)); [|eauto].
      destruct (weekdays c); simpl in Hcan; try discriminate; eauto. }
    destruct b; eauto. }
  apply IH.
Qed.

Lemma nextScheduleTimes_returns (c : Cadence) (count now : Z) :
  canInclude (weekdays c) = true ->
  exists ts, nextScheduleTimes zone c count now = Return ts.
Proof. intros Hcan. now apply scan_returns. Qed.

End ComposerFacts.

(** On a weekday value without [includes] the scan throws at its first
    day, if it scans at all. *)
Lemma scan_noIncludes (zone : JsDate.TimeZone) (c : Cadence) (count now : Z) :
  noIncludes (weekdays c) = true ->
  nextScheduleTimes zone c count now
  = if 0 <? count then Throw "TypeError" else Return [].
Proof.
  intros Hno. unfold nextScheduleTimes. cbn [scan length Z.of_nat].
  change (0 <? 30) with true. cbn [andb].
  destruct (0 <? count); [|reflexivity].
  unfold scanDay, includes, noIncludes in *.
  apply andb_true_iff in Hno. destruct Hno as [Ht Hn]. rewrite Ht.
  destruct (weekdays c); try discriminate; reflexivity.
Qed.

Lemma canInclude_or_not (w : JsValue) :
  canInclude w = true \/ noIncludes w = true.
Proof.
  unfold canInclude, noIncludes.
  destruct (truthy w); [|now left].
  destruct w; simpl; auto.
Qed.

(** Once the brief is built and the generator has replied, what remains is
    [compose]. *)
Lemma generate_after_reply
      (zone : JsDate.TimeZone) (random : nat -> Q) (uid : nat -> jstring) (clock : nat -> Z)
      (chat : Prompt -> outcome Content)
      (brandId : jstring) (count : Z) (st : Store)
      (pre : Brand.row * list Selection * Prompt) (res : Content) :
  fst (prepare random brandId count st) = Return pre ->
  chat (snd pre) = Return res ->
  generatePostsForBrand zone random uid clock chat brandId count st
  = compose zone uid clock (fst (fst pre)) (snd (fst pre)) res st.
Proof.
  intros Hpre Hchat. unfold generatePostsForBrand, bind at 1.
  destruct (prepare random brandId count st) as [r st1] eqn:Hp.
  apply prepare_store in Hp as Hst. subst st1.
  simpl in Hpre. subst r. destruct pre as [[brand sels] prompt].
  simpl in Hchat. rewrite Hchat, bind_lift_Return. reflexivity.
Qed.

(** C6: when the generator call throws, [generatePostsForBrand] ends with
    that error and the store is as it was: no draft is persisted. *)
Theorem generator_failure_persists_nothing
        (tza : Z) (random : nat -> Q) (uid : nat -> jstring) (clock : nat -> Z)
        (chat : Prompt -> outcome Content)
        (brandId : jstring) (count : Z) (st : Store)
        (pre : Brand.row * list Selection * Prompt) (e : string) :
  fst (prepare random brandId count st) = Return pre ->
  chat (snd pre) = Throw e ->
  generatePostsForBrand tza random uid clock chat brandId count st
  = (Throw e, st).
Proof.
  intros Hpre Hchat. unfold generatePostsForBrand, bind at 1.
  destruct (prepare random brandId count st) as [r st1] eqn:Hp.
  apply prepare_store in Hp as Hst. subst st1.
  simpl in Hpre. subst r. destruct pre as [[brand sels] prompt].
  simpl in Hchat. rewrite Hchat, bind_lift_Throw. reflexivity.
Qed.

Lemma generator_failure_persists_nothing_witness :
  generatePostsForBrand 0 Demo.random Demo.uid Demo.clock Demo.chatDown
                        (str "acme") 2 Demo.store
  = (Throw "network", Demo.store).
Proof.
  eapply generator_failure_persists_nothing.
  - vm_compute. reflexivity.
  - reflexivity.
Defined.

(** C7, as amended: when the reply of the generator is not parseable JSON,
    or parses to a value without a [posts] field, [generatePostsForBrand]
    inserts nothing.  It returns the empty sequence when the weekday value
    of the brand is one the planner can search (falsy, an array or a
    string), and throws a [TypeError] when it is any other truthy value:
    the planner is called for one time even though there is no item. *)
Theorem malformed_reply_gives_no_drafts
        (zone : JsDate.TimeZone) (random : nat -> Q) (uid : nat -> jstring)
        (clock : nat -> Z) (chat : Prompt -> outcome Content)
        (brandId : jstring) (count : Z) (st : Store)
        (pre : Brand.row * list Selection * Prompt) (res : Content) :
  fst (prepare random brandId count st) = Return pre ->
  chat (snd pre) = Return res ->
  res = NotJSON \/ (exists obj, res = Parsed obj /\ lacksPosts obj) ->
  generatePostsForBrand zone random uid clock chat brandId count st
  = (if canInclude (Brand.cadence_weekdays (fst (fst pre)))
     then Return [] else Throw "TypeError", st).
Proof.
  intros Hpre Hchat Hres.
  rewrite (generate_after_reply zone random uid clock chat brandId count st
             pre res Hpre Hchat).
  destruct pre as [[brand sels] prompt]. cbn [fst snd].
  assert (itemsOf res = JArr []) as Hitems.
  { destruct Hres as [-> | [obj [-> Hlack]]]; [reflexivity|].
    unfold lacksPosts, getPropOpt in Hlack. unfold itemsOf.
    destruct (getProp obj "posts"); [subst; reflexivity | reflexivity]. }
  unfold compose. rewrite Hitems. cbn [length Z.of_nat].
  destruct (canInclude (Brand.cadence_weekdays brand)) eqn:Hcan.
  - destruct (nextScheduleTimes_returns zone (cadenceOf brand)
                (Z.max 1 0) (clock 0%nat) Hcan) as [ts ->].
    rewrite bind_lift_Return. reflexivity.
  - destruct (canInclude_or_not (Brand.cadence_weekdays brand)) as [Hc | Hno];
      [congruence|].
    rewrite (scan_noIncludes zone (cadenceOf brand) (Z.max 1 0) (clock 0%nat)
               Hno).
    reflexivity.
Qed.

Lemma malformed_reply_gives_no_drafts_witness :
  generatePostsForBrand 0 Demo.random Demo.uid Demo.clock Demo.chatProse
                        (str "acme") 2 Demo.store
  = (Return [], Demo.store)
  /\ generatePostsForBrand 0 Demo.random Demo.uid Demo.clock Demo.chatNoPosts
                           (str "acme") 2 Demo.storeFive
     = (Throw "TypeError", Demo.storeFive).
Proof.
  split.
  - apply (malformed_reply_gives_no_drafts 0 Demo.random Demo.uid Demo.clock
             Demo.chatProse (str "acme") 2 Demo.store DemoRun.pre NotJSON).
    + vm_compute. reflexivity.
    + reflexivity.
    + left. reflexivity.
  - apply (malformed_reply_gives_no_drafts 0 Demo.random Demo.uid Demo.clock
             Demo.chatNoPosts (str "acme") 2 Demo.storeFive DemoRun.preFive
             (Parsed (JObj [("items", JArr [])]))).
    + vm_compute. reflexivity.
    + reflexivity.
    + right. eexists. split; reflexivity.
Defined.

(** C7 as stated fails.  The brand 'acme' is registered and its weekday
    value then set to the number 5 by a partial update, which stores it as
    given; the store is one the server can reach.  A reply that is not
    JSON then makes [generatePostsForBrand] throw a [TypeError] instead of
    returning the empty sequence. *)
Lemma malformed_reply_throws :
  reachable Demo.storeFive
  /\ findBrand (str "acme") Demo.storeFive = Some Demo.acmeFive
  /\ generatePostsForBrand 0 Demo.random Demo.uid Demo.clock Demo.chatProse
                           (str "acme") 2 Demo.storeFive
     = (Throw "TypeError", Demo.storeFive)
  /\ fst (generatePostsForBrand 0 Demo.random Demo.uid Demo.clock
                                Demo.chatProse (str "acme") 2 Demo.storeFive)
     <> Return [].
Proof.
  split.
  - unfold Demo.storeFive.
    eapply reachable_step; [|apply handled_patchBrand].
    eapply reachable_step; [apply reachable_empty | apply handled_createBrand].
  - split; [vm_compute; reflexivity|].
    split; [vm_compute; reflexivity|].
    vm_compute. discriminate.
Qed.



(** The run of the witness, spelled out: two drafts, the em dash of the
    first replaced, scheduled on the Tuesday and the Friday at 10:00. *)
Example generatePostsForBrand_two :
  map (fun p => (Post.text p, Post.status p, Post.scheduledAt p))
      (posts (snd (generatePostsForBrand 0 Demo.random Demo.uid Demo.clock
                     Demo.chatTwo (str "acme") 2 Demo.store)))
  = [(str "Teams-not tools", draft, Some 1704189600000);
     (str "Ask first", draft, Some 1704448800000)].
Proof. vm_compute. reflexivity. Qed.

(** ** Post handlers *)

Lemma findPost_update_same (i : jstring) (f : Post.row -> Post.row)
      (st : Store) :
  (forall r, Post.id (f r) = Post.id r) ->
  findPost i (mkStore (brands st) (updateWhere Post.id i f (posts st)))
  = option_map f (findPost i st).
Proof.
  intros Hf. unfold findPost. cbn [posts].
  exact (find_updateWhere_same _ Post.id f Hf i (posts st)).
Qed.

Lemma findPost_update_other (i j : jstring) (f : Post.row -> Post.row)
      (st : Store) :
  (forall r, Post.id (f r) = Post.id r) ->
  i <> j ->
  findPost j (mkStore (brands st) (updateWhere Post.id i f (posts st)))
  = findPost j st.
Proof.
  intros Hf Hne. unfold findPost. cbn [posts].
  exact (find_updateWhere_other _ Post.id f Hf i j (posts st) Hne).
Qed.

Lemma findPost_id (i : jstring) (st : Store) (p : Post.row) :
  findPost i st = Some p -> Post.id p = i.
Proof. intros H. exact (find_hasKey _ Post.id _ _ _ H). Qed.

(** C10: a partial update that supplies a text is answered 200 and stores
    a text without any em dash: the text supplied with every em dash turned
    into a hyphen and every other code unit kept (for a text that is
    well-formed UTF-16, which the table gives back as stored). *)
Theorem patchPost_sanitizes_text
        (i : jstring) (body : PostPatch) (st : Store) (p : Post.row)
        (t : jstring) :
  findPost i st = Some p ->
  pp_text body = JStr t ->
  exists st' p',
    patchPost i body st = (Return (Json 200), st')
    /\ findPost i st' = Some p'
    /\ ~ In emDash (Post.text p')
    /\ (wellFormed t = true -> hyphenated t (Post.text p')).
Proof.
  intros Hp Ht. unfold patchPost. rewrite bind_getPost, Hp, Ht.
  cbn [coalesce]. rewrite bind_lift_Return, bind_updatePost.
  pose proof (findPost_id _ _ _ Hp) as Hid. rewrite Hid.
  do 2 eexists. split; [reflexivity|].
  split; [rewrite findPost_update_same by reflexivity; rewrite Hp; reflexivity|].
  cbn [Post.text]. split; [apply replaceEmDash_clean|].
  intros _. apply replaceEmDash_hyphenated.
Qed.

Lemma patchPost_sanitizes_text_witness :
  exists st' p',
    patchPost (str "p1")
              (mkPostPatch (JStr (str "Less" ++ [emDash; emDash] ++ str "more"))
                           None None None None)
              (Demo.storeWith (Demo.post draft [str "linkedin"]))
    = (Return (Json 200), st')
    /\ findPost (str "p1") st' = Some p'
    /\ ~ In emDash (Post.text p')
    /\ hyphenated (str "Less" ++ [emDash; emDash] ++ str "more") (Post.text p').
Proof.
  destruct (patchPost_sanitizes_text (str "p1")
              (mkPostPatch (JStr (str "Less" ++ [emDash; emDash] ++ str "more"))
                           None None None None)
              (Demo.storeWith (Demo.post draft [str "linkedin"]))
              (Demo.post draft [str "linkedin"])
              (str "Less" ++ [emDash; emDash] ++ str "more")
              eq_refl eq_refl)
    as [st' [p' [Hrun [Hfind [Hclean Hhyph]]]]].
  exists st', p'. repeat split; try assumption; now apply Hhyph.
Defined.

Example patchPost_text_run :
  option_map Post.text
    (findPost (str "p1")
       (snd (patchPost (str "p1")
               (mkPostPatch (JStr (str "Less" ++ [emDash; emDash] ++ str "more"))
                            None None None None)
               (Demo.storeWith (Demo.post draft [str "linkedin"])))))
  = Some (str "Less--more").
Proof. vm_compute. reflexivity. Qed.

(** A text that is not a string has no [replace] method: the handler throws
    and the store is as it was. *)
Lemma patchPost_text_not_string (i : jstring) (body : PostPatch) (st : Store)
      (p : Post.row) (q : Q) :
  findPost i st = Some p ->
  pp_text body = JNum q ->
  patchPost i body st = (Throw "TypeError", st).
Proof.
  intros Hp Ht. unfold patchPost. rewrite bind_getPost, Hp, Ht. reflexivity.
Qed.

(** C9: approving an existing post answers 200 and sets the status of that
    post to approved whatever it was before; every other field of the post,
    every post under another id and the brands are as they were. *)
Theorem approvePost_unconditional (i : jstring) (st : Store) (p : Post.row) :
  findPost i st = Some p ->
  exists st' p',
    approvePost i st = (Return (Json 200), st')
    /\ findPost i st' = Some p'
    /\ Post.status p' = approved
    /\ Post.id p' = Post.id p
    /\ Post.brand p' = Post.brand p
    /\ Post.text p' = Post.text p
    /\ Post.platformTargets p' = Post.platformTargets p
    /\ Post.createdAt p' = Post.createdAt p
    /\ Post.scheduledAt p' = Post.scheduledAt p
    /\ Post.publishedAt p' = Post.publishedAt p
    /\ Post.postMeta p' = Post.postMeta p
    /\ (forall j, j <> i -> findPost j st' = findPost j st)
    /\ brands st' = brands st.
Proof.
  intros Hp. unfold approvePost. rewrite bind_getPost, Hp, bind_updatePost.
  pose proof (findPost_id _ _ _ Hp) as Hid. rewrite Hid.
  do 2 eexists. split; [reflexivity|].
  split; [rewrite findPost_update_same by reflexivity; rewrite Hp; reflexivity|].
  cbn [Post.withStatus Post.status Post.id Post.brand Post.text
       Post.platformTargets Post.createdAt Post.scheduledAt Post.publishedAt
       Post.postMeta brands].
  do 9 (split; [first [reflexivity | exact Hid]|]). split; [|reflexivity].
  intros j Hne. apply findPost_update_other; [reflexivity | congruence].
Qed.

Lemma approvePost_unconditional_witness :
  exists st' p',
    approvePost (str "p1") (Demo.storeWith (Demo.post published [str "linkedin"]))
    = (Return (Json 200), st')
    /\ findPost (str "p1") st' = Some p'
    /\ Post.status p' = approved
    /\ Post.text p' = str "Hello".
Proof.
  destruct (approvePost_unconditional (str "p1")
              (Demo.storeWith (Demo.post published [str "linkedin"]))
              (Demo.post published [str "linkedin"]) eq_refl)
    as [st' [p' [Hrun [Hfind [Hst [_ [_ [Htext _]]]]]]]].
  exists st', p'. repeat split; assumption.
Defined.

(** Approval from the two final states, run. *)
Example approvePost_from_published_and_failed :
  option_map Post.status
    (findPost (str "p1")
       (snd (approvePost (str "p1")
               (Demo.storeWith (Demo.post published [str "linkedin"])))))
  = Some approved
  /\ option_map Post.status
       (findPost (str "p1")
          (snd (approvePost (str "p1")
                  (Demo.storeWith (Demo.post failed [str "linkedin"])))))
     = Some approved.
Proof. split; vm_compute; reflexivity. Qed.

(** ** PostLifecycle *)

Section PublisherFacts.

Variable publisher : Post.row -> outcome PublishResult.

(** [publishPost] calls the Publisher once for each target equal to
    'linkedin' and skips the others; it collects the results as they come,
    whatever their [ok], and throws when a call throws. *)
Lemma publishLoop_spec (p : Post.row) (targets : list jstring) :
  forall results,
    publishLoop publisher p targets results
    = match filter (fun t => jstring_eqb t (str "linkedin")) targets with
      | [] => Return results
      | l =>
          match publisher p with
          | Return r => Return (results ++ map (fun _ => r) l)
          | Throw e => Throw e
          end
      end.
Proof.
  induction targets as [|t targets IH]; intros results; simpl; [reflexivity|].
  destruct (jstring_eqb t (str "linkedin")).
  - destruct (publisher p) as [r|e]; [|reflexivity].
    rewrite IH. destruct (filter _ targets); simpl.
    + reflexivity.
    + now rewrite <- app_assoc.
  - apply IH.
Qed.

Lemma linkedinTargets_In (p : Post.row) :
  linkedinTargets p <> [] <-> In (str "linkedin") (Post.platformTargets p).
Proof.
  unfold linkedinTargets. split.
  - intros H. destruct (filter _ _) as [|t l] eqn:E; [contradiction|].
    assert (In t (t :: l)) as Hin by (left; reflexivity).
    rewrite <- E in Hin. apply filter_In in Hin. destruct Hin as [Hin Ht].
    apply jstring_eqb_eq in Ht. now subst t.
  - intros Hin E.
    assert (In (str "linkedin") (@nil jstring)) as [].
    rewrite <- E. apply filter_In. split; [exact Hin|].
    apply jstring_eqb_refl.
Qed.

Lemma publishPost_returns_iff (p : Post.row) :
  (exists results, publishPost publisher p = Return results)
  <-> (In (str "linkedin") (Post.platformTargets p) ->
       exists r, publisher p = Return r).
Proof.
  unfold publishPost. rewrite publishLoop_spec.
  rewrite <- linkedinTargets_In. unfold linkedinTargets.
  destruct (filter _ _) as [|t l].
  - split; [intros _ H; now contradiction H | eauto].
  - destruct (publisher p) as [r|e].
    + split; eauto.
    + split.
      * intros [results H]. discriminate H.
      * intros H. destruct H as [r H]; [discriminate | discriminate H].
Qed.

Lemma publishPost_throws_iff (p : Post.row) (e : string) :
  publishPost publisher p = Throw e
  <-> (In (str "linkedin") (Post.platformTargets p) /\ publisher p = Throw e).
Proof.
  unfold publishPost. rewrite publishLoop_spec.
  rewrite <- linkedinTargets_In. unfold linkedinTargets.
  destruct (filter _ _) as [|t l].
  - split; [discriminate | intros [H _]; now contradiction H].
  - destruct (publisher p) as [r|e'].
    + split; [discriminate | intros [_ H]; discriminate H].
    + split.
      * intros H. injection H as ->. split; [discriminate | reflexivity].
      * intros [_ H]. injection H as ->. reflexivity.
Qed.

(** The two ways the shared [try]/[catch] ends. *)
Lemma attemptPublish_returned (p : Post.row) (at_ : Z) (st : Store) results :
  publishPost publisher p = Return results ->
  attemptPublish publisher p at_ st
  = (Return (Return results),
     mkStore (brands st)
             (updateWhere Post.id (Post.id p)
                (fun r => Post.withPublished r published at_) (posts st))).
Proof.
  intros H. unfold attemptPublish, tryCatch. rewrite H. reflexivity.
Qed.

Lemma attemptPublish_threw (p : Post.row) (at_ : Z) (st : Store) e :
  publishPost publisher p = Throw e ->
  attemptPublish publisher p at_ st
  = (Return (Throw e),
     mkStore (brands st)
             (updateWhere Post.id (Post.id p)
                (fun r => Post.withStatus r failed) (posts st))).
Proof.
  intros H. unfold attemptPublish, tryCatch. rewrite H. reflexivity.
Qed.

End PublisherFacts.

(** C1, as amended: for every approved post with a non-empty target list,
    the manual publish moves the post to published, with [publishedAt] set,
    exactly when [publishPost] returns, and to failed, with [publishedAt]
    untouched, exactly when it throws.  [publishPost] returns when no call of
    the Publisher throws; the Publisher is called only for the targets equal
    to 'linkedin', and the [ok] of its results is not looked at. *)
Theorem publishNow_follows_throw
        (publisher : Post.row -> outcome PublishResult) (clock : nat -> Z)
        (i : jstring) (st : Store) (p : Post.row) :
  findPost i st = Some p ->
  Post.platformTargets p <> [] ->
  Post.status p = approved ->
  (forall results,
      publishPost publisher p = Return results ->
      exists st',
        publishNow clock publisher i st = (Return (Json 200), st')
        /\ findPost i st'
           = Some (Post.withPublished p published (clock 0%nat)))
  /\ (forall e,
        publishPost publisher p = Throw e ->
        exists st',
          publishNow clock publisher i st = (Return (JsonError 500 e), st')
          /\ findPost i st' = Some (Post.withStatus p failed))
  /\ ((exists results, publishPost publisher p = Return results)
      <-> (In (str "linkedin") (Post.platformTargets p) ->
           exists r, publisher p = Return r))
  /\ (forall e,
        publishPost publisher p = Throw e
        <-> (In (str "linkedin") (Post.platformTargets p)
             /\ publisher p = Throw e)).
Proof.
  intros Hp _ _. pose proof (findPost_id _ _ _ Hp) as Hid.
  split; [|split; [|split]].
  - intros results Hr. unfold publishNow.
    rewrite bind_getPost, Hp. unfold bind at 1.
    rewrite (attemptPublish_returned _ _ _ _ _ Hr), Hid.
    eexists. split; [reflexivity|].
    rewrite findPost_update_same by reflexivity. now rewrite Hp.
  - intros e Hr. unfold publishNow.
    rewrite bind_getPost, Hp. unfold bind at 1.
    rewrite (attemptPublish_threw _ _ _ _ _ Hr), Hid.
    eexists. split; [reflexivity|].
    rewrite findPost_update_same by reflexivity. now rewrite Hp.
  - apply publishPost_returns_iff.
  - intros e. apply publishPost_throws_iff.
Qed.

Lemma publishNow_follows_throw_witness :
  (exists st',
      publishNow Demo.clock publishToLinkedIn (str "p1")
                 (Demo.storeWith (Demo.post approved [str "linkedin"]))
      = (Return (Json 200), st')
      /\ findPost (str "p1") st'
         = Some (Post.withPublished (Demo.post approved [str "linkedin"])
                                    published Demo.monday9))
  /\ (exists st',
        publishNow Demo.clock Demo.publisherThrows (str "p1")
                   (Demo.storeWith (Demo.post approved [str "linkedin"]))
        = (Return (JsonError 500 "Error"), st')
        /\ findPost (str "p1") st'
           = Some (Post.withStatus (Demo.post approved [str "linkedin"]) failed)).
Proof.
  split.
  - apply (proj1 (publishNow_follows_throw publishToLinkedIn Demo.clock
                    (str "p1")
                    (Demo.storeWith (Demo.post approved [str "linkedin"]))
                    (Demo.post approved [str "linkedin"])
                    eq_refl ltac:(discriminate) eq_refl)
                 [mkResult true (str "https://www.linkedin.com/feed/update/mock")]).
    reflexivity.
  - apply (proj1 (proj2 (publishNow_follows_throw Demo.publisherThrows Demo.clock
                    (str "p1")
                    (Demo.storeWith (Demo.post approved [str "linkedin"]))
                    (Demo.post approved [str "linkedin"])
                    eq_refl ltac:(discriminate) eq_refl))
                 "Error").
    reflexivity.
Defined.

(** C1 as stated fails.  A Publisher that reports [ok = false] for the
    'linkedin' target of an approved post, without throwing, leaves the post
    published, not failed.  And with the Publisher of the source, an
    approved post whose only target is 'twitter' is published although no
    result at all was reported for that target. *)
Lemma publishNow_ignores_ok :
  publishPost Demo.publisherNotOk (Demo.post approved [str "linkedin"])
  = Return [mkResult false []]
  /\ option_map Post.status
       (findPost (str "p1")
          (snd (publishNow Demo.clock Demo.publisherNotOk (str "p1")
                  (Demo.storeWith (Demo.post approved [str "linkedin"])))))
     = Some published
  /\ publishPost publishToLinkedIn (Demo.post approved [str "twitter"])
     = Return []
  /\ option_map Post.status
       (findPost (str "p1")
          (snd (publishNow Demo.clock publishToLinkedIn (str "p1")
                  (Demo.storeWith (Demo.post approved [str "twitter"])))))
     = Some published.
Proof. repeat split; vm_compute; reflexivity. Qed.

Section SweepFacts.

Variable publisher : Post.row -> outcome PublishResult.
Variable clock : nat -> Z.

Lemma attemptPublish_other (p : Post.row) (at_ : Z) (st : Store) (j : jstring) :
  j <> Post.id p ->
  findPost j (snd (attemptPublish publisher p at_ st)) = findPost j st.
Proof.
  intros Hne. destruct (publishPost publisher p) as [results|e] eqn:H.
  - rewrite (attemptPublish_returned _ _ _ _ _ H). cbn [snd].
    apply findPost_update_other; [reflexivity | congruence].
  - rewrite (attemptPublish_threw _ _ _ _ _ H). cbn [snd].
    apply findPost_update_other; [reflexivity | congruence].
Qed.

Lemma attemptPublish_returns (p : Post.row) (at_ : Z) (st : Store) :
  exists r, fst (attemptPublish publisher p at_ st) = Return r.
Proof.
  destruct (publishPost publisher p) as [results|e] eqn:H.
  - rewrite (attemptPublish_returned _ _ _ _ _ H). cbn [fst]. eauto.
  - rewrite (attemptPublish_threw _ _ _ _ _ H). cbn [fst]. eauto.
Qed.

(** One turn of the loop: the row is attempted when its time has come and
    skipped otherwise, and the loop goes on. *)
Lemma sweepLoop_cons (now : Z) (p : Post.row) (rest : list Post.row)
      (k : nat) (st : Store) :
  sweepLoop clock publisher now (p :: rest) k st
  = sweepLoop clock publisher now rest (S k)
      (match dueNow now [p] with
       | [] => st
       | _ => snd (attemptPublish publisher p (clock (S k)) st)
       end).
Proof.
  simpl. unfold bind at 1.
  destruct (Post.scheduledAt p) as [t|]; [|reflexivity].
  destruct (t <=? now); [|reflexivity].
  unfold bind at 1.
  destruct (attemptPublish_returns p (clock (S k)) st) as [r Hr].
  destruct (attemptPublish publisher p (clock (S k)) st) as [o st1].
  simpl in Hr. subst o. reflexivity.
Qed.

(** A post whose id is not among the rows that have come due is not
    touched by the sweep. *)
Lemma sweepLoop_untouched (now : Z) (j : jstring) (due : list Post.row) :
  forall (k : nat) (st : Store),
    ~ In j (map Post.id (dueNow now due)) ->
    findPost j (snd (sweepLoop clock publisher now due k st)) = findPost j st.
Proof.
  induction due as [|p rest IH]; intros k st Hnot; [reflexivity|].
  rewrite sweepLoop_cons.
  assert (dueNow now (p :: rest) = dueNow now [p] ++ dueNow now rest) as Hsplit.
  { unfold dueNow. simpl. destruct (match Post.scheduledAt p with
                                    | Some t => t <=? now
                                    | None => false end); reflexivity. }
  rewrite Hsplit, map_app, in_app_iff in Hnot.
  rewrite IH by tauto.
  destruct (dueNow now [p]) as [|d l] eqn:E; [reflexivity|].
  apply attemptPublish_other. intros ->. apply Hnot. left.
  unfold dueNow in E. simpl in E.
  destruct (match Post.scheduledAt p with
            | Some t => t <=? now
            | None => false end); [|discriminate].
  injection E as <- <-. left. reflexivity.
Qed.

End SweepFacts.

Lemma jstring_eq_dec (a b : jstring) : {a = b} + {a <> b}.
Proof.
  destruct (jstring_eqb a b) eqn:E.
  - left. now apply jstring_eqb_eq.
  - right. now apply jstring_eqb_neq.
Qed.

(** With ids unique (the primary key), the row under an id is the only row
    with that id. *)
Lemma findPost_unique (st : Store) (i : jstring) (p d : Post.row) :
  NoDup (map Post.id (posts st)) ->
  findPost i st = Some p ->
  In d (posts st) ->
  Post.id d = i ->
  d = p.
Proof.
  unfold findPost. induction (posts st) as [|a l IH]; simpl;
    intros Hnd Hf Hin Hid; [contradiction|].
  inversion Hnd as [|? ? Hnotin Hnd']; subst. unfold hasKey in Hf at 1.
  destruct (jstring_eqb (Post.id a) (Post.id d)) eqn:E.
  - injection Hf as <-. destruct Hin as [-> | Hin]; [reflexivity|].
    apply jstring_eqb_eq in E. exfalso. apply Hnotin. rewrite E.
    now apply in_map.
  - destruct Hin as [-> | Hin]; [rewrite jstring_eqb_refl in E; discriminate|].
    now apply IH.
Qed.

(** C2, as amended: approval and the periodic sweep bring a post to
    published only from approved.  For a post that is not yet published (ids
    being unique): no approval leaves it published; if the sweep leaves it
    published, it was approved and its scheduled time had come; while the
    manual publish, which does not look at the status, publishes it from
    whatever status it has, draft included, whenever [publishPost] returns. *)
Theorem published_only_from_approved
        (publisher : Post.row -> outcome PublishResult) (clock : nat -> Z)
        (st : Store) (i : jstring) (p : Post.row) :
  NoDup (map Post.id (posts st)) ->
  findPost i st = Some p ->
  Post.status p <> published ->
  (forall j p',
      findPost i (snd (approvePost j st)) = Some p' ->
      Post.status p' <> published)
  /\ (forall p',
        findPost i (snd (sweep clock publisher st)) = Some p' ->
        Post.status p' = published ->
        Post.status p = approved
        /\ exists t, Post.scheduledAt p = Some t /\ t <= clock 0%nat)
  /\ ((exists results, publishPost publisher p = Return results) ->
      findPost i (snd (publishNow clock publisher i st))
      = Some (Post.withPublished p published (clock 0%nat))).
Proof.
  intros Hnd Hp Hstatus. split; [|split].
  - intros j p' Hfind. unfold approvePost in Hfind.
    rewrite bind_getPost in Hfind.
    destruct (findPost j st) as [q|] eqn:Hq.
    + rewrite bind_updatePost in Hfind. cbn [ret snd] in Hfind.
      pose proof (findPost_id _ _ _ Hq) as Hid. rewrite Hid in Hfind.
      destruct (jstring_eq_dec j i) as [-> | Hne].
      * rewrite findPost_update_same, Hp in Hfind by reflexivity.
        injection Hfind as <-. cbn. discriminate.
      * rewrite findPost_update_other, Hp in Hfind by (reflexivity || assumption).
        injection Hfind as <-. exact Hstatus.
    + cbn [ret snd] in Hfind. rewrite Hp in Hfind. injection Hfind as <-.
      exact Hstatus.
  - intros p' Hfind Hpub. unfold sweep in Hfind.
    destruct (in_dec jstring_eq_dec i
                (map Post.id (dueNow (clock 0%nat) (dueQuery st)))) as [Hin|Hnot].
    + apply in_map_iff in Hin. destruct Hin as [d [Hid Hd]].
      unfold dueNow in Hd. apply filter_In in Hd. destruct Hd as [Hd Htime].
      unfold dueQuery in Hd. apply filter_In in Hd. destruct Hd as [Hd Hq].
      apply andb_true_iff in Hq. destruct Hq as [Hq _].
      apply jstring_eqb_eq in Hq.
      pose proof (findPost_unique st i p d Hnd Hp Hd Hid) as ->.
      split; [exact Hq|].
      destruct (Post.scheduledAt p) as [t|]; [|discriminate].
      exists t. split; [reflexivity | now apply Z.leb_le].
    + rewrite (sweepLoop_untouched publisher clock _ _ _ _ _ Hnot), Hp in Hfind.
      injection Hfind as <-. contradiction.
  - intros [results Hr]. unfold publishNow.
    rewrite bind_getPost, Hp. unfold bind at 1.
    rewrite (attemptPublish_returned _ _ _ _ _ Hr).
    rewrite (findPost_id _ _ _ Hp). cbn [snd ret].
    rewrite findPost_update_same by reflexivity. now rewrite Hp.
Qed.

Lemma published_only_from_approved_witness :
  NoDup (map Post.id (posts (Demo.storeWith (Demo.post draft [str "linkedin"]))))
  /\ findPost (str "p1") (Demo.storeWith (Demo.post draft [str "linkedin"]))
     = Some (Demo.post draft [str "linkedin"])
  /\ Post.status (Demo.post draft [str "linkedin"]) <> published
  /\ findPost (str "p1")
       (snd (publishNow Demo.clock publishToLinkedIn (str "p1")
               (Demo.storeWith (Demo.post draft [str "linkedin"]))))
     = Some (Post.withPublished (Demo.post draft [str "linkedin"]) published
                                Demo.monday9).
Proof.
  assert (NoDup (map Post.id
                   (posts (Demo.storeWith (Demo.post draft [str "linkedin"])))))
    as Hnd by (repeat constructor; simpl; tauto).
  assert (Post.status (Demo.post draft [str "linkedin"]) <> published)
    as Hst by (vm_compute; discriminate).
  split; [exact Hnd|]. split; [reflexivity|]. split; [exact Hst|].
  apply (proj2 (proj2 (published_only_from_approved publishToLinkedIn Demo.clock
                  (Demo.storeWith (Demo.post draft [str "linkedin"]))
                  (str "p1") (Demo.post draft [str "linkedin"])
                  Hnd eq_refl Hst))).
  eexists. reflexivity.
Defined.

(** C2 as stated fails: a manual publish of a post in draft, with the
    Publisher of the source, leaves the post published without it ever
    having been approved. *)
Lemma publishNow_from_draft :
  option_map Post.status
    (findPost (str "p1") (Demo.storeWith (Demo.post draft [str "linkedin"])))
  = Some draft
  /\ fst (publishNow Demo.clock publishToLinkedIn (str "p1")
            (Demo.storeWith (Demo.post draft [str "linkedin"])))
     = Return (Json 200)
  /\ option_map Post.status
       (findPost (str "p1")
          (snd (publishNow Demo.clock publishToLinkedIn (str "p1")
                  (Demo.storeWith (Demo.post draft [str "linkedin"])))))
     = Some published.
Proof. repeat split; vm_compute; reflexivity. Qed.

(** The sweep on a draft and on an approved post whose time has come. *)
Example sweep_draft_and_approved :
  option_map Post.status
    (findPost (str "p1")
       (snd (sweep Demo.clock publishToLinkedIn
               (Demo.storeWith (Demo.post draft [str "linkedin"])))))
  = Some draft
  /\ option_map Post.status
       (findPost (str "p1")
          (snd (sweep Demo.clock publishToLinkedIn
                  (Demo.storeWith (Demo.post approved [str "linkedin"])))))
     = Some published.
Proof. split; vm_compute; reflexivity. Qed.

(** * Further properties of the code *)

(** ** The 30-day scan of [nextScheduleTimes] *)

Section ScanFacts.

Import JsDate.

Variable zone : TimeZone.
Variable c : Cadence.
Variable now : Z.

Lemma scanDay_qualifies (i : Z) (times : list Z) :
  canInclude (weekdays c) = true ->
  scanDay zone c now i times
  = Return (if qualifies zone c now i
            then times ++ [scannedTime zone c now i] else times).
Proof.
  intros Hcan. unfold scanDay, qualifies, scannedTime, scannedDate, isoWeekday.
  cbv zeta.
  set (d := setDate zone now (getDate zone now + i)).
  set (wd := (getDay zone d + 6) mod 7 + 1).
  assert (exists b, includes (weekdays c) wd = Return b) as [b ->].
  { unfold includes, canInclude in *.
    destruct (truthy (weekdays c)); [|eauto].
    destruct (weekdays c); simpl in Hcan; try discriminate; eauto. }
  destruct b; reflexivity.
Qed.

(** The loop, from day [i] with [fuel] days to go, returns the first
    [count] of what it has plus the qualifying days still ahead. *)
Lemma scan_firstn (count : Z) (fuel : nat) :
  canInclude (weekdays c) = true ->
  forall (i : Z) (times : list Z),
    i + Z.of_nat fuel = 30 ->
    (length times <= Z.to_nat count)%nat ->
    scan zone c count now fuel i times
    = Return (firstn (Z.to_nat count)
                (times ++ map (scannedTime zone c now)
                              (filter (qualifies zone c now) (seqZ i fuel)))).
Proof.
  intros Hcan. induction fuel as [|fuel IH]; intros i times Hi Hlen.
  - simpl. rewrite app_nil_r, firstn_all2 by exact Hlen. reflexivity.
  - cbn [scan].
    assert ((i <? 30) = true) as -> by (apply Z.ltb_lt; lia).
    cbn [andb].
    destruct (Z.of_nat (length times) <? count) eqn:Hlt.
    + apply Z.ltb_lt in Hlt. rewrite scanDay_qualifies by exact Hcan.
      rewrite IH.
      * cbn [seqZ filter].
        destruct (qualifies zone c now i); cbn [map];
          [rewrite <- app_assoc|]; reflexivity.
      * lia.
      * destruct (qualifies zone c now i); [rewrite length_app; simpl|]; lia.
    + apply Z.ltb_ge in Hlt.
      assert (length times = Z.to_nat count) as Heq by lia.
      rewrite firstn_app, Heq, Nat.sub_diag, firstn_O, app_nil_r.
      rewrite <- Heq, firstn_all. reflexivity.
Qed.

Lemma nextScheduleTimes_firstn (count : Z) :
  canInclude (weekdays c) = true ->
  nextScheduleTimes zone c count now
  = Return (firstn (Z.to_nat count) (candidates zone c now)).
Proof.
  intros Hcan. unfold nextScheduleTimes, candidates.
  rewrite (scan_firstn count 30 Hcan 0 []); [reflexivity | reflexivity |].
  simpl. lia.
Qed.

End ScanFacts.

Section ScanFixedOffset.

Import JsDate.

Variable tza : Z.
Variable c : Cadence.
Variable now : Z.

(** The timestamp of day [i] in closed form: the local day of [now] plus
    [i], at the cadence's time of day. *)
Lemma scannedTime_eq (i : Z) :
  scannedTime tza c now i
  = (Day (LocalTime tza now) + i) * msPerDay
    + nullish (hour c) 10 * msPerHour + nullish (minute c) 0 * msPerMinute
    - tza.
Proof.
  unfold scannedTime, scannedDate. rewrite setDate_getDate.
  unfold setHours, UTC, MakeDate, MakeTime, LocalTime, Day, msPerSecond.
  fixed_offset.
  replace (now + i * msPerDay + tza) with (now + tza + i * msPerDay) by lia.
  rewrite Z.div_add by (unfold msPerDay; lia). lia.
Qed.

Lemma scannedTime_lt (i j : Z) :
  i < j -> scannedTime tza c now i < scannedTime tza c now j.
Proof.
  intros H. rewrite !scannedTime_eq. unfold msPerDay. lia.
Qed.

End ScanFixedOffset.

(** ** Sorted lists of integers *)

Lemma seqZ_In (n : nat) :
  forall a i, In i (seqZ a n) <-> a <= i < a + Z.of_nat n.
Proof.
  induction n as [|n IH]; intros a i; simpl seqZ.
  - simpl. lia.
  - simpl In. rewrite IH. lia.
Qed.

Lemma seqZ_sorted (n : nat) : forall a, StronglySorted Z.lt (seqZ a n).
Proof.
  induction n as [|n IH]; intros a; simpl; constructor.
  - apply IH.
  - apply Forall_forall. intros i Hi. apply seqZ_In in Hi. lia.
Qed.

Lemma seqZ_NoDup (n : nat) : forall a, NoDup (seqZ a n).
Proof.
  induction n as [|n IH]; intros a; simpl; constructor.
  - intros Hin. apply seqZ_In in Hin. lia.
  - apply IH.
Qed.

Section SortedFacts.

Variable A : Type.
Variable R : A -> A -> Prop.

Lemma StronglySorted_filter (f : A -> bool) (l : list A) :
  StronglySorted R l -> StronglySorted R (filter f l).
Proof.
  induction 1 as [|a l Hl IH Ha]; simpl; [constructor|].
  destruct (f a); [|exact IH].
  constructor; [exact IH|].
  rewrite Forall_forall in *. intros x Hx. apply filter_In in Hx.
  apply Ha. tauto.
Qed.

Lemma StronglySorted_firstn (n : nat) (l : list A) :
  StronglySorted R l -> StronglySorted R (firstn n l).
Proof.
  intros H. revert n. induction H as [|a l Hl IH Ha]; intros [|n]; simpl;
    try constructor.
  - apply IH.
  - rewrite Forall_forall in *. intros x Hx. apply Ha.
    rewrite <- (firstn_skipn n l). apply in_or_app. now left.
Qed.

End SortedFacts.

Lemma StronglySorted_map_lt (f : Z -> Z) (l : list Z) :
  (forall i j, i < j -> f i < f j) ->
  StronglySorted Z.lt l -> StronglySorted Z.lt (map f l).
Proof.
  intros Hf. induction 1 as [|a l Hl IH Ha]; simpl; constructor.
  - exact IH.
  - rewrite Forall_forall in *. intros y Hy. apply in_map_iff in Hy.
    destruct Hy as [x [<- Hx]]. apply Hf. now apply Ha.
Qed.

(** ** CadencePlanner, continued *)

Lemma candidates_sorted (tza : Z) (c : Cadence) (now : Z) :
  StronglySorted Z.lt (candidates tza c now).
Proof.
  unfold candidates. apply StronglySorted_map_lt.
  - apply scannedTime_lt.
  - apply StronglySorted_filter. apply seqZ_sorted.
Qed.

Lemma candidates_In (zone : JsDate.TimeZone) (c : Cadence) (now t : Z) :
  In t (candidates zone c now) ->
  exists i, 0 <= i < 30 /\ t = scannedTime zone c now i
            /\ qualifies zone c now i = true.
Proof.
  unfold candidates. intros H. apply in_map_iff in H.
  destruct H as [i [<- Hi]]. apply filter_In in Hi. destruct Hi as [Hi Hq].
  apply seqZ_In in Hi. exists i. repeat split; try lia. exact Hq.
Qed.

(** Within the range of [withinDateRange] no date of the scan is
    invalid: the date of each day and its timestamp are time values. *)
Lemma withinDateRange_valid (zone : JsDate.TimeZone) (c : Cadence)
      (now i : Z) :
  withinDateRange zone c now ->
  0 <= i < 30 ->
  Z.abs (scannedDate zone now i) <= JsDate.maxTime
  /\ Z.abs (scannedTime zone c now i) <= JsDate.maxTime.
Proof.
  intros [Hn [Hh [Hm Hz]]] Hi.
  unfold scannedTime, scannedDate, JsDate.setHours, JsDate.setDate,
    JsDate.getDate, JsDate.UTC, JsDate.LocalTime, JsDate.MakeDate,
    JsDate.MakeTime, JsDate.TimeWithinDay, JsDate.Day.
  cbv zeta.
  repeat match goal with
         | |- context [JsDate.offsetAt zone ?t] =>
             let o := fresh "o" in
             let Ho := fresh "Ho" in
             pose proof (proj1 (Hz t)) as Ho;
             set (o := JsDate.offsetAt zone t) in *; clearbody o
         | |- context [JsDate.offsetOfLocal zone ?t] =>
             let o := fresh "o" in
             let Ho := fresh "Ho" in
             pose proof (proj2 (Hz t)) as Ho;
             set (o := JsDate.offsetOfLocal zone t) in *; clearbody o
         end.
  clear Hz.
  set (D := JsDate.DateFromTime _) in *. clearbody D.
  unfold JsDate.maxTime, JsDate.msPerDay, JsDate.msPerHour,
    JsDate.msPerMinute, JsDate.msPerSecond in *.
  Z.div_mod_to_equations. lia.
Qed.

(** X1: on a weekday value that is an array, a string or falsy, in any time
    zone and as long as no date leaves the range of time values,
    [nextScheduleTimes] returns the first [count] (none when [count] is not
    positive) of the timestamps of the qualifying days among days 0..29
    from today, in day order; a day qualifies when its weekday is included
    and its timestamp at the cadence's time is strictly after [now]. *)
Theorem nextScheduleTimes_first_qualifying
        (zone : JsDate.TimeZone) (c : Cadence) (count now : Z) :
  canInclude (weekdays c) = true ->
  withinDateRange zone c now ->
  nextScheduleTimes zone c count now
  = Return (firstn (Z.to_nat count)
              (map (scannedTime zone c now)
                   (filter (qualifies zone c now) (seqZ 0 30)))).
Proof.
  intros H _. rewrite (nextScheduleTimes_firstn zone c now count H).
  unfold candidates. reflexivity.
Qed.

Lemma nextScheduleTimes_first_qualifying_witness :
  nextScheduleTimes Demo.newYork
                    (mkCadence (JArr [JNum 2; JNum 5]) (Some 10) (Some 0))
                    3 Demo.monday9
  = Return (firstn 3
              (map (scannedTime Demo.newYork
                                (mkCadence (JArr [JNum 2; JNum 5])
                                           (Some 10) (Some 0)) Demo.monday9)
                   (filter (qualifies Demo.newYork
                                      (mkCadence (JArr [JNum 2; JNum 5])
                                                 (Some 10) (Some 0))
                                      Demo.monday9)
                           (seqZ 0 30)))).
Proof.
  apply (nextScheduleTimes_first_qualifying Demo.newYork
           (mkCadence (JArr [JNum 2; JNum 5]) (Some 10) (Some 0)) 3
           Demo.monday9).
  - reflexivity.
  - unfold withinDateRange, Demo.monday9, JsDate.msPerDay. cbn [nullish hour minute].
    repeat split; try lia;
      cbn [JsDate.offsetAt JsDate.offsetOfLocal Demo.newYork];
      match goal with |- context [if ?b then _ else _] => destruct b end; lia.
Defined.



(** X3: in a zone that keeps one offset, and as long as no date leaves the
    range of time values, every timestamp that [nextScheduleTimes] returns
    is strictly after [now] and is, for one of the days [i] in 0..29, the
    local midnight of today plus [i] days, plus [hour] hours and [minute]
    minutes (10 and 0 when unset), whether or not the hour and the minute
    are those of a time of day. *)
Theorem nextScheduleTimes_in_window
        (zone : JsDate.TimeZone) (tza : Z) (c : Cadence) (count now : Z)
        (ts : list Z) (t : Z) :
  keepsOffset zone tza ->
  withinDateRange zone c now ->
  nextScheduleTimes zone c count now = Return ts ->
  In t ts ->
  now < t
  /\ exists i,
      0 <= i < 30
      /\ t = (JsDate.Day (JsDate.LocalTime zone now) + i) * JsDate.msPerDay
             + nullish (hour c) 10 * JsDate.msPerHour
             + nullish (minute c) 0 * JsDate.msPerMinute
             - tza.
Proof.
  intros Hk _ H Hin.
  rewrite (nextScheduleTimes_keeps zone tza Hk) in H.
  rewrite (LocalTime_keeps zone tza Hk).
  destruct (canInclude_or_not (weekdays c)) as [Hcan | Hno].
  - rewrite (nextScheduleTimes_firstn tza c now count Hcan) in H.
    injection H as <-.
    assert (In t (candidates tza c now)) as Hc.
    { rewrite <- (firstn_skipn (Z.to_nat count) (candidates tza c now)).
      apply in_or_app. now left. }
    apply candidates_In in Hc. destruct Hc as [i [Hi [-> Hq]]].
    split.
    + unfold qualifies in Hq.
      destruct (includes _ _) as [b|]; [|discriminate].
      apply andb_true_iff in Hq. destruct Hq as [_ Hq].
      now apply Z.gtb_lt in Hq.
    + exists i. split; [exact Hi | apply scannedTime_eq].
  - rewrite (scan_noIncludes tza c count now Hno) in H.
    destruct (0 <? count); [discriminate|]. injection H as <-. contradiction.
Qed.

Lemma nextScheduleTimes_in_window_witness :
  Demo.monday9 < 1704175200000
  /\ exists i,
      0 <= i < 30
      /\ 1704175200000
         = (JsDate.Day (JsDate.LocalTime 0 Demo.monday9) + i) * JsDate.msPerDay
           + nullish (Some 30) 10 * JsDate.msPerHour
           + nullish (Some 0) 0 * JsDate.msPerMinute - 0.
Proof.
  apply (nextScheduleTimes_in_window 0 0
           (mkCadence (JArr [JNum 1]) (Some 30) (Some 0)) 1 Demo.monday9
           [1704175200000]).
  - apply keepsOffset_fixed.
  - unfold withinDateRange, Demo.monday9, JsDate.msPerDay.
    cbn [nullish hour minute JsDate.offsetAt JsDate.offsetOfLocal JsDate.fixed].
    repeat split; lia.
  - vm_compute. reflexivity.
  - left. reflexivity.
Defined.

Lemma includes_false_no_candidates (zone : JsDate.TimeZone) (c : Cadence) (now : Z) :
  (forall wd, includes (weekdays c) wd = Return false) ->
  candidates zone c now = [].
Proof.
  intros H. unfold candidates.
  assert (forall l, filter (qualifies zone c now) l = []) as ->; [|reflexivity].
  induction l as [|i l IH]; simpl; [reflexivity|].
  unfold qualifies at 1. rewrite H. exact IH.
Qed.

(** X4: a cadence whose weekday value is missing, [null], otherwise falsy,
    or the empty array yields the empty sequence, for every count and every
    instant. *)
Theorem nextScheduleTimes_no_weekdays
        (tza : Z) (c : Cadence) (count now : Z) :
  truthy (weekdays c) = false \/ weekdays c = JArr [] ->
  nextScheduleTimes tza c count now = Return [].
Proof.
  intros H.
  assert (canInclude (weekdays c) = true) as Hcan.
  { unfold canInclude. destruct H as [-> | ->]; reflexivity. }
  rewrite (nextScheduleTimes_firstn tza c now count Hcan).
  rewrite includes_false_no_candidates; [now rewrite firstn_nil|].
  intros wd. unfold includes. destruct H as [-> | ->]; reflexivity.
Qed.

Lemma nextScheduleTimes_no_weekdays_witness :
  nextScheduleTimes 0 (mkCadence (JArr []) (Some 10) (Some 0)) 5 Demo.monday9
  = Return []
  /\ nextScheduleTimes 0 (mkCadence JNull (Some 10) (Some 0)) 5 Demo.monday9
     = Return [].
Proof.
  split.
  - apply nextScheduleTimes_no_weekdays. right. reflexivity.
  - apply nextScheduleTimes_no_weekdays. left. reflexivity.
Defined.

(** X5: a weekday value that is truthy and neither an array nor a string
    (a number, [true], an object) has no [includes] method: asked for at
    least one time, [nextScheduleTimes] throws a [TypeError]. *)
Theorem nextScheduleTimes_throws_without_includes
        (tza : Z) (c : Cadence) (count now : Z) :
  noIncludes (weekdays c) = true ->
  0 < count ->
  nextScheduleTimes tza c count now = Throw "TypeError".
Proof.
  intros Hno Hc. rewrite (scan_noIncludes tza c count now Hno).
  apply Z.ltb_lt in Hc. now rewrite Hc.
Qed.

Lemma nextScheduleTimes_throws_without_includes_witness :
  nextScheduleTimes 0 (mkCadence (JNum 5) (Some 10) (Some 0)) 1 Demo.monday9
  = Throw "TypeError".
Proof.
  apply nextScheduleTimes_throws_without_includes; [reflexivity | lia].
Defined.

Section EnoughDays.

Import JsDate.

Variable tza : Z.
Variable c : Cadence.
Variable now : Z.
Variable elems : list JsValue.
Variable q : Q.
Variable w : Z.

Hypothesis weekdays_array : weekdays c = JArr elems.
Hypothesis listed : In (JNum q) elems.
Hypothesis listed_value : (q == inject_Z w)%Q.
Hypothesis weekday_range : 1 <= w <= 7.
Hypothesis hour_range : 0 <= nullish (hour c) 10 <= 23.
Hypothesis minute_range : 0 <= nullish (minute c) 0 <= 59.

Lemma isoWeekday_scannedDate (i : Z) :
  isoWeekday tza (scannedDate tza now i)
  = ((Day (LocalTime tza now) + i + 4) mod 7 + 6) mod 7 + 1.
Proof.
  unfold isoWeekday, scannedDate. rewrite setDate_getDate.
  unfold getDay, WeekDay, LocalTime, Day. fixed_offset.
  replace (now + i * msPerDay + tza) with (now + tza + i * msPerDay) by lia.
  rewrite Z.div_add by (unfold msPerDay; lia). reflexivity.
Qed.

(** A later day on the listed weekday qualifies. *)
Lemma later_day_qualifies (i : Z) :
  1 <= i ->
  isoWeekday tza (scannedDate tza now i) = w ->
  qualifies tza c now i = true.
Proof.
  intros Hi Hw. unfold qualifies. rewrite Hw, weekdays_array.
  cbn [includes truthy].
  assert (existsb (isNumber w) elems = true) as ->.
  { apply existsb_exists. exists (JNum q). split; [exact listed|].
    simpl. now apply Qeq_bool_iff. }
  cbn [andb]. apply Z.gtb_lt. rewrite scannedTime_eq.
  pose proof (Z.div_mod (LocalTime tza now) msPerDay) as Hdm.
  pose proof (Z.mod_pos_bound (LocalTime tza now) msPerDay) as Hb.
  unfold Day, LocalTime, msPerDay, msPerHour, msPerMinute in *.
  fixed_offset. lia.
Qed.

(** One of the days 1..7 falls on the listed weekday. *)
Lemma some_day_on_weekday :
  exists i, 1 <= i <= 7 /\ isoWeekday tza (scannedDate tza now i) = w.
Proof.
  set (D := Day (LocalTime tza now)).
  set (r := (w - D - 4) mod 7).
  exists (if r =? 0 then 7 else r).
  rewrite isoWeekday_scannedDate. fold D.
  pose proof (Z.mod_pos_bound (w - D - 4) 7) as Hr. fold r in Hr.
  destruct (r =? 0) eqn:E.
  - apply Z.eqb_eq in E. split; [lia|].
    subst r. Z.div_mod_to_equations. lia.
  - apply Z.eqb_neq in E. split; [lia|].
    subst r. Z.div_mod_to_equations. lia.
Qed.

Lemma three_days_qualify :
  (3 <= length (candidates tza c now))%nat.
Proof.
  destruct some_day_on_weekday as [i [Hi Hw]].
  unfold candidates. rewrite length_map.
  assert (forall k, 0 <= k <= 2 ->
            isoWeekday tza (scannedDate tza now (i + 7 * k)) = w) as Hk.
  { intros k Hk. rewrite isoWeekday_scannedDate in *.
    rewrite <- Hw. Z.div_mod_to_equations. lia. }
  apply (NoDup_incl_length (l := [i; i + 7; i + 14])).
  - repeat constructor; simpl; lia.
  - intros x Hx. apply filter_In.
    assert (exists k, 0 <= k <= 2 /\ x = i + 7 * k) as [k [Hk' ->]].
    { simpl in Hx. destruct Hx as [<- | [<- | [<- | []]]];
        [exists 0 | exists 1 | exists 2]; lia. }
    split; [apply seqZ_In; lia|].
    apply later_day_qualifies; [lia | now apply Hk].
Qed.

End EnoughDays.



(** ** WeightedSelector, continued *)

Section PickWeightedMore.

Local Open Scope Q_scope.

Lemma walk_In (items : list WeightedItem) :
  forall n it, walk items n = Some it -> In it items.
Proof.
  induction items as [|a items IH]; intros n it; simpl; [discriminate|].
  destruct (Qle_bool (n - weightOr0 a) 0).
  - intros [= <-]. now left.
  - intros H. right. now apply (IH _ _ H).
Qed.

Lemma fold_left_sumWeights (items : list WeightedItem) :
  forall acc,
    fold_left (fun x b => x + weightOr0 b) items acc == acc + sumWeights items.
Proof.
  induction items as [|a items IH]; intros acc; simpl.
  - lra.
  - transitivity (acc + weightOr0 a + sumWeights items); [apply IH | lra].
Qed.

Lemma sumWeights_zeros (items : list WeightedItem) :
  Forall (fun it => weightOr0 it == 0) items -> sumWeights items == 0.
Proof.
  induction 1 as [|a items Ha _ IH]; simpl; [reflexivity | lra].
Qed.

(** Past items of weight zero a positive remainder never stops. *)
Lemma walk_zeros_positive (items : list WeightedItem) :
  Forall (fun it => weightOr0 it == 0) items ->
  forall n, 0 < n -> walk items n = None.
Proof.
  induction 1 as [|a items Ha _ IH]; intros n Hn; simpl; [reflexivity|].
  destruct (Qle_bool (n - weightOr0 a) 0) eqn:E.
  - apply Qle_bool_iff in E. lra.
  - apply IH. lra.
Qed.

End PickWeightedMore.

(** X7: [pickWeighted] returns an element of its input, whatever the
    weights and the draw; it returns [undefined] only for the empty list. *)
Theorem pickWeighted_member (items : list WeightedItem) (random : Q) :
  match pickWeighted items random with
  | Some it => In it items
  | None => items = []
  end.
Proof.
  unfold pickWeighted.
  destruct (walk items _) as [it|] eqn:Hw.
  - now apply walk_In in Hw.
  - destruct items; simpl; [reflexivity | now left].
Qed.

(** X8: when every weight is zero or missing, [pickWeighted] returns the
    first item, for every value of [Math.random()]. *)
Theorem pickWeighted_all_zero (items : list WeightedItem) (random : Q) :
  Forall (fun it => (weightOr0 it == 0)%Q) items ->
  pickWeighted items random = hd_error items.
Proof.
  intros Hz. unfold pickWeighted.
  pose proof (fold_left_sumWeights items 0) as Hsum.
  pose proof (sumWeights_zeros items Hz) as Hzero.
  set (sum := fold_left _ _ _) in *.
  assert (Qeq_bool sum 0 = true) as -> by (apply Qeq_bool_iff; lra).
  destruct items as [|a items]; [reflexivity|].
  simpl hd_error. cbn [walk].
  inversion Hz as [|? ? Ha Hrest]; subst.
  destruct (Qle_bool (random * 1 - weightOr0 a) 0) eqn:E; [reflexivity|].
  rewrite walk_zeros_positive; [reflexivity | exact Hrest |].
  assert (~ (random * 1 - weightOr0 a <= 0)%Q) as E'.
  { intros Hc. apply Qle_bool_iff in Hc. congruence. }
  lra.
Qed.

Lemma pickWeighted_all_zero_witness :
  pickWeighted [mkItem (str "a") (str "A") (Some 0%Q);
                mkItem (str "b") (str "B") None] (3 # 4)
  = hd_error [mkItem (str "a") (str "A") (Some 0%Q);
              mkItem (str "b") (str "B") None].
Proof.
  apply pickWeighted_all_zero.
  repeat constructor.
Defined.

(** Once the remainder is positive, the walk does not stop at an item of
    weight zero: subtracting zero leaves the remainder as it is. *)
Lemma walk_skips_zero (items : list WeightedItem) :
  forall (n : Q) (it : WeightedItem),
    (0 < n)%Q -> walk items n = Some it -> ~ (weightOr0 it == 0)%Q.
Proof.
  induction items as [|a items IH]; intros n it Hn; simpl; [discriminate|].
  destruct (Qle_bool (n - weightOr0 a) 0) eqn:E.
  - intros [= <-] Hz. apply Qle_bool_iff in E. rewrite Hz in E. lra.
  - apply IH.
    destruct (Qlt_le_dec 0 (n - weightOr0 a)) as [Hpos | Hle]; [exact Hpos|].
    apply Qle_bool_iff in Hle. congruence.
Qed.

(** X9: whatever the weights and the value of [Math.random()], an item of
    weight zero (or without a weight) is selected only in the first place of
    the list: the item that [pickWeighted] returns is the first item or has
    a weight that is not zero. *)
Theorem pickWeighted_zero_only_first
        (items : list WeightedItem) (random : Q) (it : WeightedItem) :
  pickWeighted items random = Some it ->
  hd_error items = Some it \/ ~ (weightOr0 it == 0)%Q.
Proof.
  unfold pickWeighted.
  set (n := (random * _)%Q). clearbody n.
  destruct (walk items n) as [x|] eqn:Hw; [|now left].
  intros [= <-]. destruct items as [|a items]; [discriminate|].
  cbn [walk] in Hw.
  destruct (Qle_bool (n - weightOr0 a) 0) eqn:E.
  - left. simpl. congruence.
  - right. apply (walk_skips_zero items (n - weightOr0 a)%Q); [|exact Hw].
    destruct (Qlt_le_dec 0 (n - weightOr0 a)) as [Hpos | Hle]; [exact Hpos|].
    apply Qle_bool_iff in Hle. congruence.
Qed.

Lemma pickWeighted_zero_only_first_witness :
  hd_error [mkItem (str "a") (str "A") (Some 100%Q);
            mkItem (str "b") (str "B") (Some 0%Q);
            mkItem (str "c") (str "C") (Some 50%Q)]
  = Some (mkItem (str "c") (str "C") (Some 50%Q))
  \/ ~ (weightOr0 (mkItem (str "c") (str "C") (Some 50%Q)) == 0)%Q.
Proof.
  apply (pickWeighted_zero_only_first
           [mkItem (str "a") (str "A") (Some 100%Q);
            mkItem (str "b") (str "B") (Some 0%Q);
            mkItem (str "c") (str "C") (Some 50%Q)] (3 # 4)).
  vm_compute. reflexivity.
Defined.

(** What [pickWeighted] picks is an item of the list. *)
Lemma pickWeighted_In (items : list WeightedItem) (random : Q)
      (it : WeightedItem) :
  pickWeighted items random = Some it -> In it items.
Proof.
  unfold pickWeighted. destruct (walk items _) as [x|] eqn:Hw.
  - intros [= <-]. now apply walk_In in Hw.
  - destruct items; simpl; [discriminate | intros [= <-]; now left].
Qed.

(** ** DraftComposer, continued *)

Section ComposerMore.

Variable zone : JsDate.TimeZone.
Variable random : nat -> Q.
Variable uid : nat -> jstring.
Variable clock : nat -> Z.
Variable chat : Prompt -> outcome Content.

Lemma prepare_unfold (brandId : jstring) (count : Z) (st : Store)
      (brand : Brand.row) :
  findBrand brandId st = Some brand ->
  prepare random brandId count st
  = (match buildPrompt brand count
             (selections random (effectivePillars brand)
                         (effectiveFormats brand) (Z.to_nat count) 0) with
     | Return prompt =>
         Return (brand,
                 selections random (effectivePillars brand)
                            (effectiveFormats brand) (Z.to_nat count) 0,
                 prompt)
     | Throw e => Throw e
     end, st).
Proof.
  intros Hb. unfold prepare. rewrite bind_getBrand, Hb.
  unfold effectivePillars, effectiveFormats.
  destruct (buildPrompt brand count _); reflexivity.
Qed.

Lemma buildPrompt_order (brand : Brand.row) (count : Z) (sels : list Selection) :
  match orderOf sels with
  | Return order =>
      exists prompt, buildPrompt brand count sels = Return prompt
                     /\ p_order prompt = order /\ p_count prompt = count
                     /\ p_brand prompt = Brand.name brand
  | Throw e => buildPrompt brand count sels = Throw e
  end.
Proof.
  unfold buildPrompt. destruct (orderOf sels); [|reflexivity].
  eexists. split; [reflexivity|]. auto.
Qed.

(** With an empty list to draw from, the first selection has no label to
    read. *)
Lemma orderOf_empty_list (pillars formats : list WeightedItem) (n k : nat) :
  pillars = [] \/ formats = [] ->
  orderOf (selections random pillars formats (S n) k) = Throw "TypeError".
Proof.
  intros H. simpl.
  destruct H as [-> | ->].
  - reflexivity.
  - unfold labelOf at 1.
    destruct (pickWeighted pillars (random k)); reflexivity.
Qed.

(** One item, with every column of the row it inserts. *)
Lemma createDraft_row (brand : Brand.row) (sels : list Selection)
      (times : list Z) (i : nat) (it : JsValue) (st : Store) :
  (exists e, createDraft uid clock brand sels times i it st = (Throw e, st))
  \/ (exists p,
        createDraft uid clock brand sels times i it st
        = (Return p, mkStore (brands st) (posts st ++ [p]))
        /\ Post.id p = uid i
        /\ Post.brand p = Brand.id brand
        /\ Post.status p = draft
        /\ Post.platformTargets p = Brand.platforms brand
        /\ Post.createdAt p = clock (S i)
        /\ Post.scheduledAt p = nth_error times i
        /\ Post.publishedAt p = None
        /\ findPost (uid i) st = None).
Proof.
  unfold createDraft.
  destruct (draftText it) as [t|e] eqn:Ht;
    [rewrite bind_lift_Return | rewrite bind_lift_Throw; eauto].
  destruct (propOr it "pillarKey" _) as [pk|e];
    [rewrite bind_lift_Return | rewrite bind_lift_Throw; eauto].
  destruct (propOr it "pillarLabel" _) as [pl|e];
    [rewrite bind_lift_Return | rewrite bind_lift_Throw; eauto].
  destruct (propOr it "formatKey" _) as [fk|e];
    [rewrite bind_lift_Return | rewrite bind_lift_Throw; eauto].
  unfold bind, insertPost, ret. cbn [Post.id].
  destruct (existsb _ (posts st)) eqn:Hex.
  - left. eauto.
  - right. eexists. split; [reflexivity|].
    cbn [Post.id Post.brand Post.status Post.platformTargets Post.createdAt
         Post.scheduledAt Post.publishedAt].
    repeat split.
    unfold findPost. destruct (find _ (posts st)) as [p|] eqn:Hf; [|reflexivity].
    apply find_some in Hf. destruct Hf as [Hin Hk].
    assert (existsb (hasKey Post.id (uid i)) (posts st) = true) as Hc
        by (apply existsb_exists; eauto).
    congruence.
Qed.

Lemma createDrafts_rows (brand : Brand.row) (sels : list Selection)
      (times : list Z) (items : list JsValue) :
  forall (i : nat) (st st' : Store) r,
    createDrafts uid clock brand sels times i items st = (r, st') ->
    exists new,
      st' = mkStore (brands st) (posts st ++ new)
      /\ (length new <= length items)%nat
      /\ (forall k p, nth_error new k = Some p ->
            Post.id p = uid (i + k)
            /\ Post.brand p = Brand.id brand
            /\ Post.status p = draft
            /\ Post.platformTargets p = Brand.platforms brand
            /\ Post.createdAt p = clock (S (i + k))
            /\ Post.scheduledAt p = nth_error times (i + k)
            /\ Post.publishedAt p = None)
      /\ (forall created, r = Return created ->
            created = new /\ length new = length items).
Proof.
  clear zone random chat.
  induction items as [|it items IH]; intros i st st' r; simpl.
  - intros [= <- <-]. exists []. rewrite app_nil_r. destruct st.
    split; [reflexivity|]. split; [simpl; lia|].
    split; [intros [|k] p; discriminate|].
    intros created [= <-]. auto.
  - unfold bind at 1.
    destruct (createDraft_row brand sels times i it st)
      as [[e He] | [p [Hp Hrow]]].
    + rewrite He. intros [= <- <-]. exists []. rewrite app_nil_r.
      destruct st. split; [reflexivity|]. split; [simpl; lia|].
      split; [intros [|k] p; discriminate | discriminate].
    + rewrite Hp. unfold bind at 1.
      destruct (createDrafts uid clock brand sels times (S i) items _)
        as [r1 st1] eqn:Hrest.
      apply IH in Hrest. destruct Hrest as [new [-> [Hlen [Hall Hret]]]].
      cbn [brands posts] in *. rewrite <- app_assoc. simpl app.
      intros Hr. exists (p :: new).
      split; [destruct r1; now inversion Hr|].
      split; [simpl; lia|].
      split.
      * intros [|k] q Hq; simpl in Hq.
        -- injection Hq as <-. rewrite Nat.add_0_r. tauto.
        -- replace (i + S k)%nat with (S i + k)%nat by lia. now apply Hall.
      * intros created ->. destruct r1 as [ps|e]; [|discriminate Hr].
        unfold ret in Hr. injection Hr as Hc _.
        destruct (Hret ps eq_refl) as [-> Hlen']. simpl. split; congruence.
Qed.

End ComposerMore.

Lemma Forall2_left {A B : Type} (R : A -> B -> Prop) (l : list A)
      (l' : list B) :
  Forall2 R l l' -> Forall (fun a => exists b, R a b) l.
Proof. induction 1; constructor; eauto. Qed.

Section ComposerTheorems.

Variable zone : JsDate.TimeZone.
Variable random : nat -> Q.
Variable uid : nat -> jstring.
Variable clock : nat -> Z.
Variable chat : Prompt -> outcome Content.

(** The call, once the brand is found. *)
Lemma generate_unfold (brandId : jstring) (count : Z) (st : Store)
      (brand : Brand.row) :
  findBrand brandId st = Some brand ->
  generatePostsForBrand zone random uid clock chat brandId count st
  = match buildPrompt brand count
            (selections random (effectivePillars brand)
                        (effectiveFormats brand) (Z.to_nat count) 0) with
    | Return prompt =>
        match chat prompt with
        | Return res =>
            compose zone uid clock brand
                    (selections random (effectivePillars brand)
                                (effectiveFormats brand) (Z.to_nat count) 0)
                    res st
        | Throw e => (Throw e, st)
        end
    | Throw e => (Throw e, st)
    end.
Proof.
  intros Hb. unfold generatePostsForBrand, bind at 1.
  rewrite (prepare_unfold random brandId count st brand Hb).
  destruct (buildPrompt brand count _) as [prompt|e]; [|reflexivity].
  unfold bind, lift. destruct (chat prompt); reflexivity.
Qed.

(** The call either throws before any insertion or goes on to [compose]
    for the brand found. *)
Lemma generate_cases (brandId : jstring) (count : Z) (st : Store) :
  (exists e,
      generatePostsForBrand zone random uid clock chat brandId count st
      = (Throw e, st))
  \/ (exists brand sels res,
        findBrand brandId st = Some brand
        /\ generatePostsForBrand zone random uid clock chat brandId count st
           = compose zone uid clock brand sels res st).
Proof.
  destruct (findBrand brandId st) as [brand|] eqn:Hb.
  - rewrite (generate_unfold brandId count st brand Hb).
    destruct (buildPrompt brand count _) as [prompt|e]; [|left; eauto].
    destruct (chat prompt) as [res|e]; [|left; eauto].
    right. exists brand. do 2 eexists. split; reflexivity.
  - left. exists "Brand not found".
    unfold generatePostsForBrand, bind at 1, prepare.
    rewrite bind_getBrand, Hb. reflexivity.
Qed.

Lemma compose_appends (brand : Brand.row) (sels : list Selection)
      (res : Content) (st : Store) :
  exists new,
    snd (compose zone uid clock brand sels res st)
    = mkStore (brands st) (posts st ++ new)
    /\ Forall (fun p => Post.status p = draft
                        /\ Post.brand p = Brand.id brand
                        /\ ~ In emDash (Post.text p)) new.
Proof.
  assert (mkStore (brands st) (posts st ++ []) = st) as Hst
      by (rewrite app_nil_r; now destruct st).
  unfold compose. destruct (itemsOf res) as [| | | | |items|];
    try (exists []; cbn [throw snd]; rewrite Hst; split; [reflexivity|constructor]).
  destruct (nextScheduleTimes _ _ _ _) as [times|e].
  - rewrite bind_lift_Return.
    destruct (createDrafts uid clock brand sels times 0 items st)
      as [r st'] eqn:Hrun.
    pose proof Hrun as Hrun2.
    apply createDrafts_spec in Hrun. destruct Hrun as [new [-> [Hall _]]].
    apply createDrafts_rows in Hrun2.
    destruct Hrun2 as [new2 [Heq [_ [Hrows _]]]].
    injection Heq as Heq. apply app_inv_head in Heq. subst new2.
    exists new. cbn [snd]. split; [reflexivity|].
    apply Forall_forall. intros p Hp.
    apply In_nth_error in Hp. destruct Hp as [k Hk].
    destruct (Hrows k p Hk) as [_ [Hb [Hs _]]].
    split; [exact Hs|]. split; [exact Hb|].
    apply nth_error_In in Hk.
    pose proof (Forall2_left _ _ _ Hall) as Hleft.
    rewrite Forall_forall in Hleft.
    destruct (Hleft p Hk) as [it [Ht _]]. rewrite Ht.
    apply replaceEmDash_clean.
  - rewrite bind_lift_Throw. exists []. cbn [snd]. rewrite Hst.
    split; [reflexivity | constructor].
Qed.

End ComposerTheorems.

(** X10: for a brand id that is not in the table, [generatePostsForBrand]
    throws 'Brand not found' and leaves the store as it was, whatever the
    generator would answer. *)
Theorem generate_unknown_brand
        (tza : Z) (random : nat -> Q) (uid : nat -> jstring) (clock : nat -> Z)
        (chat : Prompt -> outcome Content)
        (brandId : jstring) (count : Z) (st : Store) :
  findBrand brandId st = None ->
  generatePostsForBrand tza random uid clock chat brandId count st
  = (Throw "Brand not found", st).
Proof.
  intros Hb. unfold generatePostsForBrand, bind at 1, prepare.
  rewrite bind_getBrand, Hb. reflexivity.
Qed.

Lemma generate_unknown_brand_witness :
  generatePostsForBrand 0 Demo.random Demo.uid Demo.clock Demo.chatTwo
                        (str "nobody") 2 Demo.store
  = (Throw "Brand not found", Demo.store).
Proof. apply generate_unknown_brand. reflexivity. Defined.



(** Selections whose labels can all be read are made of items of the two
    lists. *)
Lemma selections_drawn (random : nat -> Q) (pillars formats : list WeightedItem)
      (n : nat) :
  forall (k : nat) (order : list (jstring * jstring)),
    orderOf (selections random pillars formats n k) = Return order ->
    length (selections random pillars formats n k) = n
    /\ Forall (selectionFrom pillars formats)
              (selections random pillars formats n k)
    /\ Forall2 (fun sel o => exists p f, sel = (Some p, Some f)
                                         /\ o = (label p, label f))
               (selections random pillars formats n k) order.
Proof.
  induction n as [|n IH]; intros k order; simpl.
  - intros [= <-]. repeat split; constructor.
  - pose proof (pickWeighted_In pillars (random k)) as Hp.
    pose proof (pickWeighted_In formats (random (S k))) as Hf.
    destruct (pickWeighted pillars (random k)) as [p|]; [|discriminate].
    destruct (pickWeighted formats (random (S k))) as [f|]; [|discriminate].
    specialize (Hp p eq_refl). specialize (Hf f eq_refl).
    simpl.
    destruct (orderOf (selections random pillars formats n (S (S k))))
      as [o|e] eqn:Ho; [|discriminate].
    intros [= <-]. destruct (IH _ _ Ho) as [Hlen [Hall Hord]].
    split; [now rewrite Hlen|].
    split; constructor; try assumption; exists p, f; auto.
Qed.

(** X12: whenever the preparation of lines 98-155 returns, it has left the
    store as it was and returns the brand stored under the id, with [count]
    selections (none for a count below 1), each a pillar and a format of the
    lists the brand gives to draw from, and a brief that lists their labels
    in the order of the selections. *)
Theorem prepare_selects_from_lists
        (random : nat -> Q) (brandId : jstring) (count : Z) (st st' : Store)
        (brand : Brand.row) (sels : list Selection) (prompt : Prompt) :
  prepare random brandId count st = (Return (brand, sels, prompt), st') ->
  st' = st
  /\ findBrand brandId st = Some brand
  /\ length sels = Z.to_nat count
  /\ Forall (selectionFrom (effectivePillars brand) (effectiveFormats brand))
            sels
  /\ Forall2 (fun sel o => exists p f, sel = (Some p, Some f)
                                       /\ o = (label p, label f))
             sels (p_order prompt)
  /\ p_count prompt = count.
Proof.
  intros Hrun. pose proof (prepare_store random _ _ _ _ _ Hrun) as ->.
  split; [reflexivity|].
  destruct (findBrand brandId st) as [b|] eqn:Hb.
  - rewrite (prepare_unfold random brandId count st b Hb) in Hrun.
    pose proof (buildPrompt_order b count
                  (selections random (effectivePillars b)
                              (effectiveFormats b) (Z.to_nat count) 0)) as Hbp.
    destruct (orderOf _) as [order|e] eqn:Ho.
    + destruct Hbp as [pr [Hpr [Hpo [Hpc _]]]]. rewrite Hpr in Hrun.
      injection Hrun as <- <- <-.
      destruct (selections_drawn random _ _ _ _ _ Ho) as [Hlen [Hall Hord]].
      split; [reflexivity|]. split; [exact Hlen|]. split; [exact Hall|].
      split; [now rewrite Hpo | exact Hpc].
    + rewrite Hbp in Hrun. discriminate.
  - unfold prepare in Hrun. rewrite bind_getBrand, Hb in Hrun. discriminate.
Qed.

Lemma prepare_selects_from_lists_witness :
  Demo.store = Demo.store
  /\ findBrand (str "acme") Demo.store = Some Demo.acme
  /\ length DemoRun.sels = Z.to_nat 2
  /\ Forall (selectionFrom (effectivePillars Demo.acme)
                           (effectiveFormats Demo.acme)) DemoRun.sels
  /\ Forall2 (fun sel o => exists p f, sel = (Some p, Some f)
                                       /\ o = (label p, label f))
             DemoRun.sels (p_order DemoRun.prompt)
  /\ p_count DemoRun.prompt = 2.
Proof.
  apply (prepare_selects_from_lists Demo.random (str "acme") 2 Demo.store
           Demo.store Demo.acme DemoRun.sels DemoRun.prompt).
  vm_compute. reflexivity.
Defined.



(** X14: when the reply parses and its [posts] field is truthy but not an
    array (a string, a number, an object), the call ends in a [TypeError]
    and the store is as it was. *)
Theorem generate_posts_not_an_array
        (tza : Z) (random : nat -> Q) (uid : nat -> jstring) (clock : nat -> Z)
        (chat : Prompt -> outcome Content)
        (brandId : jstring) (count : Z) (st : Store)
        (pre : Brand.row * list Selection * Prompt) (obj v : JsValue) :
  fst (prepare random brandId count st) = Return pre ->
  chat (snd pre) = Return (Parsed obj) ->
  getProp obj "posts" = Return v ->
  truthy v = true ->
  isArray v = false ->
  generatePostsForBrand tza random uid clock chat brandId count st
  = (Throw "TypeError", st).
Proof.
  intros Hpre Hchat Hv Ht Ha.
  rewrite (generate_after_reply tza random uid clock chat brandId count st
             pre (Parsed obj) Hpre Hchat).
  unfold compose, itemsOf. rewrite Hv, Ht.
  destruct v; try reflexivity; discriminate.
Qed.

Lemma generate_posts_not_an_array_witness :
  generatePostsForBrand 0 Demo.random Demo.uid Demo.clock
    (fun _ => Return (Parsed (JObj [("posts", JStr (str "none today"))])))
    (str "acme") 2 Demo.store
  = (Throw "TypeError", Demo.store).
Proof.
  eapply (generate_posts_not_an_array 0 Demo.random Demo.uid Demo.clock
            (fun _ => Return (Parsed (JObj [("posts", JStr (str "none today"))])))
            (str "acme") 2 Demo.store).
  - vm_compute. reflexivity.
  - reflexivity.
  - reflexivity.
  - reflexivity.
  - reflexivity.
Defined.

(** X15: whatever the brand id, the count, the generator and its reply, a
    call of [generatePostsForBrand] only appends to the posts table: the
    brands and the posts already stored are as they were (also when the call
    throws), and every appended row is a draft of the brand asked for, with
    no em dash in its text. *)
Theorem generate_only_appends_drafts
        (tza : Z) (random : nat -> Q) (uid : nat -> jstring) (clock : nat -> Z)
        (chat : Prompt -> outcome Content)
        (brandId : jstring) (count : Z) (st : Store) :
  exists new,
    snd (generatePostsForBrand tza random uid clock chat brandId count st)
    = mkStore (brands st) (posts st ++ new)
    /\ Forall (fun p => Post.status p = draft
                        /\ Post.brand p = brandId
                        /\ ~ In emDash (Post.text p)) new.
Proof.
  destruct (generate_cases tza random uid clock chat brandId count st)
    as [[e ->] | [brand [sels [res [Hb ->]]]]].
  - exists []. cbn [snd]. rewrite app_nil_r. destruct st.
    split; [reflexivity | constructor].
  - destruct (compose_appends tza uid clock brand sels res st)
      as [new [Heq Hall]].
    exists new. split; [exact Heq|].
    pose proof (find_hasKey _ Brand.id _ _ _ Hb) as Hid.
    rewrite Hid in Hall. exact Hall.
Qed.

(** ** Keyed tables, continued *)

Section KeyedTableMore.

Variable A : Type.
Variable key : A -> jstring.

Lemma find_hasKey_app (i : jstring) (l : list A) (b : A) :
  find (hasKey key i) (l ++ [b])
  = match find (hasKey key i) l with
    | Some a => Some a
    | None => if hasKey key i b then Some b else None
    end.
Proof.
  induction l as [|a l IH]; simpl; [reflexivity|].
  destruct (hasKey key i a); [reflexivity | exact IH].
Qed.

(** With unique keys the row found under a key is the only row with it. *)
Lemma find_hasKey_unique (i : jstring) (l : list A) (a d : A) :
  NoDup (map key l) ->
  find (hasKey key i) l = Some a ->
  In d l -> key d = i -> d = a.
Proof.
  induction l as [|x l IH]; simpl; intros Hnd Hf Hin Hid; [contradiction|].
  inversion Hnd as [|? ? Hnotin Hnd']; subst. unfold hasKey in Hf at 1.
  destruct (jstring_eqb (key x) (key d)) eqn:E.
  - injection Hf as <-. destruct Hin as [-> | Hin]; [reflexivity|].
    apply jstring_eqb_eq in E. exfalso. apply Hnotin. rewrite E.
    now apply in_map.
  - destruct Hin as [-> | Hin]; [rewrite jstring_eqb_refl in E; discriminate|].
    now apply IH.
Qed.

Lemma find_hasKey_In (l : list A) (a : A) :
  NoDup (map key l) -> In a l -> find (hasKey key (key a)) l = Some a.
Proof.
  induction l as [|x l IH]; simpl; intros Hnd Hin; [contradiction|].
  inversion Hnd as [|? ? Hnotin Hnd']; subst. unfold hasKey at 1.
  destruct Hin as [-> | Hin].
  - now rewrite jstring_eqb_refl.
  - destruct (jstring_eqb (key x) (key a)) eqn:E; [|now apply IH].
    apply jstring_eqb_eq in E. exfalso. apply Hnotin. rewrite E.
    now apply in_map.
Qed.

(** An update that keeps the keys keeps the column of keys. *)
Lemma map_key_updateWhere (i : jstring) (f : A -> A) (l : list A) :
  (forall a, key (f a) = key a) ->
  map key (updateWhere key i f l) = map key l.
Proof.
  intros Hf. unfold updateWhere. rewrite map_map. apply map_ext.
  intros a. destruct (hasKey key i a); [apply Hf | reflexivity].
Qed.

(** An update that writes back what the rows hold changes nothing. *)
Lemma updateWhere_same (i : jstring) (f : A -> A) (l : list A) :
  (forall a, In a l -> key a = i -> f a = a) ->
  updateWhere key i f l = l.
Proof.
  intros Hf. unfold updateWhere. rewrite <- (map_id l) at 2.
  apply map_ext_in. intros a Hin. unfold hasKey.
  destruct (jstring_eqb (key a) i) eqn:E; [|reflexivity].
  apply Hf; [exact Hin | now apply jstring_eqb_eq].
Qed.

End KeyedTableMore.

(** ** Brand handlers, continued *)

(** X16: a registration without an id or a name, or under an id that is
    already taken, is answered 400 and leaves the store as it was. *)
Theorem createBrand_rejects (body : BrandBody) (st : Store) :
  missing (bb_id body) = true \/ missing (bb_name body) = true
  \/ (exists b, findBrand (orElse (bb_id body) []) st = Some b) ->
  exists msg, createBrand body st = (Return (JsonError 400 msg), st).
Proof.
  intros H. unfold createBrand.
  destruct (missing (bb_id body) || missing (bb_name body)) eqn:Hm.
  - eexists. reflexivity.
  - apply orb_false_iff in Hm. destruct Hm as [Hi Hn].
    destruct H as [H | [H | [b Hb]]]; try congruence.
    rewrite bind_getBrand, Hb. eexists. reflexivity.
Qed.

Lemma createBrand_rejects_witness :
  exists msg,
    createBrand (mkBrandBody (Some (str "acme")) (Some (str "Again")) None None
                             JUndefined None None) Demo.store
    = (Return (JsonError 400 msg), Demo.store).
Proof.
  apply createBrand_rejects. right. right. eexists. reflexivity.
Defined.

(** X17: a registration with an id and a name under a fresh id is answered
    200, and the brand can then be read back under its id with the name
    given, the voice, pillars, platforms and settings given or else '', [],
    ['linkedin'] and {}; the brands under other ids and the posts are as
    they were. *)
Theorem createBrand_then_find (body : BrandBody) (st : Store) :
  missing (bb_id body) = false ->
  missing (bb_name body) = false ->
  findBrand (orElse (bb_id body) []) st = None ->
  exists st' b,
    createBrand body st = (Return (Json 200), st')
    /\ findBrand (orElse (bb_id body) []) st' = Some b
    /\ Brand.id b = orElse (bb_id body) []
    /\ Brand.name b = orElse (bb_name body) []
    /\ Brand.voice b = orElse (bb_voice body) []
    /\ Brand.pillars b = orElse (bb_pillars body) []
    /\ Brand.platforms b = orElse (bb_platforms body) [str "linkedin"]
    /\ Brand.settings b = orElse (bb_settings body) emptySettings
    /\ (forall j, j <> orElse (bb_id body) [] ->
                  findBrand j st' = findBrand j st)
    /\ posts st' = posts st.
Proof.
  intros Hid Hname Hnew. unfold createBrand. rewrite Hid, Hname. cbn [orb].
  rewrite bind_getBrand, Hnew.
  unfold bind, insertBrand, ret. cbn [Brand.id].
  rewrite (existsb_hasKey_find _ Brand.id _ _ Hnew).
  do 2 eexists. split; [reflexivity|].
  unfold findBrand in *. cbn [brands posts].
  split.
  - rewrite find_hasKey_app, Hnew. unfold hasKey. cbn [Brand.id].
    now rewrite jstring_eqb_refl.
  - cbn [Brand.id Brand.name Brand.voice Brand.pillars Brand.platforms
         Brand.settings].
    do 6 (split; [reflexivity|]). split; [|reflexivity].
    intros j Hj. rewrite find_hasKey_app.
    destruct (find (hasKey Brand.id j) (brands st)); [reflexivity|].
    unfold hasKey. cbn [Brand.id].
    assert (jstring_eqb (orElse (bb_id body) []) j = false) as ->
        by (apply jstring_eqb_neq; congruence).
    reflexivity.
Qed.

Lemma createBrand_then_find_witness :
  exists st' b,
    createBrand (mkBrandBody (Some (str "zen")) (Some (str "Zen")) None None
                             JUndefined None None) Demo.store
    = (Return (Json 200), st')
    /\ findBrand (str "zen") st' = Some b
    /\ Brand.name b = str "Zen"
    /\ Brand.platforms b = [str "linkedin"]
    /\ findBrand (str "acme") st' = Some Demo.acme.
Proof.
  destruct (createBrand_then_find
              (mkBrandBody (Some (str "zen")) (Some (str "Zen")) None None
                           JUndefined None None) Demo.store
              eq_refl eq_refl eq_refl)
    as [st' [b [Hrun [Hfind [_ [Hname [_ [_ [Hpl [_ [Hother _]]]]]]]]]]].
  exists st', b. split; [exact Hrun|]. split; [exact Hfind|].
  split; [exact Hname|]. split; [exact Hpl|].
  rewrite Hother; [reflexivity | discriminate].
Defined.

(** X18: a request addressed to an id that is not in its table is answered
    404 and leaves the store as it was: the partial update of a brand, the
    partial update of a post, the approval and the manual publish. *)
Theorem unknown_id_is_404
        (publisher : Post.row -> outcome PublishResult) (clock : nat -> Z)
        (i : jstring) (st : Store) :
  (forall body, findBrand i st = None ->
                patchBrand i body st
                = (Return (JsonError 404 "brand not found"), st))
  /\ (forall body, findPost i st = None ->
                   patchPost i body st
                   = (Return (JsonError 404 "not found"), st))
  /\ (findPost i st = None ->
      approvePost i st = (Return (JsonError 404 "not found"), st))
  /\ (findPost i st = None ->
      publishNow clock publisher i st
      = (Return (JsonError 404 "not found"), st)).
Proof.
  repeat split; intros.
  - unfold patchBrand. rewrite bind_getBrand, H. reflexivity.
  - unfold patchPost. rewrite bind_getPost, H. reflexivity.
  - unfold approvePost. rewrite bind_getPost, H. reflexivity.
  - unfold publishNow. rewrite bind_getPost, H. reflexivity.
Qed.

Lemma unknown_id_is_404_witness :
  approvePost (str "p9") (Demo.storeWith (Demo.post draft [str "linkedin"]))
  = (Return (JsonError 404 "not found"),
     Demo.storeWith (Demo.post draft [str "linkedin"])).
Proof.
  apply (proj1 (proj2 (proj2 (unknown_id_is_404 publishToLinkedIn Demo.clock
                  (str "p9")
                  (Demo.storeWith (Demo.post draft [str "linkedin"])))))).
  reflexivity.
Defined.

(** X19: a partial update of a brand never changes its id or its name,
    stores the voice, pillars, platforms and settings given and keeps the
    previous value of each one not given; the brands under other ids and
    the posts are as they were. *)
Theorem patchBrand_keeps_unset
        (i : jstring) (body : BrandBody) (st : Store) (current : Brand.row) :
  findBrand i st = Some current ->
  exists st' b,
    patchBrand i body st = (Return (Json 200), st')
    /\ findBrand i st' = Some b
    /\ Brand.id b = Brand.id current
    /\ Brand.name b = Brand.name current
    /\ Brand.voice b = orElse (bb_voice body) (Brand.voice current)
    /\ Brand.pillars b = orElse (bb_pillars body) (Brand.pillars current)
    /\ Brand.platforms b = orElse (bb_platforms body) (Brand.platforms current)
    /\ Brand.settings b = orElse (bb_settings body) (Brand.settings current)
    /\ (forall j, j <> i -> findBrand j st' = findBrand j st)
    /\ posts st' = posts st.
Proof.
  intros Hcur. unfold patchBrand. rewrite bind_getBrand, Hcur, bind_updateBrand.
  pose proof (find_hasKey _ Brand.id _ _ _ Hcur) as Hid.
  do 2 eexists. split; [reflexivity|].
  unfold findBrand in *. cbn [brands posts]. rewrite Hid.
  split.
  - rewrite find_updateWhere_same by reflexivity. rewrite Hcur. reflexivity.
  - cbn [Brand.id Brand.name Brand.voice Brand.pillars Brand.platforms
         Brand.settings].
    do 6 (split; [first [reflexivity | exact Hid]|]). split; [|reflexivity].
    intros j Hj. apply find_updateWhere_other; [reflexivity | congruence].
Qed.

Lemma patchBrand_keeps_unset_witness :
  exists st' b,
    patchBrand (str "acme")
               (mkBrandBody None None (Some (str "warm")) None JUndefined
                            None None)
               Demo.store
    = (Return (Json 200), st')
    /\ findBrand (str "acme") st' = Some b
    /\ Brand.name b = str "Acme"
    /\ Brand.voice b = str "warm"
    /\ Brand.pillars b = [str "Culture"].
Proof.
  destruct (patchBrand_keeps_unset (str "acme")
              (mkBrandBody None None (Some (str "warm")) None JUndefined
                           None None)
              Demo.store Demo.acme eq_refl)
    as [st' [b [Hrun [Hfind [_ [Hname [Hvoice [Hpil _]]]]]]]].
  exists st', b. repeat split; assumption.
Defined.

(** X20: with unique brand ids, a partial update that gives no voice, no
    pillars, no platforms, no settings and no cadence leaves the whole store
    exactly as it was. *)
Theorem patchBrand_empty_body (i : jstring) (st : Store) (current : Brand.row)
        (cadence : JsValue) :
  NoDup (map Brand.id (brands st)) ->
  findBrand i st = Some current ->
  cadence = JUndefined \/ cadence = JNull ->
  patchBrand i (mkBrandBody None None None None cadence None None) st
  = (Return (Json 200), st).
Proof.
  intros Hnd Hcur Hcad. unfold patchBrand.
  rewrite bind_getBrand, Hcur, bind_updateBrand.
  pose proof (find_hasKey _ Brand.id _ _ _ Hcur) as Hid.
  cbn [bb_voice bb_pillars bb_cadence bb_platforms bb_settings orElse ret].
  assert (coalesce cadence (cadenceObject current) = cadenceObject current)
    as -> by (destruct Hcad as [-> | ->]; reflexivity).
  rewrite cadenceObject_hour, cadenceObject_minute, cadenceObject_weekdays,
    !asInteger_inject_Z.
  cbn [orElse].
  assert (coalesce (Brand.cadence_weekdays current)
                   (Brand.cadence_weekdays current)
          = Brand.cadence_weekdays current) as ->
      by (destruct (Brand.cadence_weekdays current); reflexivity).
  rewrite updateWhere_same; [now destruct st|].
  intros a Hin Ha. rewrite Hid in Ha.
  pose proof (find_hasKey_unique _ Brand.id i (brands st) current a
                Hnd Hcur Hin Ha) as ->.
  now destruct current.
Qed.

Lemma patchBrand_empty_body_witness :
  patchBrand (str "acme") (mkBrandBody None None None None JUndefined None None)
             Demo.store
  = (Return (Json 200), Demo.store).
Proof.
  apply (patchBrand_empty_body (str "acme") Demo.store Demo.acme JUndefined).
  - repeat constructor. simpl. tauto.
  - reflexivity.
  - left. reflexivity.
Defined.

(** ** Post handlers, continued *)

(** X21: a partial update of a post never changes its id, brand,
    [createdAt] or [publishedAt]; it stores the status, scheduled time,
    targets and meta given and keeps the previous value of each one not
    given (a scheduled time cannot be reset to NULL); a text that is not
    given is the stored text with its em dashes replaced.  The posts under
    other ids and the brands are as they were. *)
Theorem patchPost_keeps_unset
        (i : jstring) (body : PostPatch) (st : Store) (p : Post.row) :
  findPost i st = Some p ->
  pp_text body = JUndefined \/ pp_text body = JNull
  \/ (exists t, pp_text body = JStr t) ->
  exists st' p',
    patchPost i body st = (Return (Json 200), st')
    /\ findPost i st' = Some p'
    /\ Post.id p' = Post.id p
    /\ Post.brand p' = Post.brand p
    /\ Post.createdAt p' = Post.createdAt p
    /\ Post.publishedAt p' = Post.publishedAt p
    /\ Post.status p' = orElse (pp_status body) (Post.status p)
    /\ Post.scheduledAt p'
       = match pp_scheduledAt body with
         | Some t => Some t
         | None => Post.scheduledAt p
         end
    /\ Post.platformTargets p'
       = orElse (pp_platformTargets body) (Post.platformTargets p)
    /\ Post.postMeta p' = orElse (pp_postMeta body) (Post.postMeta p)
    /\ (pp_text body = JUndefined \/ pp_text body = JNull ->
        Post.text p' = replaceEmDash (Post.text p))
    /\ (forall j, j <> i -> findPost j st' = findPost j st)
    /\ brands st' = brands st.
Proof.
  intros Hp Htext. unfold patchPost. rewrite bind_getPost, Hp.
  pose proof (findPost_id _ _ _ Hp) as Hid.
  assert (exists t, coalesce (pp_text body) (JStr (Post.text p)) = JStr t
                    /\ (pp_text body = JUndefined \/ pp_text body = JNull ->
                        t = Post.text p)) as [t [-> Ht]].
  { destruct Htext as [H | [H | [t H]]]; rewrite H; cbn [coalesce].
    - exists (Post.text p). auto.
    - exists (Post.text p). auto.
    - exists t. split; [reflexivity|]. intros [|]; discriminate. }
  rewrite bind_lift_Return, bind_updatePost, Hid.
  do 2 eexists. split; [reflexivity|].
  split; [rewrite findPost_update_same by reflexivity; rewrite Hp; reflexivity|].
  cbn [Post.id Post.brand Post.text Post.status Post.platformTargets
       Post.createdAt Post.scheduledAt Post.publishedAt Post.postMeta brands].
  split; [exact Hid|]. do 7 (split; [reflexivity|]).
  split; [intros H; now rewrite (Ht H)|].
  split; [|reflexivity].
  intros j Hj. apply findPost_update_other; [reflexivity | congruence].
Qed.

Lemma patchPost_keeps_unset_witness :
  exists st' p',
    patchPost (str "p1")
              (mkPostPatch JUndefined (Some approved) None None None)
              (Demo.storeWith (Demo.post draft [str "linkedin"]))
    = (Return (Json 200), st')
    /\ findPost (str "p1") st' = Some p'
    /\ Post.status p' = approved
    /\ Post.scheduledAt p' = Some Demo.monday9
    /\ Post.text p' = replaceEmDash (str "Hello").
Proof.
  destruct (patchPost_keeps_unset (str "p1")
              (mkPostPatch JUndefined (Some approved) None None None)
              (Demo.storeWith (Demo.post draft [str "linkedin"]))
              (Demo.post draft [str "linkedin"]) eq_refl
              (or_introl eq_refl))
    as [st' [p' [Hrun [Hfind [_ [_ [_ [_ [Hst [Hsch [_ [_ [Htext _]]]]]]]]]]]]].
  exists st', p'. split; [exact Hrun|]. split; [exact Hfind|].
  split; [exact Hst|]. split; [exact Hsch|].
  apply Htext. left. reflexivity.
Defined.

(** ** The sweep, post by post *)

Lemma NoDup_map_filter {A B : Type} (f : A -> B) (g : A -> bool) (l : list A) :
  NoDup (map f l) -> NoDup (map f (filter g l)).
Proof.
  induction l as [|a l IH]; simpl; intros Hnd; [constructor|].
  inversion Hnd as [|? ? Hnotin Hnd']; subst.
  destruct (g a); [|now apply IH].
  simpl. constructor; [|now apply IH].
  intros Hin. apply Hnotin. apply in_map_iff in Hin.
  destruct Hin as [x [Hx Hin]]. apply filter_In in Hin.
  apply in_map_iff. exists x. tauto.
Qed.

Lemma dueNow_cons (now : Z) (d : Post.row) (rest : list Post.row) :
  dueNow now (d :: rest) = dueNow now [d] ++ dueNow now rest.
Proof.
  unfold dueNow. simpl.
  destruct (match Post.scheduledAt d with
            | Some t => t <=? now
            | None => false end); reflexivity.
Qed.

Lemma dueNow_single (now : Z) (d : Post.row) :
  dueNow now [d] = [] \/ dueNow now [d] = [d].
Proof.
  unfold dueNow. simpl.
  destruct (match Post.scheduledAt d with
            | Some t => t <=? now
            | None => false end); auto.
Qed.

Lemma dueNow_In (now : Z) (p : Post.row) (st : Store) :
  In p (dueNow now (dueQuery st)) <-> In p (posts st) /\ isDue now p = true.
Proof.
  unfold dueNow, dueQuery, isDue. rewrite !filter_In, andb_true_iff.
  destruct (Post.scheduledAt p) as [t|].
  - rewrite andb_true_iff. tauto.
  - rewrite andb_false_r. intuition discriminate.
Qed.

Section SweepEach.

Variable publisher : Post.row -> outcome PublishResult.
Variable clock : nat -> Z.
Variable now : Z.

Lemma sweepLoop_brands (due : list Post.row) :
  forall k st, brands (snd (sweepLoop clock publisher now due k st)) = brands st.
Proof.
  induction due as [|d rest IH]; intros k st; [reflexivity|].
  rewrite sweepLoop_cons, IH.
  destruct (dueNow now [d]); [reflexivity|].
  destruct (publishPost publisher d) as [results|e] eqn:H.
  - now rewrite (attemptPublish_returned _ _ _ _ _ H).
  - now rewrite (attemptPublish_threw _ _ _ _ _ H).
Qed.

Lemma sweepLoop_decides (due : list Post.row) :
  forall (k : nat) (st : Store) (i : jstring) (p : Post.row),
    NoDup (map Post.id due) ->
    findPost i st = Some p ->
    (forall d, In d due -> Post.id d = i -> d = p) ->
    (~ In p (dueNow now due) ->
     findPost i (snd (sweepLoop clock publisher now due k st)) = Some p)
    /\ (In p (dueNow now due) ->
        (forall results,
            publishPost publisher p = Return results ->
            exists k',
              findPost i (snd (sweepLoop clock publisher now due k st))
              = Some (Post.withPublished p published (clock (S k'))))
        /\ (forall e,
              publishPost publisher p = Throw e ->
              findPost i (snd (sweepLoop clock publisher now due k st))
              = Some (Post.withStatus p failed))).
Proof.
  induction due as [|d rest IH]; intros k st i p Hnd Hp Huniq.
  - split; [intros _; exact Hp | intros []].
  - rewrite sweepLoop_cons. rewrite dueNow_cons.
    inversion Hnd as [|? ? Hnotin Hnd']; subst.
    pose proof (findPost_id _ _ _ Hp) as Hid.
    destruct (jstring_eq_dec (Post.id d) i) as [Hdi | Hdi].
    + assert (d = p) as -> by (apply Huniq; [now left | exact Hdi]).
      assert (~ In i (map Post.id (dueNow now rest))) as Hrest.
      { intros Hin. apply Hnotin. rewrite Hid.
        apply in_map_iff in Hin. destruct Hin as [x [Hx Hin]].
        apply filter_In in Hin. apply in_map_iff. exists x. tauto. }
      assert (~ In p (dueNow now rest)) as Hprest.
      { intros Hin. apply Hrest. rewrite <- Hid. now apply in_map. }
      rewrite (sweepLoop_untouched publisher clock now i rest _ _ Hrest).
      destruct (dueNow_single now p) as [-> | ->].
      * split; [intros _; exact Hp|]. simpl. intros H. contradiction.
      * split; [intros H; exfalso; apply H; now left|]. intros _. split.
        -- intros results Hr. exists k.
           rewrite (attemptPublish_returned _ _ _ _ _ Hr). cbn [snd].
           rewrite Hid, findPost_update_same by reflexivity. now rewrite Hp.
        -- intros e Hr.
           rewrite (attemptPublish_threw _ _ _ _ _ Hr). cbn [snd].
           rewrite Hid, findPost_update_same by reflexivity. now rewrite Hp.
    + assert (In p (dueNow now [d] ++ dueNow now rest)
              <-> In p (dueNow now rest)) as Hiff.
      { rewrite in_app_iff. split; [|tauto]. intros [H | H]; [|exact H].
        destruct (dueNow_single now d) as [E | E]; rewrite E in H;
          simpl in H; [contradiction|].
        destruct H as [<- | []]. contradiction. }
      rewrite Hiff.
      apply IH; [exact Hnd' | | intros x Hx; apply Huniq; now right].
      destruct (dueNow now [d]); [exact Hp|].
      rewrite attemptPublish_other; [exact Hp | congruence].
Qed.

End SweepEach.

(** The sweep, read at one post. *)
Lemma sweep_find
        (publisher : Post.row -> outcome PublishResult) (clock : nat -> Z)
        (st : Store) (i : jstring) (p : Post.row) :
  NoDup (map Post.id (posts st)) ->
  findPost i st = Some p ->
  (isDue (clock 0%nat) p = false ->
   findPost i (snd (sweep clock publisher st)) = Some p)
  /\ (isDue (clock 0%nat) p = true ->
      (forall results,
          publishPost publisher p = Return results ->
          exists k,
            findPost i (snd (sweep clock publisher st))
            = Some (Post.withPublished p published (clock (S k))))
      /\ (forall e,
            publishPost publisher p = Throw e ->
            findPost i (snd (sweep clock publisher st))
            = Some (Post.withStatus p failed))).
Proof.
  intros Hnd Hp. unfold sweep.
  assert (In p (posts st)) as Hin by (apply find_some in Hp; tauto).
  destruct (sweepLoop_decides publisher clock (clock 0%nat) (dueQuery st)
              0%nat st i p) as [Hnot Hdue].
  - apply NoDup_map_filter. exact Hnd.
  - exact Hp.
  - intros d Hd Hdi. apply (findPost_unique st i p d Hnd Hp); [|exact Hdi].
    unfold dueQuery in Hd. apply filter_In in Hd. tauto.
  - split.
    + intros Hf. apply Hnot. rewrite dueNow_In. intros [_ H]. congruence.
    + intros Ht. apply Hdue. rewrite dueNow_In. tauto.
Qed.

(** X22: with unique post ids, one sweep decides each post by itself.  A
    post that is not due (not approved, without a scheduled time, or
    scheduled after now) is left exactly as it is.  A due post is published,
    with [publishedAt] set to an instant read during the sweep, when
    [publishPost] returns for it, and marked failed with nothing else changed
    when [publishPost] throws for it, whatever happens to the other posts of
    the sweep. *)
Theorem sweep_decides_each_post
        (publisher : Post.row -> outcome PublishResult) (clock : nat -> Z)
        (st : Store) (i : jstring) (p : Post.row) :
  NoDup (map Post.id (posts st)) ->
  findPost i st = Some p ->
  (isDue (clock 0%nat) p = false ->
   findPost i (snd (sweep clock publisher st)) = Some p)
  /\ (isDue (clock 0%nat) p = true ->
      (forall results,
          publishPost publisher p = Return results ->
          exists k,
            findPost i (snd (sweep clock publisher st))
            = Some (Post.withPublished p published (clock (S k))))
      /\ (forall e,
            publishPost publisher p = Throw e ->
            findPost i (snd (sweep clock publisher st))
            = Some (Post.withStatus p failed))).
Proof. intros Hnd Hp. now apply sweep_find. Qed.

Lemma sweep_decides_each_post_witness :
  (exists k,
      findPost (str "p1")
        (snd (sweep Demo.clock publishToLinkedIn
                (Demo.storeWith (Demo.post approved [str "linkedin"]))))
      = Some (Post.withPublished (Demo.post approved [str "linkedin"])
                                 published (Demo.clock (S k))))
  /\ findPost (str "p1")
       (snd (sweep Demo.clock Demo.publisherThrows
               (Demo.storeWith (Demo.post approved [str "linkedin"]))))
     = Some (Post.withStatus (Demo.post approved [str "linkedin"]) failed).
Proof.
  assert (NoDup (map Post.id
                   (posts (Demo.storeWith (Demo.post approved [str "linkedin"])))))
    as Hnd by (repeat constructor; simpl; tauto).
  split.
  - apply (proj1 (proj2 (sweep_decides_each_post publishToLinkedIn Demo.clock
                    (Demo.storeWith (Demo.post approved [str "linkedin"]))
                    (str "p1") (Demo.post approved [str "linkedin"])
                    Hnd eq_refl) eq_refl)
                 [mkResult true (str "https://www.linkedin.com/feed/update/mock")]).
    reflexivity.
  - apply (proj2 (proj2 (sweep_decides_each_post Demo.publisherThrows Demo.clock
                    (Demo.storeWith (Demo.post approved [str "linkedin"]))
                    (str "p1") (Demo.post approved [str "linkedin"])
                    Hnd eq_refl) eq_refl)
                 "Error").
    reflexivity.
Defined.

(** ** What the lifecycle operations leave alone *)

Lemma sameContent_refl (p : Post.row) : sameContent p p.
Proof. unfold sameContent. tauto. Qed.

Lemma sameContent_trans (p q r : Post.row) :
  sameContent p q -> sameContent q r -> sameContent p r.
Proof. unfold sameContent. intuition congruence. Qed.

Lemma Forall2_refl {A : Type} (R : A -> A -> Prop) (l : list A) :
  (forall a, R a a) -> Forall2 R l l.
Proof. intros H. induction l; constructor; auto. Qed.

Lemma Forall2_trans {A : Type} (R : A -> A -> Prop) :
  (forall a b c, R a b -> R b c -> R a c) ->
  forall l1 l2 l3, Forall2 R l1 l2 -> Forall2 R l2 l3 -> Forall2 R l1 l3.
Proof.
  intros HR l1 l2 l3 H12. revert l3.
  induction H12; intros l3 H23; inversion H23; subst; constructor; eauto.
Qed.

Lemma Forall2_updateWhere {A : Type} (key : A -> jstring) (R : A -> A -> Prop)
      (i : jstring) (f : A -> A) (l : list A) :
  (forall a, R a a) -> (forall a, R a (f a)) ->
  Forall2 R l (updateWhere key i f l).
Proof.
  intros Hr Hf. induction l as [|a l IH]; simpl; constructor; [|exact IH].
  destruct (hasKey key i a); auto.
Qed.

Section LifecycleKeeps.

Variable publisher : Post.row -> outcome PublishResult.
Variable clock : nat -> Z.

Lemma attemptPublish_sameContent (p : Post.row) (at_ : Z) (st : Store) :
  brands (snd (attemptPublish publisher p at_ st)) = brands st
  /\ Forall2 sameContent (posts st)
             (posts (snd (attemptPublish publisher p at_ st))).
Proof.
  destruct (publishPost publisher p) as [results|e] eqn:H.
  - rewrite (attemptPublish_returned _ _ _ _ _ H). cbn [snd brands posts].
    split; [reflexivity|].
    apply Forall2_updateWhere; intros a; unfold sameContent; simpl; tauto.
  - rewrite (attemptPublish_threw _ _ _ _ _ H). cbn [snd brands posts].
    split; [reflexivity|].
    apply Forall2_updateWhere; intros a; unfold sameContent; simpl; tauto.
Qed.

Lemma sweepLoop_sameContent (now : Z) (due : list Post.row) :
  forall k st,
    Forall2 sameContent (posts st)
            (posts (snd (sweepLoop clock publisher now due k st))).
Proof.
  induction due as [|d rest IH]; intros k st.
  - apply Forall2_refl, sameContent_refl.
  - rewrite sweepLoop_cons.
    eapply (Forall2_trans _ sameContent_trans); [|apply IH].
    destruct (dueNow now [d]).
    + apply Forall2_refl, sameContent_refl.
    + apply attemptPublish_sameContent.
Qed.

End LifecycleKeeps.

(** The store after an approval and after a manual publish. *)
Lemma approvePost_store (i : jstring) (st : Store) :
  snd (approvePost i st)
  = match findPost i st with
    | Some p =>
        mkStore (brands st)
                (updateWhere Post.id (Post.id p)
                             (fun r => Post.withStatus r approved) (posts st))
    | None => st
    end.
Proof.
  unfold approvePost. rewrite bind_getPost.
  destruct (findPost i st); reflexivity.
Qed.

Lemma publishNow_store (clock : nat -> Z)
      (publisher : Post.row -> outcome PublishResult)
      (i : jstring) (st : Store) :
  snd (publishNow clock publisher i st)
  = match findPost i st with
    | Some p => snd (attemptPublish publisher p (clock 0%nat) st)
    | None => st
    end.
Proof.
  unfold publishNow. rewrite bind_getPost.
  destruct (findPost i st) as [p|]; [|reflexivity].
  unfold bind.
  destruct (attemptPublish_returns publisher p (clock 0%nat) st) as [r Hr].
  destruct (attemptPublish publisher p (clock 0%nat) st) as [o st1].
  cbn [fst] in Hr. subst o. destruct r; reflexivity.
Qed.

Lemma approvePost_sameContent (i : jstring) (st : Store) :
  brands (snd (approvePost i st)) = brands st
  /\ Forall2 sameContent (posts st) (posts (snd (approvePost i st))).
Proof.
  rewrite approvePost_store. destruct (findPost i st) as [p|].
  - cbn [brands posts]. split; [reflexivity|].
    apply Forall2_updateWhere; intros a; unfold sameContent; simpl; tauto.
  - split; [reflexivity | apply Forall2_refl, sameContent_refl].
Qed.

Lemma publishNow_sameContent (clock : nat -> Z)
      (publisher : Post.row -> outcome PublishResult)
      (i : jstring) (st : Store) :
  brands (snd (publishNow clock publisher i st)) = brands st
  /\ Forall2 sameContent (posts st)
                (posts (snd (publishNow clock publisher i st))).
Proof.
  rewrite publishNow_store. destruct (findPost i st) as [p|].
  - apply attemptPublish_sameContent.
  - split; [reflexivity | apply Forall2_refl, sameContent_refl].
Qed.

(** X23: the approval, the manual publish and the sweep change nothing but
    the [status] and [publishedAt] of posts: the brands are as they were,
    and the posts table has the same rows in the same order, each with its
    id, brand, text, targets, [createdAt], [scheduledAt] and meta as
    before. *)
Theorem lifecycle_changes_status_only
        (publisher : Post.row -> outcome PublishResult) (clock : nat -> Z)
        (i : jstring) (st : Store) :
  (brands (snd (approvePost i st)) = brands st
   /\ Forall2 sameContent (posts st) (posts (snd (approvePost i st))))
  /\ (brands (snd (publishNow clock publisher i st)) = brands st
      /\ Forall2 sameContent (posts st)
                 (posts (snd (publishNow clock publisher i st))))
  /\ (brands (snd (sweep clock publisher st)) = brands st
      /\ Forall2 sameContent (posts st)
                 (posts (snd (sweep clock publisher st)))).
Proof.
  split; [apply approvePost_sameContent|].
  split; [apply publishNow_sameContent|].
  unfold sweep. split.
  - apply sweepLoop_brands.
  - apply sweepLoop_sameContent.
Qed.

Lemma sameContent_ids (l l' : list Post.row) :
  Forall2 sameContent l l' -> map Post.id l' = map Post.id l.
Proof.
  induction 1 as [|p p' l l' [Hid _] _ IH]; simpl; [reflexivity|].
  now rewrite Hid, IH.
Qed.

Lemma isDue_not_approved (now : Z) (p : Post.row) :
  Post.status p <> approved -> isDue now p = false.
Proof.
  intros H. unfold isDue.
  destruct (jstring_eqb (Post.status p) approved) eqn:E; [|reflexivity].
  apply jstring_eqb_eq in E. contradiction.
Qed.

(** X24: with unique post ids, a post that a sweep has attempted, published
    or failed, is left as it is by every later sweep, whatever the instant
    and the Publisher: a failed post is not retried and a published post is
    not published again. *)
Theorem sweep_attempts_once
        (publisher publisher' : Post.row -> outcome PublishResult)
        (clock clock' : nat -> Z) (st : Store) (i : jstring) (p : Post.row) :
  NoDup (map Post.id (posts st)) ->
  findPost i st = Some p ->
  isDue (clock 0%nat) p = true ->
  findPost i (snd (sweep clock' publisher' (snd (sweep clock publisher st))))
  = findPost i (snd (sweep clock publisher st))
  /\ exists p',
      findPost i (snd (sweep clock publisher st)) = Some p'
      /\ (Post.status p' = published \/ Post.status p' = failed).
Proof.
  intros Hnd Hp Hdue.
  pose proof (sweepLoop_sameContent publisher clock (clock 0%nat)
                (dueQuery st) 0%nat st) as Hsame.
  fold (sweep clock publisher st) in Hsame.
  set (st1 := snd (sweep clock publisher st)) in *.
  assert (NoDup (map Post.id (posts st1))) as Hnd1
      by (rewrite (sameContent_ids _ _ Hsame); exact Hnd).
  destruct (sweep_find publisher clock st i p Hnd Hp) as [_ Hd].
  destruct (Hd Hdue) as [Hret Hthrow]. fold st1 in Hret, Hthrow.
  assert (exists p', findPost i st1 = Some p'
                     /\ (Post.status p' = published
                         \/ Post.status p' = failed)) as [p' [Hp' Hst]].
  { destruct (publishPost publisher p) as [results|e] eqn:H.
    - destruct (Hret results eq_refl) as [k Hk].
      eexists. split; [exact Hk | left; reflexivity].
    - eexists. split; [exact (Hthrow e eq_refl) | right; reflexivity]. }
  split; [|exists p'; auto].
  rewrite Hp'.
  apply (proj1 (sweep_find publisher' clock' st1 i p' Hnd1 Hp')).
  apply isDue_not_approved.
  destruct Hst as [-> | ->]; vm_compute; discriminate.
Qed.

Lemma sweep_attempts_once_witness :
  findPost (str "p1")
    (snd (sweep Demo.clock publishToLinkedIn
            (snd (sweep Demo.clock Demo.publisherThrows
                    (Demo.storeWith (Demo.post approved [str "linkedin"]))))))
  = findPost (str "p1")
      (snd (sweep Demo.clock Demo.publisherThrows
              (Demo.storeWith (Demo.post approved [str "linkedin"]))))
  /\ exists p',
      findPost (str "p1")
        (snd (sweep Demo.clock Demo.publisherThrows
                (Demo.storeWith (Demo.post approved [str "linkedin"]))))
      = Some p'
      /\ (Post.status p' = published \/ Post.status p' = failed).
Proof.
  apply (sweep_attempts_once Demo.publisherThrows publishToLinkedIn
           Demo.clock Demo.clock
           (Demo.storeWith (Demo.post approved [str "linkedin"]))
           (str "p1") (Demo.post approved [str "linkedin"])).
  - repeat constructor. simpl. tauto.
  - reflexivity.
  - reflexivity.
Defined.

(** X25: approval and sweep compose.  With unique post ids, a post with a
    scheduled time that has come, once approved, is published by the next
    sweep when [publishPost] returns for it; a post without a scheduled
    time stays approved, whatever the Publisher. *)
Theorem approve_then_sweep
        (publisher : Post.row -> outcome PublishResult) (clock : nat -> Z)
        (st : Store) (i : jstring) (p : Post.row) :
  NoDup (map Post.id (posts st)) ->
  findPost i st = Some p ->
  (forall t results,
      Post.scheduledAt p = Some t ->
      t <= clock 0%nat ->
      publishPost publisher (Post.withStatus p approved) = Return results ->
      exists k,
        findPost i (snd (sweep clock publisher (snd (approvePost i st))))
        = Some (Post.withPublished (Post.withStatus p approved) published
                                   (clock (S k))))
  /\ (Post.scheduledAt p = None ->
      findPost i (snd (sweep clock publisher (snd (approvePost i st))))
      = Some (Post.withStatus p approved)).
Proof.
  intros Hnd Hp.
  assert (findPost i (snd (approvePost i st))
          = Some (Post.withStatus p approved)) as Hp1.
  { unfold approvePost. rewrite bind_getPost, Hp, bind_updatePost.
    cbn [ret snd]. rewrite (findPost_id _ _ _ Hp).
    rewrite findPost_update_same by reflexivity. now rewrite Hp. }
  assert (NoDup (map Post.id (posts (snd (approvePost i st))))) as Hnd1.
  { unfold approvePost. rewrite bind_getPost.
    destruct (findPost i st); [|exact Hnd].
    rewrite bind_updatePost. cbn [ret snd posts].
    rewrite map_key_updateWhere by reflexivity. exact Hnd. }
  destruct (sweep_find publisher clock (snd (approvePost i st)) i
              (Post.withStatus p approved) Hnd1 Hp1) as [Hnot Hdue].
  split.
  - intros t results Ht Hle Hr.
    apply (proj1 (Hdue ltac:(unfold isDue; cbn [Post.withStatus Post.status
                                               Post.scheduledAt];
                             rewrite Ht, jstring_eqb_refl;
                             now apply Z.leb_le)) results Hr).
  - intros Hn. apply Hnot. unfold isDue.
    cbn [Post.withStatus Post.status Post.scheduledAt].
    rewrite Hn. apply andb_false_r.
Qed.

Lemma approve_then_sweep_witness :
  exists k,
    findPost (str "p1")
      (snd (sweep Demo.clock publishToLinkedIn
              (snd (approvePost (str "p1")
                      (Demo.storeWith (Demo.post draft [str "linkedin"]))))))
    = Some (Post.withPublished
              (Post.withStatus (Demo.post draft [str "linkedin"]) approved)
              published (Demo.clock (S k))).
Proof.
  apply (proj1 (approve_then_sweep publishToLinkedIn Demo.clock
                  (Demo.storeWith (Demo.post draft [str "linkedin"]))
                  (str "p1") (Demo.post draft [str "linkedin"])
                  ltac:(repeat constructor; simpl; tauto) eq_refl)
               Demo.monday9
               [mkResult true (str "https://www.linkedin.com/feed/update/mock")]).
  - reflexivity.
  - unfold Demo.clock. lia.
  - reflexivity.
Defined.

(** X26: for a post whose stored target value is an array of strings (as
    every row of the model is, and as generation stores it), [publishPost]
    with the [publishToLinkedIn] of the source does not throw: it returns
    one result per target equal to 'linkedin', each with [ok = true].  So
    the manual publish of such a post answers 200 and leaves it published,
    also when the array is empty. *)
Theorem source_publisher_always_publishes
        (clock : nat -> Z) (i : jstring) (st : Store) (p : Post.row) :
  findPost i st = Some p ->
  (exists results,
      publishPost publishToLinkedIn p = Return results
      /\ length results = length (linkedinTargets p)
      /\ Forall (fun r => ok r = true) results)
  /\ exists st',
      publishNow clock publishToLinkedIn i st = (Return (Json 200), st')
      /\ findPost i st'
         = Some (Post.withPublished p published (clock 0%nat)).
Proof.
  intros Hp.
  assert (exists results,
             publishPost publishToLinkedIn p = Return results
             /\ length results = length (linkedinTargets p)
             /\ Forall (fun r => ok r = true) results) as Hres.
  { unfold publishPost. rewrite publishLoop_spec. fold (linkedinTargets p).
    destruct (linkedinTargets p) as [|t l] eqn:E.
    - exists []. repeat split; constructor.
    - unfold publishToLinkedIn at 1. eexists. split; [reflexivity|].
      rewrite app_nil_l.
      split; [now rewrite length_map|].
      apply Forall_forall. intros r Hr. apply in_map_iff in Hr.
      destruct Hr as [x [<- _]]. reflexivity. }
  split; [exact Hres|].
  destruct Hres as [results [Hr _]].
  unfold publishNow. rewrite bind_getPost, Hp. unfold bind at 1.
  rewrite (attemptPublish_returned _ _ _ _ _ Hr).
  rewrite (findPost_id _ _ _ Hp).
  eexists. split; [reflexivity|].
  rewrite findPost_update_same by reflexivity. now rewrite Hp.
Qed.

Lemma source_publisher_always_publishes_witness :
  exists st',
    publishNow Demo.clock publishToLinkedIn (str "p1")
               (Demo.storeWith (Demo.post failed []))
    = (Return (Json 200), st')
    /\ findPost (str "p1") st'
       = Some (Post.withPublished (Demo.post failed []) published
                                  (Demo.clock 0%nat)).
Proof.
  apply (proj2 (source_publisher_always_publishes Demo.clock (str "p1")
                  (Demo.storeWith (Demo.post failed []))
                  (Demo.post failed []) eq_refl)).
Defined.

(** ** Invariants of the store *)

Lemma find_None_notin {A : Type} (key : A -> jstring) (i : jstring)
      (l : list A) :
  find (hasKey key i) l = None -> ~ In i (map key l).
Proof.
  induction l as [|a l IH]; simpl; [tauto|].
  unfold hasKey at 1. destruct (jstring_eqb (key a) i) eqn:E; [discriminate|].
  intros H [Hk | Hin]; [|now apply IH].
  apply jstring_eqb_neq in E. contradiction.
Qed.

Lemma NoDup_snoc {A : Type} (l : list A) (x : A) :
  NoDup l -> ~ In x l -> NoDup (l ++ [x]).
Proof.
  induction 1 as [|a l Ha Hl IH]; simpl; intros Hx.
  - constructor; [tauto | constructor].
  - constructor.
    + rewrite in_app_iff. simpl. intuition congruence.
    + apply IH. tauto.
Qed.

Lemma rows_keep_invariant (ids : list jstring) (l l' : list Post.row) :
  Forall2 (fun p p' => Post.id p' = Post.id p
                       /\ Post.brand p' = Post.brand p
                       /\ (~ In emDash (Post.text p) ->
                           ~ In emDash (Post.text p')))
          l l' ->
  map Post.id l' = map Post.id l
  /\ (Forall (fun p => ~ In emDash (Post.text p) /\ In (Post.brand p) ids) l ->
      Forall (fun p => ~ In emDash (Post.text p) /\ In (Post.brand p) ids) l').
Proof.
  induction 1 as [|p p' l l' [Hid [Hbr Ht]] _ [IH1 IH2]]; simpl.
  - split; [reflexivity | auto].
  - split; [now rewrite Hid, IH1|].
    intros Hall. inversion Hall as [|? ? [Hc Hin] Hall']; subst.
    constructor; [|now apply IH2]. rewrite Hbr. auto.
Qed.

(** Rows rewritten in place, ids and brands kept and clean texts left clean,
    keep the invariant. *)
Lemma storeInvariant_rows (st st' : Store) :
  brands st' = brands st ->
  Forall2 (fun p p' => Post.id p' = Post.id p
                       /\ Post.brand p' = Post.brand p
                       /\ (~ In emDash (Post.text p) ->
                           ~ In emDash (Post.text p')))
          (posts st) (posts st') ->
  storeInvariant st -> storeInvariant st'.
Proof.
  intros Hb Hrows [Hnb [Hnp Hall]]. unfold storeInvariant. rewrite Hb.
  destruct (rows_keep_invariant (map Brand.id (brands st)) _ _ Hrows)
    as [Hids Hkeep].
  split; [exact Hnb|]. split; [now rewrite Hids | now apply Hkeep].
Qed.

Lemma storeInvariant_sameContent (st st' : Store) :
  brands st' = brands st ->
  Forall2 sameContent (posts st) (posts st') ->
  storeInvariant st -> storeInvariant st'.
Proof.
  intros Hb Hrows. apply storeInvariant_rows; [exact Hb|].
  eapply Forall2_impl; [|exact Hrows].
  intros p p' [Hid [Hbr [Ht _]]]. rewrite Ht. auto.
Qed.

Lemma createBrand_invariant (body : BrandBody) (st : Store) :
  storeInvariant st -> storeInvariant (snd (createBrand body st)).
Proof.
  intros Hinv. unfold createBrand.
  destruct (missing (bb_id body) || missing (bb_name body)); [exact Hinv|].
  rewrite bind_getBrand.
  destruct (findBrand (orElse (bb_id body) []) st) eqn:Hf; [exact Hinv|].
  unfold bind, insertBrand, ret. cbn [Brand.id].
  rewrite (existsb_hasKey_find _ Brand.id _ _ Hf). cbn [snd].
  destruct Hinv as [Hnb [Hnp Hall]]. unfold storeInvariant. cbn [brands posts].
  rewrite map_app. cbn [map Brand.id].
  split; [apply NoDup_snoc; [exact Hnb | now apply find_None_notin]|].
  split; [exact Hnp|].
  eapply Forall_impl; [|exact Hall]. intros p [Hc Hin].
  split; [exact Hc | apply in_or_app; now left].
Qed.

Lemma patchBrand_invariant (i : jstring) (body : BrandBody) (st : Store) :
  storeInvariant st -> storeInvariant (snd (patchBrand i body st)).
Proof.
  intros Hinv. unfold patchBrand. rewrite bind_getBrand.
  destruct (findBrand i st) as [current|]; [|exact Hinv].
  rewrite bind_updateBrand. cbn [ret snd].
  destruct Hinv as [Hnb [Hnp Hall]]. unfold storeInvariant. cbn [brands posts].
  rewrite map_key_updateWhere by reflexivity. auto.
Qed.

Lemma patchPost_invariant (i : jstring) (body : PostPatch) (st : Store) :
  storeInvariant st -> storeInvariant (snd (patchPost i body st)).
Proof.
  intros Hinv. unfold patchPost. rewrite bind_getPost.
  destruct (findPost i st) as [p|]; [|exact Hinv].
  destruct (coalesce (pp_text body) (JStr (Post.text p)));
    try (rewrite bind_lift_Throw; exact Hinv).
  rewrite bind_lift_Return, bind_updatePost. cbn [ret snd].
  revert Hinv. apply storeInvariant_rows; [reflexivity|].
  cbn [posts]. apply Forall2_updateWhere; intros a.
  - tauto.
  - cbn [Post.id Post.brand Post.text]. repeat split.
    intros _. apply replaceEmDash_clean.
Qed.

Lemma approvePost_invariant (i : jstring) (st : Store) :
  storeInvariant st -> storeInvariant (snd (approvePost i st)).
Proof.
  apply storeInvariant_sameContent; apply approvePost_sameContent.
Qed.

Lemma publishNow_invariant (clock : nat -> Z)
      (publisher : Post.row -> outcome PublishResult)
      (i : jstring) (st : Store) :
  storeInvariant st -> storeInvariant (snd (publishNow clock publisher i st)).
Proof.
  apply storeInvariant_sameContent; apply publishNow_sameContent.
Qed.

Lemma sweep_invariant (clock : nat -> Z)
      (publisher : Post.row -> outcome PublishResult) (st : Store) :
  storeInvariant st -> storeInvariant (snd (sweep clock publisher st)).
Proof.
  apply storeInvariant_sameContent.
  - apply sweepLoop_brands.
  - apply sweepLoop_sameContent.
Qed.

Lemma createDrafts_NoDup (uid : nat -> jstring) (clock : nat -> Z)
      (brand : Brand.row) (sels : list Selection) (times : list Z)
      (items : list JsValue) :
  forall (i : nat) (st : Store),
    NoDup (map Post.id (posts st)) ->
    NoDup (map Post.id
             (posts (snd (createDrafts uid clock brand sels times i items st)))).
Proof.
  induction items as [|it items IH]; intros i st Hnd; [exact Hnd|].
  cbn [createDrafts]. unfold bind at 1.
  destruct (createDraft_row uid clock brand sels times i it st)
    as [[e He] | [p [Hp [Hid [_ [_ [_ [_ [_ [_ Hfresh]]]]]]]]]].
  - rewrite He. exact Hnd.
  - rewrite Hp. unfold bind at 1.
    assert (NoDup (map Post.id
                     (posts (mkStore (brands st) (posts st ++ [p]))))) as Hnd1.
    { cbn [posts]. rewrite map_app. cbn [map]. apply NoDup_snoc; [exact Hnd|].
      rewrite Hid. now apply find_None_notin. }
    specialize (IH (S i) _ Hnd1).
    destruct (createDrafts uid clock brand sels times (S i) items _)
      as [[ps|e] st1]; exact IH.
Qed.

Lemma generate_invariant
      (zone : JsDate.TimeZone) (random : nat -> Q) (uid : nat -> jstring) (clock : nat -> Z)
      (chat : Prompt -> outcome Content)
      (brandId : jstring) (count : Z) (st : Store) :
  storeInvariant st ->
  storeInvariant
    (snd (generatePostsForBrand zone random uid clock chat brandId count st)).
Proof.
  intros Hinv.
  destruct (generate_cases zone random uid clock chat brandId count st)
    as [[e ->] | [brand [sels [res [Hb ->]]]]]; [exact Hinv|].
  destruct (compose_appends zone uid clock brand sels res st)
    as [new [Heq Hnew]].
  assert (NoDup (map Post.id
                   (posts (snd (compose zone uid clock brand sels res st)))))
    as Hnd.
  { unfold compose. destruct (itemsOf res); try apply Hinv.
    destruct (nextScheduleTimes _ _ _ _) as [times|e].
    - rewrite bind_lift_Return. apply createDrafts_NoDup, Hinv.
    - rewrite bind_lift_Throw. apply Hinv. }
  rewrite Heq in *. destruct Hinv as [Hnb [_ Hall]].
  unfold storeInvariant. cbn [brands posts] in *.
  split; [exact Hnb|]. split; [exact Hnd|].
  apply Forall_app. split; [exact Hall|].
  eapply Forall_impl; [|exact Hnew]. intros p [_ [Hbr Hc]].
  split; [exact Hc|]. rewrite Hbr.
  apply find_some in Hb. apply in_map. tauto.
Qed.

(** X27: in every store the server can reach from empty tables, by any
    sequence of registrations, partial updates, generations, approvals,
    manual publishes and sweeps, with any generator, Publisher, clock, random
    source and id source: brand ids are unique, post ids are unique, no
    stored post text contains an em dash, and every post belongs to a stored
    brand. *)
Theorem reachable_store_invariant (st : Store) :
  reachable st -> storeInvariant st.
Proof.
  induction 1 as [|st st' _ IH Hstep].
  - repeat split; constructor.
  - destruct Hstep.
    + now apply createBrand_invariant.
    + now apply patchBrand_invariant.
    + now apply generate_invariant.
    + now apply patchPost_invariant.
    + now apply approvePost_invariant.
    + now apply publishNow_invariant.
    + now apply sweep_invariant.
Qed.

Lemma reachable_store_invariant_witness :
  storeInvariant
    (snd (generatePostsForBrand 0 Demo.random Demo.uid Demo.clock Demo.chatTwo
            (str "acme") 2
            (snd (createBrand
                    (mkBrandBody (Some (str "acme")) (Some (str "Acme")) None
                                 (Some [str "Culture"]) JUndefined None None)
                    (mkStore [] []))))).
Proof.
  apply reachable_store_invariant.
  eapply reachable_step; [|apply handled_generate].
  eapply reachable_step; [apply reachable_empty | apply handled_createBrand].
Defined.

(** ** Listing posts *)

Lemma insertNewestFirst_perm (p : Post.row) (l : list Post.row) :
  Permutation (p :: l) (insertNewestFirst p l).
Proof.
  induction l as [|q r IH]; simpl; [reflexivity|].
  destruct (Post.createdAt q <? Post.createdAt p); [reflexivity|].
  rewrite perm_swap. now constructor.
Qed.

Lemma insertNewestFirst_sorted (p : Post.row) (l : list Post.row) :
  newestFirst l -> newestFirst (insertNewestFirst p l).
Proof.
  unfold newestFirst. induction 1 as [|q r Hr IH Hq]; simpl.
  - constructor; constructor.
  - destruct (Post.createdAt q <? Post.createdAt p) eqn:E.
    + apply Z.ltb_lt in E. constructor; [now constructor|].
      constructor; [lia|].
      rewrite Forall_forall in *. intros x Hx. specialize (Hq x Hx). lia.
    + apply Z.ltb_ge in E. constructor; [exact IH|].
      rewrite Forall_forall in *. intros x Hx.
      apply (Permutation_in _ (Permutation_sym (insertNewestFirst_perm p r)))
        in Hx.
      destruct Hx as [<- | Hx]; [exact E | now apply Hq].
Qed.

Lemma orderByCreatedAtDesc_perm (l : list Post.row) :
  Permutation l (orderByCreatedAtDesc l).
Proof.
  induction l as [|p l IH]; simpl; [constructor|].
  rewrite <- insertNewestFirst_perm. now constructor.
Qed.

Lemma orderByCreatedAtDesc_sorted (l : list Post.row) :
  newestFirst (orderByCreatedAtDesc l).
Proof.
  induction l as [|p l IH]; simpl; [constructor|].
  now apply insertNewestFirst_sorted.
Qed.

(** X28: the listing returns exactly the stored posts that pass the brand
    and status filters given (a missing or empty filter passes every post),
    each as often as it is stored, ordered from the newest [createdAt] to
    the oldest. *)
Theorem listPosts_filtered_newest_first
        (brand status : option jstring) (st : Store) :
  Permutation (filter (selected_by brand status) (posts st))
              (listPosts brand status st)
  /\ newestFirst (listPosts brand status st)
  /\ (forall p, In p (listPosts brand status st) <->
                In p (posts st)
                /\ passes brand (Post.brand p) = true
                /\ passes status (Post.status p) = true).
Proof.
  unfold listPosts. split; [apply orderByCreatedAtDesc_perm|].
  split; [apply orderByCreatedAtDesc_sorted|].
  intros p. split.
  - intros H.
    apply (Permutation_in _ (Permutation_sym (orderByCreatedAtDesc_perm _)))
      in H.
    apply filter_In in H. unfold selected_by in H.
    rewrite andb_true_iff in H. tauto.
  - intros [Hin [Hb Hs]].
    apply (Permutation_in _ (orderByCreatedAtDesc_perm _)).
    apply filter_In. unfold selected_by. rewrite Hb, Hs. auto.
Qed.

(** ** Pillar keys *)

Lemma underscoreRuns_spec (s : jstring) :
  forall inRun,
    Forall (fun c => alnum c = true \/ c = 95%N) (underscoreRuns s inRun)
    /\ (forall k, nth_error (underscoreRuns s inRun) k = Some 95%N ->
                  nth_error (underscoreRuns s inRun) (S k) <> Some 95%N)
    /\ (inRun = true -> hd_error (underscoreRuns s inRun) <> Some 95%N).
Proof.
  induction s as [|c s IH]; intros inRun; simpl.
  - split; [constructor|]. split; [intros [|k]; discriminate | discriminate].
  - destruct (alnum c) eqn:Hc.
    + destruct (IH false) as [Hall [Hadj _]].
      assert (c <> 95%N) as Hne by (intros ->; discriminate Hc).
      split; [constructor; auto|]. split.
      * intros [|k]; simpl; [congruence | apply Hadj].
      * simpl. congruence.
    + destruct (IH true) as [Hall [Hadj Hhd]]. destruct inRun.
      * auto.
      * split; [constructor; auto|]. split; [|discriminate].
        intros [|k]; simpl; [|apply Hadj].
        intros _. specialize (Hhd eq_refl).
        destruct (underscoreRuns s true); simpl in *; congruence.
Qed.

Lemma underscoreRuns_alnum (s : jstring) :
  Forall (fun c => alnum c = true) s ->
  forall inRun, underscoreRuns s inRun = s.
Proof.
  induction 1 as [|c s Hc _ IH]; intros inRun; simpl; [reflexivity|].
  now rewrite Hc, IH.
Qed.

Lemma toLower_alnum (c : N) : alnum c = true -> toLower c = c.
Proof.
  unfold alnum, toLower. intros H.
  destruct ((65 <=? c)%N && (c <=? 90)%N) eqn:E; [|reflexivity].
  apply andb_true_iff in E. destruct E as [E1 E2].
  apply N.leb_le in E1. apply N.leb_le in E2.
  apply orb_true_iff in H. destruct H as [H | H];
    apply andb_true_iff in H; destruct H as [H1 H2];
    apply N.leb_le in H1; apply N.leb_le in H2; lia.
Qed.

(** X29: the key derived from a pillar label is made of the code units of
    [a-z], [0-9] and the underscore only, never has two underscores in a
    row, and is the label itself when the label is already made of [a-z]
    and [0-9]. *)
Theorem pillarKeyOf_is_slug (p : jstring) :
  Forall (fun c => alnum c = true \/ c = 95%N) (pillarKeyOf p)
  /\ (forall k, nth_error (pillarKeyOf p) k = Some 95%N ->
                nth_error (pillarKeyOf p) (S k) <> Some 95%N)
  /\ (Forall (fun c => alnum c = true) p -> pillarKeyOf p = p).
Proof.
  unfold pillarKeyOf.
  destruct (underscoreRuns_spec (map toLower p) false) as [Hall [Hadj _]].
  split; [exact Hall|]. split; [exact Hadj|].
  intros Hp. clear Hall Hadj.
  assert (map toLower p = p) as ->.
  { induction Hp as [|c s Hc _ IH]; simpl; [reflexivity|].
    now rewrite toLower_alnum, IH. }
  now apply underscoreRuns_alnum.
Qed.

Example pillarKeyOf_example :
  pillarKeyOf (str "People & Culture -- 2024!") = str "people_culture_2024_".
Proof. vm_compute. reflexivity. Qed.

(** ** Drafts and their slots *)

Lemma scheduledAt_firstn (new : list Post.row) :
  forall times,
    (forall k p, nth_error new k = Some p ->
                 Post.scheduledAt p = nth_error times k) ->
    (length new <= length times)%nat ->
    map Post.scheduledAt new = map Some (firstn (length new) times).
Proof.
  induction new as [|p new IH]; intros times Hk Hlen; [reflexivity|].
  destruct times as [|t times]; [simpl in Hlen; lia|].
  simpl. rewrite (Hk 0%nat p eq_refl). simpl. f_equal.
  apply IH; [|simpl in Hlen; lia].
  intros k q Hq. exact (Hk (S k) q Hq).
Qed.

Lemma candidates_after_now (tza : Z) (c : Cadence) (now : Z) :
  Forall (fun t => now < t) (candidates tza c now).
Proof.
  apply Forall_forall. intros t Ht. apply candidates_In in Ht.
  destruct Ht as [i [_ [-> Hq]]]. unfold qualifies in Hq.
  destruct (includes _ _); [|discriminate].
  apply andb_true_iff in Hq. destruct Hq as [_ Hq]. now apply Z.gtb_lt.
Qed.

Lemma Forall_firstn {A : Type} (P : A -> Prop) (n : nat) (l : list A) :
  Forall P l -> Forall P (firstn n l).
Proof.
  intros H. rewrite Forall_forall in *. intros x Hx. apply H.
  rewrite <- (firstn_skipn n l). apply in_or_app. now left.
Qed.


